(** * Asteroids: physics and gameplay-state core

    A shallow embedding of [_bullet.py], [_ship.py], [_asteroid.py],
    [_game.py] and the row of lives of [_hud.py].  Python floats (and numpy float64 arrays) are idealised as
    real numbers, Python ints are [Z], numpy arrays of a fixed small shape
    are tuples, and the mutable objects are records threaded explicitly
    through every method.  Rendering (pygame surfaces) is reduced to the
    one thing the game logic reads back from it: the size of an image. *)

From Stdlib Require Import Ascii String.
From Stdlib Require Import Reals Lra Lia ZArith List Bool.
Import ListNotations.
Open Scope R_scope.

(** ** Small numpy vocabulary *)

Definition Vec2 : Type := R * R.
Definition Vec3 : Type := R * R * R.

Definition add2 (a b : Vec2) : Vec2 := (fst a + fst b, snd a + snd b).
Definition sub2 (a b : Vec2) : Vec2 := (fst a - fst b, snd a - snd b).
Definition scale2 (k : R) (a : Vec2) : Vec2 := (k * fst a, k * snd a).
Definition norm2 (a : Vec2) : R := sqrt (fst a * fst a + snd a * snd a).

Definition add3 (a b : Vec3) : Vec3 :=
  let '(a0, a1, a2) := a in let '(b0, b1, b2) := b in
  (a0 + b0, a1 + b1, a2 + b2).
Definition scale3 (k : R) (a : Vec3) : Vec3 :=
  let '(a0, a1, a2) := a in (k * a0, k * a1, k * a2).
(** [a / k] on an array. *)
Definition div3 (a : Vec3) (k : R) : Vec3 :=
  let '(a0, a1, a2) := a in (a0 / k, a1 / k, a2 / k).
(** [numpy.cross] on two 3-vectors. *)
Definition cross (a b : Vec3) : Vec3 :=
  let '(a0, a1, a2) := a in let '(b0, b1, b2) := b in
  (a1 * b2 - a2 * b1, a2 * b0 - a0 * b2, a0 * b1 - a1 * b0).
Definition norm3 (a : Vec3) : R :=
  let '(a0, a1, a2) := a in sqrt (a0 * a0 + a1 * a1 + a2 * a2).
(** The slice [a[:2]] of a 3-vector. *)
Definition first2 (a : Vec3) : Vec2 :=
  let '(a0, a1, _) := a in (a0, a1).

Definition Color : Type := Z * Z * Z.

(** ** Configuration

    The [ConfigParser] object handed to every constructor, already parsed
    ([int(...)] fields are [Z], [float(...)] fields are [R]).  Every
    constructor receives [option Config]; [None] selects the class
    defaults. *)

Record Config : Type := mkConfig {
  ship_length : Z;
  ship_width : Z;
  ship_edge_width : Z;
  ship_linear_acceleration : R;
  ship_angular_acceleration : R;
  ship_reload_period : R;
  asteroid_minimum_diameter : Z;
  asteroid_median_diameter : Z;
  asteroid_minimum_speed : R;
  asteroid_median_speed : R;
  asteroid_edge_width : Z;
  asteroid_area_ratio : R;
  asteroid_energy_ratio : R;
  bullet_diameter : Z;
  bullet_muzzle_speed : R;
  bullet_lifespan : R;
  game_initial_lives : Z;
  game_asteroids_count : Z;
  game_fragments_count : Z;
  game_respawn_period : R
}.

(** [config[...] if config is not None else default]. *)
Definition cfg {A : Type} (config : option Config) (field : Config -> A)
    (default : A) : A :=
  match config with
  | Some c => field c
  | None => default
  end.

(** ** _bullet.py *)

Module Bullet.

Definition default_muzzle_speed : R := 100.
Definition default_diameter : Z := 5.
Definition default_lifespan : R := 5.

Record t : Type := mk {
  r : Vec2;
  color : Color;
  config : option Config;
  diameter : Z;
  muzzle_speed : R;
  lifespan : R;
  v : Vec2;
  alive : bool;
  age : R
}.

(** [Bullet.__init__] *)
Definition init (gun_position gun_velocity gun_direction : Vec2)
    (color : Color) (config : option Config) : t :=
  let muzzle := cfg config bullet_muzzle_speed default_muzzle_speed in
  {| r := gun_position;
     color := color;
     config := config;
     diameter := cfg config bullet_diameter default_diameter;
     muzzle_speed := muzzle;
     lifespan := cfg config bullet_lifespan default_lifespan;
     v := add2 gun_velocity (scale2 muzzle gun_direction);
     alive := true;
     age := 0 |}.

Definition position (self : t) : Vec2 := r self.

Definition set_position (x : Vec2) (self : t) : t :=
  {| r := x; color := color self; config := config self;
     diameter := diameter self; muzzle_speed := muzzle_speed self;
     lifespan := lifespan self; v := v self; alive := alive self;
     age := age self |}.

Definition explode (self : t) : t :=
  {| r := r self; color := color self; config := config self;
     diameter := diameter self; muzzle_speed := muzzle_speed self;
     lifespan := lifespan self; v := v self; alive := false;
     age := age self |}.

(** [Bullet.tick]: ballistic step, ageing, explosion at end of life. *)
Definition tick (dt : R) (self : t) : t :=
  let moved :=
    {| r := add2 (r self) (scale2 dt (v self));
       color := color self; config := config self;
       diameter := diameter self; muzzle_speed := muzzle_speed self;
       lifespan := lifespan self; v := v self; alive := alive self;
       age := age self + dt |} in
  if Rge_dec (age moved) (lifespan moved) then explode moved else moved.

(** The image is a [diameter] x [diameter] surface. *)
Definition get_size (self : t) : Z * Z := (diameter self, diameter self).

Definition is_alive (self : t) : bool := alive self.

End Bullet.

(** ** pygame events *)

Inductive EventType : Type := KEYDOWN | KEYUP | OTHER_EVENT.
Inductive Key : Type := K_UP | K_LEFT | K_RIGHT | K_SPACE | K_OTHER.
Record Event : Type := mkEvent { type : EventType; key : Key }.

(** ** _ship.py *)

Module Ship.

Definition default_linear_acceleration : R := 100.
Definition default_angular_acceleration : R := 2 * PI.
Definition default_length : Z := 30.
Definition default_width : Z := 30.
Definition default_edge_width : Z := 2.
Definition default_reload_period : R := 1.

(** The response tuple [(BULLET_FIRED, bullet)]. *)
Inductive Response : Type := BULLET_FIRED (bullet : Bullet.t).

Record t : Type := mk {
  r_cm : Vec3;
  v_cm : Vec3;
  u_nose_cm : Vec3;
  omega : Vec3;
  color : Color;
  config : option Config;
  length : Z;
  width : Z;
  edge_width : Z;
  a : R;
  alpha : R;
  reload_period : R;
  image : Z * Z;          (* size of the rotated sprite *)
  thrusting : Z;
  steering : Z;
  reloading : R;
  alive : bool
}.

Definition State : Type := Vec3 * Vec3 * Vec3 * Vec3.

Definition add_state (s k : State) : State :=
  let '(s0, s1, s2, s3) := s in let '(k0, k1, k2, k3) := k in
  (add3 s0 k0, add3 s1 k1, add3 s2 k2, add3 s3 k3).
Definition scale_state (c : R) (s : State) : State :=
  let '(s0, s1, s2, s3) := s in
  (scale3 c s0, scale3 c s1, scale3 c s2, scale3 c s3).
Definition div_state (s : State) (c : R) : State :=
  let '(s0, s1, s2, s3) := s in
  (div3 s0 c, div3 s1 c, div3 s2 c, div3 s3 c).

(** The helper [rates_of_change] of [Ship.tick]. *)
Definition rates_of_change (self : t) (state : State) : State :=
  let '(r_cm, v_cm, u_nose_cm, omega) := state in
  let d_dt_r_cm := v_cm in
  let d_dt_v_cm := scale3 (IZR (thrusting self) * a self) u_nose_cm in
  let d_dt_u_nose_cm := cross omega u_nose_cm in
  let d_dt_omega := scale3 (IZR (steering self) * alpha self) (0, 0, 1) in
  (d_dt_r_cm, d_dt_v_cm, d_dt_u_nose_cm, d_dt_omega).

Section Pygame.

(** [pygame.transform.rotate(prototype, -theta).get_size()] for a
    [length] x [width] prototype and
    [theta = degrees(arctan2(u[1], u[0]))]. *)
Variable rotate_size : Z * Z -> Vec3 -> Z * Z.

(** [Ship.tick]: one classical Runge-Kutta step, heading
    re-normalised, sprite rotated, reload timer decremented. *)
Definition tick (dt : R) (self : t) : t :=
  let initial_state :=
    (r_cm self, v_cm self, u_nose_cm self, omega self) in
  let k1 := rates_of_change self initial_state in
  let k2 := rates_of_change self
              (add_state initial_state (div_state (scale_state dt k1) 2)) in
  let k3 := rates_of_change self
              (add_state initial_state (div_state (scale_state dt k2) 2)) in
  let k4 := rates_of_change self
              (add_state initial_state (scale_state dt k3)) in
  let new_state :=
    add_state initial_state
      (scale_state (1 / 6 * dt)
         (add_state (add_state (add_state k1 (scale_state 2 k2))
                               (scale_state 2 k3)) k4)) in
  let '(r', v', u', w') := new_state in
  let u'' := div3 u' (norm3 u') in
  {| r_cm := r'; v_cm := v'; u_nose_cm := u''; omega := w';
     color := color self; config := config self;
     length := length self; width := width self;
     edge_width := edge_width self; a := a self; alpha := alpha self;
     reload_period := reload_period self;
     image := rotate_size (length self, width self) u'';
     thrusting := thrusting self; steering := steering self;
     reloading := reloading self - dt;
     alive := alive self |}.

(** [Ship.__init__], which ends with [self.tick(0)]. *)
Definition init (position velocity direction : Vec2)
    (angular_velocity : R) (color : Color) (config : option Config) : t :=
  let len := cfg config ship_length default_length in
  let wid := cfg config ship_width default_width in
  tick 0
    {| r_cm := (fst position, snd position, 0);
       v_cm := (fst velocity, snd velocity, 0);
       u_nose_cm := (fst direction, snd direction, 0);
       omega := (0, 0, angular_velocity);
       color := color; config := config;
       length := len; width := wid;
       edge_width := cfg config ship_edge_width default_edge_width;
       a := cfg config ship_linear_acceleration default_linear_acceleration;
       alpha := cfg config ship_angular_acceleration
                  default_angular_acceleration;
       reload_period := cfg config ship_reload_period default_reload_period;
       image := (len, wid);   (* [None] until the first tick *)
       thrusting := 0%Z; steering := 0%Z;
       reloading := 0;
       alive := true |}.

End Pygame.

Definition position (self : t) : Vec2 := first2 (r_cm self).

Definition set_position (x : Vec2) (self : t) : t :=
  {| r_cm := (fst x, snd x, 0); v_cm := v_cm self;
     u_nose_cm := u_nose_cm self; omega := omega self;
     color := color self; config := config self;
     length := length self; width := width self;
     edge_width := edge_width self; a := a self; alpha := alpha self;
     reload_period := reload_period self; image := image self;
     thrusting := thrusting self; steering := steering self;
     reloading := reloading self; alive := alive self |}.

Definition set_thrusting (n : Z) (self : t) : t :=
  {| r_cm := r_cm self; v_cm := v_cm self;
     u_nose_cm := u_nose_cm self; omega := omega self;
     color := color self; config := config self;
     length := length self; width := width self;
     edge_width := edge_width self; a := a self; alpha := alpha self;
     reload_period := reload_period self; image := image self;
     thrusting := n; steering := steering self;
     reloading := reloading self; alive := alive self |}.

Definition set_steering (n : Z) (self : t) : t :=
  {| r_cm := r_cm self; v_cm := v_cm self;
     u_nose_cm := u_nose_cm self; omega := omega self;
     color := color self; config := config self;
     length := length self; width := width self;
     edge_width := edge_width self; a := a self; alpha := alpha self;
     reload_period := reload_period self; image := image self;
     thrusting := thrusting self; steering := n;
     reloading := reloading self; alive := alive self |}.

Definition set_reloading (x : R) (self : t) : t :=
  {| r_cm := r_cm self; v_cm := v_cm self;
     u_nose_cm := u_nose_cm self; omega := omega self;
     color := color self; config := config self;
     length := length self; width := width self;
     edge_width := edge_width self; a := a self; alpha := alpha self;
     reload_period := reload_period self; image := image self;
     thrusting := thrusting self; steering := steering self;
     reloading := x; alive := alive self |}.

Definition get_size (self : t) : Z * Z := image self.

Definition is_alive (self : t) : bool := alive self.

Definition explode (self : t) : t :=
  {| r_cm := r_cm self; v_cm := v_cm self;
     u_nose_cm := u_nose_cm self; omega := omega self;
     color := color self; config := config self;
     length := length self; width := width self;
     edge_width := edge_width self; a := a self; alpha := alpha self;
     reload_period := reload_period self; image := image self;
     thrusting := thrusting self; steering := steering self;
     reloading := reloading self; alive := false |}.

(** [Ship.fire_bullet]: returns the response and the mutated ship. *)
Definition fire_bullet (self : t) : Response * t :=
  let self' := set_reloading (reload_period self) self in
  let r_gun :=
    add3 (r_cm self') (scale3 (IZR (length self') / 2) (u_nose_cm self')) in
  let v_gun :=
    add3 (v_cm self')
         (scale3 (IZR (length self') / 2)
                 (cross (omega self') (u_nose_cm self'))) in
  let bullet :=
    Bullet.init (first2 r_gun) (first2 v_gun) (first2 (u_nose_cm self'))
                (color self') (config self') in
  (BULLET_FIRED bullet, self').

(** [Ship.handle_event]: the response (or [None]) and the mutated ship. *)
Definition handle_event (event : Event) (self : t) : option Response * t :=
  match type event with
  | KEYDOWN =>
      match key event with
      | K_UP => (None, set_thrusting 1 self)
      | K_LEFT => (None, set_steering (steering self - 1) self)
      | K_RIGHT => (None, set_steering (steering self + 1) self)
      | K_SPACE =>
          if Rle_dec (reloading self) 0
          then let '(response, self') := fire_bullet self in
               (Some response, self')
          else (None, self)
      | K_OTHER => (None, self)
      end
  | KEYUP =>
      match key event with
      | K_UP => (None, set_thrusting 0 self)
      | K_LEFT => (None, set_steering (steering self + 1) self)
      | K_RIGHT => (None, set_steering (steering self - 1) self)
      | _ => (None, self)
      end
  | OTHER_EVENT => (None, self)
  end.

End Ship.

(** ** numpy on one-dimensional arrays of any length *)

(** [v[0::2]] *)
Fixpoint every_other (v : list R) : list R :=
  match v with
  | [] => []
  | x :: rest =>
      x :: match rest with
           | [] => []
           | _ :: rest' => every_other rest'
           end
  end.

(** [v[start::2]] *)
Definition strided (start : nat) (v : list R) : list R :=
  every_other (skipn start v).

(** [v[start:stop]] *)
Definition slice (start stop : nat) (v : list R) : list R :=
  firstn (stop - start) (skipn start v).

Definition np_sum (v : list R) : R := fold_right Rplus 0 v.

(** [numpy.linalg.norm] *)
Definition np_norm (v : list R) : R := sqrt (np_sum (map (fun x => x * x) v)).

(** [numpy.dot] of two arrays of one length. *)
Definition np_dot (a b : list R) : R :=
  np_sum (map (fun p => fst p * snd p) (combine a b)).

(** [numpy.zeros((n,))] *)
Definition np_zeros (n : nat) : list R := repeat 0 n.

(** ** The random generator [rng] of _asteroid.py

    [numpy.random.default_rng()] is a module-level mutable object.  It is
    modelled as the tape of variates it is going to produce, one tape per
    distribution, and a read position that every draw advances. *)

Record Rng : Type := mkRng {
  standard_exponential : nat -> R;   (* the draws of Exp(1): non-negative *)
  random : nat -> R;                 (* the draws of U[0, 1) *)
  cursor : nat
}.

Definition advance (n : nat) (g : Rng) : Rng :=
  {| standard_exponential := standard_exponential g;
     random := random g;
     cursor := (cursor g + n)%nat |}.

(** The ranges numpy documents for the two distributions. *)
Definition Rng_ok (g : Rng) : Prop :=
  forall n, 0 <= standard_exponential g n /\ 0 <= random g n < 1.

(** [rng.exponential(scale)] *)
Definition exponential (scale : R) (g : Rng) : R * Rng :=
  (scale * standard_exponential g (cursor g), advance 1 g).

(** [rng.uniform(low, high, 2)] *)
Definition uniform2 (low high : R) (g : Rng) : Vec2 * Rng :=
  ((low + (high - low) * random g (cursor g),
    low + (high - low) * random g (S (cursor g))),
   advance 2 g).

(** ** _asteroid.py *)

Module Asteroid.

Definition default_minimum_diameter : Z := 30.
Definition default_median_diameter : Z := 60.
Definition default_minimum_speed : R := 0.
Definition default_median_speed : R := 50.
Definition default_area_ratio : R := 3 / 4.       (* 0.75 *)
Definition default_energy_ratio : R := 11 / 10.   (* 1.1 *)
Definition default_edge_width : Z := 2.

Record t : Type := mk {
  diameter : R;
  r : Vec2;
  v : Vec2;
  color : Color;
  config : option Config;
  edge_width : Z;
  area_ratio : R;
  energy_ratio : R;
  minimum_diameter : Z;
  image : Z * Z;           (* size of the sprite *)
  alive : bool
}.

(** [Asteroid.generate_diameter] *)
Definition generate_diameter (config : option Config) (g : Rng) : R * Rng :=
  let d_min := cfg config asteroid_minimum_diameter default_minimum_diameter in
  let d_med := cfg config asteroid_median_diameter default_median_diameter in
  let beta := IZR (d_med - d_min) / ln 2 in
  let '(e, g') := exponential beta g in
  (e + IZR d_min, g').

(** [Asteroid.generate_position] *)
Definition generate_position (window_size : Z * Z) (g : Rng) : Vec2 * Rng :=
  let '(u, g') := uniform2 0 1 g in
  ((IZR (fst window_size) * fst u, IZR (snd window_size) * snd u), g').

(** [Asteroid.generate_velocity] *)
Definition generate_velocity (config : option Config) (g : Rng) : Vec2 * Rng :=
  let s_min := cfg config asteroid_minimum_speed default_minimum_speed in
  let s_med := cfg config asteroid_median_speed default_median_speed in
  let beta := (s_med - s_min) / ln 2 in
  let '(e, g1) := exponential beta g in
  let speed := e + s_min in
  let '(direction, g2) := uniform2 0 1 g1 in
  let direction :=
    (fst direction / norm2 direction, snd direction / norm2 direction) in
  (scale2 speed direction, g2).

Definition position (self : t) : Vec2 := r self.

Definition set_position (x : Vec2) (self : t) : t :=
  {| diameter := diameter self; r := x; v := v self; color := color self;
     config := config self; edge_width := edge_width self;
     area_ratio := area_ratio self; energy_ratio := energy_ratio self;
     minimum_diameter := minimum_diameter self; image := image self;
     alive := alive self |}.

Definition set_v (x : Vec2) (self : t) : t :=
  {| diameter := diameter self; r := r self; v := x; color := color self;
     config := config self; edge_width := edge_width self;
     area_ratio := area_ratio self; energy_ratio := energy_ratio self;
     minimum_diameter := minimum_diameter self; image := image self;
     alive := alive self |}.

Definition set_alive (b : bool) (self : t) : t :=
  {| diameter := diameter self; r := r self; v := v self; color := color self;
     config := config self; edge_width := edge_width self;
     area_ratio := area_ratio self; energy_ratio := energy_ratio self;
     minimum_diameter := minimum_diameter self; image := image self;
     alive := b |}.

(** [Asteroid.tick] *)
Definition tick (dt : R) (self : t) : t :=
  set_position (add2 (r self) (scale2 dt (v self))) self.

Definition get_size (self : t) : Z * Z := image self.

Definition is_alive (self : t) : bool := alive self.

(** The helper [system_of_equations] of [Asteroid.explode]: the residuals
    of momentum (2), energy (1), equal speeds (N - 1) and equal angles
    (N - 2) at the candidate velocities [v], laid out
    [v1x, v1y, v2x, v2y, ...]. *)
Definition system_of_equations (self : t) (fragments_count : Z)
    (v : list R) : list R :=
  let n := Z.to_nat fragments_count in
  let pair kk := slice (2 * kk)%nat (2 * kk + 2)%nat v in
  let com :=
    [ fst (Asteroid.v self) - np_sum (strided 0 v) / IZR fragments_count;
      snd (Asteroid.v self) - np_sum (strided 1 v) / IZR fragments_count ] in
  let s := map (fun kk => np_norm (pair kk)) (seq 0 n) in
  let coe :=
    energy_ratio self * norm2 (Asteroid.v self) ^ 2
    - area_ratio self / IZR fragments_count
      * np_sum (map (fun x => x ^ 2) s) in
  let ev :=
    map (fun kk => nth kk s 0 - nth (kk + 1)%nat s 0) (seq 0 (n - 1)%nat) in
  let ea :=
    map (fun kk => np_dot (pair kk) (pair (kk + 1)%nat)
                   - np_dot (pair (kk + 1)%nat) (pair (kk + 2)%nat))
        (seq 0 (n - 2)%nat) in
  com ++ [coe] ++ ev ++ ea.

Section External.

(** [pygame.Surface(size).get_size()] *)
Variable surface_size : R * R -> Z * Z.

(** [scipy.optimize.root(fun, x0).x]: the solver's final iterate, an
    array of the shape of [x0].  Convergence is not checked by the
    caller, so nothing else is known of it. *)
Variable root : (list R -> list R) -> list R -> list R.

(** [Asteroid.__init__] *)
Definition init (diameter : R) (position velocity : Vec2) (color : Color)
    (config : option Config) : t :=
  {| diameter := diameter;
     r := position;
     v := velocity;
     color := color;
     config := config;
     edge_width := cfg config asteroid_edge_width default_edge_width;
     area_ratio := cfg config asteroid_area_ratio default_area_ratio;
     energy_ratio := cfg config asteroid_energy_ratio default_energy_ratio;
     minimum_diameter :=
       cfg config asteroid_minimum_diameter default_minimum_diameter;
     image := surface_size (diameter, diameter);
     alive := true |}.

(** [sol.x[2 * k: 2 * k + 2]], a two-element array since [sol.x] has the
    shape of [v0]. *)
Definition velocity_at (x : list R) (k : nat) : Vec2 :=
  (nth (2 * k)%nat x 0, nth (2 * k + 1)%nat x 0).

(** [Asteroid.explode]: the returned fragment list and the mutated parent.
    [None] stands for a raised exception: [ZeroDivisionError] for a count
    of zero, and numpy's refusal of a negative dimension
    ([numpy.empty((fragments_count - 2,))]) for a count below two.  The
    division by [diameter_ratio] is the real one, which is numpy's for
    [area_ratio / fragments_count > 0]. *)
Definition explode (fragments_count : Z) (self : t) : option (list t) * t :=
  let self := set_alive false self in
  if (fragments_count =? 0)%Z then (None, self) else
  let diameter_ratio := sqrt (area_ratio self / IZR fragments_count) in
  if Rlt_dec (diameter self) (IZR (minimum_diameter self) / diameter_ratio)
  then (Some [], self)
  else
    if (fragments_count <? 2)%Z then (None, self) else
    let v0 := np_zeros (Z.to_nat (2 * fragments_count)) in
    let sol := root (system_of_equations self fragments_count) v0 in
    let fragments :=
      map (fun _ => init (diameter_ratio * diameter self) (r self) (0, 0)
                         (color self) (config self))
          (seq 0 (Z.to_nat fragments_count)) in
    let fragments :=
      map (fun kf => set_v (velocity_at sol (fst kf)) (snd kf))
          (combine (seq 0 (List.length fragments)) fragments) in
    (Some fragments, self).

End External.

End Asteroid.

(** ** The sprite protocol

    [Game] treats ships, bullets and asteroids alike through
    [is_alive()], [get_size()] and the [position] property. *)

Class Sprite (A : Type) : Type := {
  is_alive : A -> bool;
  get_size : A -> Z * Z;
  position : A -> Vec2;
  set_position : Vec2 -> A -> A
}.

#[export] Instance Sprite_Ship : Sprite Ship.t :=
  {| is_alive := Ship.is_alive; get_size := Ship.get_size;
     position := Ship.position; set_position := Ship.set_position |}.

#[export] Instance Sprite_Bullet : Sprite Bullet.t :=
  {| is_alive := Bullet.is_alive; get_size := Bullet.get_size;
     position := Bullet.position; set_position := Bullet.set_position |}.

#[export] Instance Sprite_Asteroid : Sprite Asteroid.t :=
  {| is_alive := Asteroid.is_alive; get_size := Asteroid.get_size;
     position := Asteroid.position; set_position := Asteroid.set_position |}.

(** What the property setter and getter of a sprite guarantee. *)
Class SpriteLaws (A : Type) `{Sprite A} : Prop := {
  position_set_position : forall x s, position (set_position x s) = x;
  is_alive_set_position : forall x s, is_alive (set_position x s) = is_alive s;
  get_size_set_position : forall x s, get_size (set_position x s) = get_size s
}.

(** ** Outcomes of code that may raise or loop *)

Inductive Outcome (A : Type) : Type :=
| Returned (x : A)
| Raised
| OutOfFuel.
Arguments Returned {A} x.
Arguments Raised {A}.
Arguments OutOfFuel {A}.

Definition bind {A B : Type} (m : Outcome A) (k : A -> Outcome B) : Outcome B :=
  match m with
  | Returned x => k x
  | Raised => Raised
  | OutOfFuel => OutOfFuel
  end.

(** [for item in items: body], threading the state the body mutates. *)
Fixpoint for_each {I S : Type} (body : I -> S -> Outcome S) (items : list I)
    (s : S) : Outcome S :=
  match items with
  | [] => Returned s
  | item :: rest => bind (body item s) (for_each body rest)
  end.

(** A list holds references: an object reached through two lists is one
    object.  References into [l] are positions in [l]; [living] is the
    comprehension [[x for x in l if x.is_alive()]] as positions. *)
Definition living {A : Type} (alive : A -> bool) (l : list A) : list nat :=
  map fst (filter (fun ix => alive (snd ix)) (combine (seq 0 (List.length l)) l)).

(** The object at position [i] replaced by its mutated state. *)
Fixpoint store {A : Type} (i : nat) (x : A) (l : list A) : list A :=
  match l, i with
  | [], _ => []
  | _ :: rest, O => x :: rest
  | y :: rest, S i' => y :: store i' x rest
  end.

(** ** _game.py *)

Module Game.

Inductive Status : Type := PLAYING | OVER.

Definition default_initial_lives : Z := 3.
Definition default_asteroids_count : Z := 3.
Definition default_fragments_count : Z := 2.
Definition default_respawn_period : R := 3.

Record SpawnParameters : Type := mkSpawn {
  spawn_position : Vec2;
  spawn_velocity : Vec2;
  spawn_direction : Vec2;
  spawn_angular_velocity : R
}.

(** The counters [_score], [_level], [_respawn_timer] and [_lives] are
    kept as their [count]. *)
Record t : Type := mk {
  window_size : Z * Z;
  foreground_color : Color;
  config : option Config;
  initial_lives : Z;
  asteroids_count : Z;
  fragments_count : Z;
  respawn_period : R;
  ship_spawn_parameters : SpawnParameters;
  ship : Ship.t;
  score : Z;
  level : Z;
  respawn_timer : R;
  lives : Z;
  asteroids : list Asteroid.t;
  bullets : list Bullet.t
}.

Definition set_ship (x : Ship.t) (self : t) : t :=
  {| window_size := window_size self;
     foreground_color := foreground_color self; config := config self;
     initial_lives := initial_lives self;
     asteroids_count := asteroids_count self;
     fragments_count := fragments_count self;
     respawn_period := respawn_period self;
     ship_spawn_parameters := ship_spawn_parameters self;
     ship := x; score := score self; level := level self;
     respawn_timer := respawn_timer self; lives := lives self;
     asteroids := asteroids self; bullets := bullets self |}.

Definition set_score (x : Z) (self : t) : t :=
  {| window_size := window_size self;
     foreground_color := foreground_color self; config := config self;
     initial_lives := initial_lives self;
     asteroids_count := asteroids_count self;
     fragments_count := fragments_count self;
     respawn_period := respawn_period self;
     ship_spawn_parameters := ship_spawn_parameters self;
     ship := ship self; score := x; level := level self;
     respawn_timer := respawn_timer self; lives := lives self;
     asteroids := asteroids self; bullets := bullets self |}.

Definition set_level (x : Z) (self : t) : t :=
  {| window_size := window_size self;
     foreground_color := foreground_color self; config := config self;
     initial_lives := initial_lives self;
     asteroids_count := asteroids_count self;
     fragments_count := fragments_count self;
     respawn_period := respawn_period self;
     ship_spawn_parameters := ship_spawn_parameters self;
     ship := ship self; score := score self; level := x;
     respawn_timer := respawn_timer self; lives := lives self;
     asteroids := asteroids self; bullets := bullets self |}.

Definition set_respawn_timer (x : R) (self : t) : t :=
  {| window_size := window_size self;
     foreground_color := foreground_color self; config := config self;
     initial_lives := initial_lives self;
     asteroids_count := asteroids_count self;
     fragments_count := fragments_count self;
     respawn_period := respawn_period self;
     ship_spawn_parameters := ship_spawn_parameters self;
     ship := ship self; score := score self; level := level self;
     respawn_timer := x; lives := lives self;
     asteroids := asteroids self; bullets := bullets self |}.

Definition set_lives (x : Z) (self : t) : t :=
  {| window_size := window_size self;
     foreground_color := foreground_color self; config := config self;
     initial_lives := initial_lives self;
     asteroids_count := asteroids_count self;
     fragments_count := fragments_count self;
     respawn_period := respawn_period self;
     ship_spawn_parameters := ship_spawn_parameters self;
     ship := ship self; score := score self; level := level self;
     respawn_timer := respawn_timer self; lives := x;
     asteroids := asteroids self; bullets := bullets self |}.

Definition set_asteroids (x : list Asteroid.t) (self : t) : t :=
  {| window_size := window_size self;
     foreground_color := foreground_color self; config := config self;
     initial_lives := initial_lives self;
     asteroids_count := asteroids_count self;
     fragments_count := fragments_count self;
     respawn_period := respawn_period self;
     ship_spawn_parameters := ship_spawn_parameters self;
     ship := ship self; score := score self; level := level self;
     respawn_timer := respawn_timer self; lives := lives self;
     asteroids := x; bullets := bullets self |}.

Definition set_bullets (x : list Bullet.t) (self : t) : t :=
  {| window_size := window_size self;
     foreground_color := foreground_color self; config := config self;
     initial_lives := initial_lives self;
     asteroids_count := asteroids_count self;
     fragments_count := fragments_count self;
     respawn_period := respawn_period self;
     ship_spawn_parameters := ship_spawn_parameters self;
     ship := ship self; score := score self; level := level self;
     respawn_timer := respawn_timer self; lives := lives self;
     asteroids := asteroids self; bullets := x |}.

(** [Game._handle_boundary_crossings] *)
Definition handle_boundary_crossings {A : Type} `{Sprite A} (self : t)
    (sprite : A) : A :=
  if negb (is_alive sprite) then sprite else
  let '(width, height) := get_size sprite in
  let sprite :=
    if Rlt_dec (fst (position sprite)) (- IZR width / 2) then
      set_position
        (IZR (fst (window_size self)) + IZR width / 2, snd (position sprite))
        sprite
    else if Rgt_dec (fst (position sprite))
                    (IZR (fst (window_size self)) + IZR width / 2) then
      set_position (- IZR width / 2, snd (position sprite)) sprite
    else sprite in
  if Rlt_dec (snd (position sprite)) (- IZR height / 2) then
    set_position
      (fst (position sprite), IZR (snd (window_size self)) + IZR height / 2)
      sprite
  else if Rgt_dec (snd (position sprite))
                  (IZR (snd (window_size self)) + IZR height / 2) then
    set_position (fst (position sprite), - IZR height / 2) sprite
  else sprite.

(** [Game.handle_event] on the ship it forwards to. *)
Definition handle_event (event : Event) (self : t) : t :=
  match type event with
  | KEYDOWN | KEYUP =>
      let '(response, ship') := Ship.handle_event event (ship self) in
      let self := set_ship ship' self in
      match response with
      | Some (Ship.BULLET_FIRED bullet) =>
          set_bullets (bullets self ++ [bullet]) self
      | None => self
      end
  | OTHER_EVENT => self
  end.

Section External.

Variable rotate_size : Z * Z -> Vec3 -> Z * Z.
Variable surface_size : R * R -> Z * Z.
Variable root : (list R -> list R) -> list R -> list R.

(** The ship built from [_ship_spawn_parameters], at session start and
    at every respawn. *)
Definition new_ship (self_spawn : SpawnParameters) (color : Color)
    (config : option Config) : Ship.t :=
  Ship.init rotate_size
    (spawn_position self_spawn) (spawn_velocity self_spawn)
    (spawn_direction self_spawn) (spawn_angular_velocity self_spawn)
    color config.

(** The rejection loop of [_spawn_asteroids]; [fuel] bounds its
    iterations. *)
Fixpoint spawn_somewhere (fuel : nat) (self : t) (diameter : R) (g : Rng)
    : Outcome (Vec2 * Rng) :=
  match fuel with
  | O => OutOfFuel
  | S fuel' =>
      let '(position, g') := Asteroid.generate_position (window_size self) g in
      let separation := norm2 (sub2 (Ship.position (ship self)) position) in
      if Ship.is_alive (ship self)
         && (if Rle_dec separation (diameter / 2) then true else false)
      then spawn_somewhere fuel' self diameter g'
      else Returned (position, g')
  end.

(** One pass of the [for] loop of [_spawn_asteroids]. *)
Definition spawn_asteroid (fuel : nat) (self : t)
    (acc : list Asteroid.t * Rng) : Outcome (list Asteroid.t * Rng) :=
  let '(new_asteroids, g) := acc in
  let '(diameter, g) := Asteroid.generate_diameter None g in
  bind (spawn_somewhere fuel self diameter g) (fun pg =>
  let '(position, g) := pg in
  let speed_multiplier := IZR (level self + 9) / 10 in
  let '(velocity, g) := Asteroid.generate_velocity None g in
  Returned
    (new_asteroids
       ++ [Asteroid.init surface_size diameter position
             (scale2 speed_multiplier velocity) (foreground_color self) None],
     g)).

(** [Game._spawn_asteroids] *)
Definition spawn_asteroids (fuel : nat) (self : t) (g : Rng)
    : Outcome (list Asteroid.t * Rng) :=
  for_each (fun _ : nat => spawn_asteroid fuel self)
           (seq 0 (Z.to_nat (asteroids_count self))) ([], g).

(** [asteroid.explode(self._fragments_count)] on the asteroid at position
    [j], its fragments appended to [self._asteroids]. *)
Definition explode_asteroid (j : nat) (asteroid : Asteroid.t) (self : t)
    : Outcome t :=
  match Asteroid.explode surface_size root (fragments_count self) asteroid with
  | (Some fragments, asteroid') =>
      Returned (set_asteroids (store j asteroid' (asteroids self) ++ fragments)
                              self)
  | (None, _) => Raised
  end.

(** The body of the double loop of [_handle_asteroid_bullet_collisions]
    for the bullet at [i] and the asteroid at [j]. *)
Definition asteroid_bullet_collision (i j : nat) (self : t) : Outcome t :=
  match nth_error (bullets self) i, nth_error (asteroids self) j with
  | Some bullet, Some asteroid =>
      let separation :=
        norm2 (sub2 (Bullet.position bullet) (Asteroid.position asteroid)) in
      if Rle_dec separation (Asteroid.diameter asteroid / 2) then
        bind (explode_asteroid j asteroid self) (fun self =>
        let self :=
          set_bullets (store i (Bullet.explode bullet) (bullets self)) self in
        Returned (set_score (score self + 1) self))
      else Returned self
  | _, _ => Returned self
  end.

(** [Game._handle_asteroid_bullet_collisions] *)
Definition handle_asteroid_bullet_collisions (self : t) : Outcome t :=
  let living_bullets := living Bullet.is_alive (bullets self) in
  let living_asteroids := living Asteroid.is_alive (asteroids self) in
  for_each
    (fun i => for_each (fun j => asteroid_bullet_collision i j) living_asteroids)
    living_bullets self.

(** The loop body of [_handle_asteroid_ship_collisions]. *)
Definition asteroid_ship_collision (j : nat) (self : t) : Outcome t :=
  match nth_error (asteroids self) j with
  | Some asteroid =>
      let separation :=
        norm2 (sub2 (Ship.position (ship self)) (Asteroid.position asteroid)) in
      if Rle_dec separation (Asteroid.diameter asteroid / 2) then
        let self := set_ship (Ship.explode (ship self)) self in
        bind (explode_asteroid j asteroid self) (fun self =>
        Returned (set_respawn_timer (respawn_period self) self))
      else Returned self
  | None => Returned self
  end.

(** [Game._handle_asteroid_ship_collisions] *)
Definition handle_asteroid_ship_collisions (self : t) : Outcome t :=
  if negb (Ship.is_alive (ship self)) then Returned self else
  let living_asteroids := living Asteroid.is_alive (asteroids self) in
  for_each asteroid_ship_collision living_asteroids self.

(** The sprite updates of [Game.tick]: every stored sprite is ticked and
    handed to [_handle_boundary_crossings]. *)
Definition update_sprites (dt : R) (self : t) : t :=
  let self :=
    set_ship
      (handle_boundary_crossings self (Ship.tick rotate_size dt (ship self)))
      self in
  let self :=
    set_bullets
      (map (fun bullet => handle_boundary_crossings self (Bullet.tick dt bullet))
           (bullets self))
      self in
  set_asteroids
    (map (fun asteroid =>
            handle_boundary_crossings self (Asteroid.tick dt asteroid))
         (asteroids self))
    self.

(** The level increment of [Game.tick]. *)
Definition level_up (fuel : nat) (self : t) (g : Rng) : Outcome (t * Rng) :=
  let any_asteroids_alive := existsb Asteroid.is_alive (asteroids self) in
  if negb any_asteroids_alive then
    if Ship.is_alive (ship self) || (lives self >? 0)%Z then
      let self := set_level (level self + 1) self in
      bind (spawn_asteroids fuel self g) (fun ag =>
      Returned (set_asteroids (fst ag) self, snd ag))
    else Returned (self, g)
  else Returned (self, g).

(** [Game.tick] up to the decrement of the respawn timer. *)
Definition tick_sprites (fuel : nat) (dt : R) (self : t) (g : Rng)
    : Outcome (t * Rng) :=
  bind (handle_asteroid_bullet_collisions self) (fun self =>
  bind (handle_asteroid_ship_collisions self) (fun self =>
  level_up fuel (update_sprites dt self) g)).

(** The end of [Game.tick]: the respawn timer, and a new ship or the end
    of the game. *)
Definition respawn_or_end (dt : R) (self : t) : Status * t :=
  let self := set_respawn_timer (respawn_timer self - dt) self in
  if negb (Ship.is_alive (ship self))
     && (if Rle_dec (respawn_timer self) 1 then true else false)
  then
    if (lives self <=? 0)%Z then (OVER, self)
    else
      let self := set_lives (lives self - 1) self in
      (PLAYING,
       set_ship (new_ship (ship_spawn_parameters self) (foreground_color self)
                          (config self))
                self)
  else (PLAYING, self).

(** [Game.tick] *)
Definition tick (fuel : nat) (dt : R) (self : t) (g : Rng)
    : Outcome (Status * t * Rng) :=
  bind (tick_sprites fuel dt self g) (fun sg =>
  let '(status, self) := respawn_or_end dt (fst sg) in
  Returned (status, self, snd sg)).

(** [Game.__init__] *)
Definition init (fuel : nat) (window_size : Z * Z) (foreground_color : Color)
    (config : option Config) (g : Rng) : Outcome (t * Rng) :=
  let spawn :=
    {| spawn_position :=
         (IZR (fst window_size) / 2, IZR (snd window_size) / 2);
       spawn_velocity := (0, 0);
       spawn_direction := (0, -1);
       spawn_angular_velocity := 0 |} in
  let initial_lives := cfg config game_initial_lives default_initial_lives in
  let respawn_period := cfg config game_respawn_period default_respawn_period in
  let self :=
    {| window_size := window_size;
       foreground_color := foreground_color;
       config := config;
       initial_lives := initial_lives;
       asteroids_count :=
         cfg config game_asteroids_count default_asteroids_count;
       fragments_count :=
         cfg config game_fragments_count default_fragments_count;
       respawn_period := respawn_period;
       ship_spawn_parameters := spawn;
       ship := new_ship spawn foreground_color config;
       score := 0%Z;
       level := 1%Z;
       respawn_timer := respawn_period;
       lives := (initial_lives - 1)%Z;
       asteroids := [];
       bullets := [] |} in
  bind (spawn_asteroids fuel self g) (fun ag =>
  Returned (set_asteroids (fst ag) self, snd ag)).

End External.

End Game.

(** ** _hud.py *)

(** The row of glyphs that shows the remaining lives.  Drawing is reduced
    to the positions handed to [surface.blit], in order. *)
Module HorizontalGlyphCounter.

Record t : Type := mk {
  anchor : string;
  location : Vec2;
  count : Z;
  image : Z * Z          (* self._image.get_size() *)
}.

(** The [for] loop of [draw]: one blit per glyph, [x] moved on by the
    width after each. *)
Fixpoint blits (n : nat) (width x y : R) : list Vec2 :=
  match n with
  | O => []
  | S n' => (x, y) :: blits n' width (x + width) y
  end.

(** [HorizontalGlyphCounter.draw]; indexing an anchor of fewer than two
    characters raises. *)
Definition draw (self : t) : Outcome (list Vec2) :=
  let '(width, height) := image self in
  match String.get 0 (anchor self) with
  | None => Raised
  | Some vertical =>
      let y :=
        if Ascii.eqb vertical "n" then snd (location self)
        else if Ascii.eqb vertical "c"
             then snd (location self) - IZR height / 2
             else snd (location self) - IZR height in
      match String.get 1 (anchor self) with
      | None => Raised
      | Some horizontal =>
          let x :=
            if Ascii.eqb horizontal "w" then fst (location self)
            else if Ascii.eqb horizontal "c"
                 then fst (location self) - IZR (count self * width) / 2
                 else fst (location self) - IZR (count self * width) in
          Returned (blits (Z.to_nat (count self)) (IZR width) x y)
      end
  end.

End HorizontalGlyphCounter.

(** ** Concrete sprites used to exercise the statements below *)

Definition white : Color := (255, 255, 255)%Z.

(** The default parameters, but for bullets of diameter 30. *)
Definition wide_bullet_config : Config :=
  {| ship_length := 30; ship_width := 30; ship_edge_width := 2;
     ship_linear_acceleration := 100; ship_angular_acceleration := 6;
     ship_reload_period := 1;
     asteroid_minimum_diameter := 30; asteroid_median_diameter := 60;
     asteroid_minimum_speed := 0; asteroid_median_speed := 50;
     asteroid_edge_width := 2;
     asteroid_area_ratio := 3 / 4; asteroid_energy_ratio := 11 / 10;
     bullet_diameter := 30; bullet_muzzle_speed := 100; bullet_lifespan := 5;
     game_initial_lives := 3; game_asteroids_count := 3;
     game_fragments_count := 2; game_respawn_period := 3 |}.

(** A bullet of diameter 30 fired upwards from a gun at rest at [p]: alive,
    of age 0, with velocity [(0, -100)]. *)
Definition bullet_at (p : Vec2) : Bullet.t :=
  Bullet.init p (0, 0) (0, -1) white (Some wide_bullet_config).

(** A ship as [Ship.__init__] leaves it for the default configuration, but
    for the image, which is given: at [p], at rest, heading up. *)
Definition ship_at (p : Vec2) (alive : bool) (reloading : R) : Ship.t :=
  {| Ship.r_cm := (fst p, snd p, 0); Ship.v_cm := (0, 0, 0);
     Ship.u_nose_cm := (0, -1, 0); Ship.omega := (0, 0, 0);
     Ship.color := white; Ship.config := None;
     Ship.length := 30; Ship.width := 30; Ship.edge_width := 2;
     Ship.a := 100; Ship.alpha := 2 * PI; Ship.reload_period := 1;
     Ship.image := (30, 30)%Z;
     Ship.thrusting := 0; Ship.steering := 0;
     Ship.reloading := reloading; Ship.alive := alive |}.

(** An asteroid for the default configuration, its image given. *)
Definition rock (diameter : R) (p v : Vec2) (alive : bool) : Asteroid.t :=
  {| Asteroid.diameter := diameter; Asteroid.r := p; Asteroid.v := v;
     Asteroid.color := white; Asteroid.config := None;
     Asteroid.edge_width := 2; Asteroid.area_ratio := 3 / 4;
     Asteroid.energy_ratio := 11 / 10; Asteroid.minimum_diameter := 30;
     Asteroid.image := (60, 60)%Z; Asteroid.alive := alive |}.

(** A session in an 800 x 600 window with the default parameters. *)
Definition session (ship : Ship.t) (lives : Z) (respawn_timer : R)
    (asteroids : list Asteroid.t) (bullets : list Bullet.t) : Game.t :=
  {| Game.window_size := (800, 600)%Z;
     Game.foreground_color := white; Game.config := None;
     Game.initial_lives := 3; Game.asteroids_count := 3;
     Game.fragments_count := 2; Game.respawn_period := 3;
     Game.ship_spawn_parameters :=
       {| Game.spawn_position := (400, 300); Game.spawn_velocity := (0, 0);
          Game.spawn_direction := (0, -1);
          Game.spawn_angular_velocity := 0 |};
     Game.ship := ship; Game.score := 0; Game.level := 1;
     Game.respawn_timer := respawn_timer; Game.lives := lives;
     Game.asteroids := asteroids; Game.bullets := bullets |}.

(** Stand-ins for the external collaborators where a statement is run on
    a concrete input: a surface of size 1 x 1 whatever is asked, a rotation
    that keeps the size of the prototype, and a solver that gives back its
    initial guess. *)
Definition unit_surface (size : R * R) : Z * Z := (1, 1)%Z.
Definition same_size (size : Z * Z) (heading : Vec3) : Z * Z := size.
Definition idle_root (f : list R -> list R) (x0 : list R) : list R := x0.

(** An asteroid at or above the threshold (diameter 100) moving at
    [(10, 0)], configured with an energy ratio of 0.5 below its area ratio
    of 0.75. *)
Definition damped_rock : Asteroid.t :=
  {| Asteroid.diameter := 100; Asteroid.r := (100, 100);
     Asteroid.v := (10, 0);
     Asteroid.color := white; Asteroid.config := None;
     Asteroid.edge_width := 2; Asteroid.area_ratio := 3 / 4;
     Asteroid.energy_ratio := 1 / 2; Asteroid.minimum_diameter := 30;
     Asteroid.image := (100, 100)%Z; Asteroid.alive := true |}.

(** ** The conservation laws of a fragmentation, as the specification
    states them

    Momentum: the mean of the fragment velocities is the parent velocity,
    axis by axis.  Energy: [energy_ratio * |v_p|^2] is
    [(area_ratio / N) * sum |v_i|^2].  [laws_within tol] bounds the three
    differences by [tol]. *)

Definition momentum_gap (parent_v : Vec2) (vs : list Vec2) : Vec2 :=
  (fst parent_v - np_sum (map fst vs) / INR (List.length vs),
   snd parent_v - np_sum (map snd vs) / INR (List.length vs)).

Definition energy_gap (energy_ratio area_ratio : R) (parent_v : Vec2)
    (vs : list Vec2) : R :=
  energy_ratio * norm2 parent_v ^ 2
  - area_ratio / INR (List.length vs)
    * np_sum (map (fun v => norm2 v ^ 2) vs).

Definition laws_within (tol : R) (parent : Asteroid.t)
    (fragments : list Asteroid.t) : Prop :=
  let vs := map Asteroid.v fragments in
  Rabs (fst (momentum_gap (Asteroid.v parent) vs)) <= tol
  /\ Rabs (snd (momentum_gap (Asteroid.v parent) vs)) <= tol
  /\ Rabs (energy_gap (Asteroid.energy_ratio parent)
                      (Asteroid.area_ratio parent) (Asteroid.v parent) vs)
     <= tol.

(** The array [[v1x, v1y, v2x, v2y, ...]] read two by two. *)
Fixpoint chunk (x : list R) : list Vec2 :=
  match x with
  | a :: b :: rest => (a, b) :: chunk rest
  | _ => []
  end.

(** A generator that always draws 1 from Exp(1) and 1/2 from U[0, 1). *)
Definition steady_rng : Rng :=
  {| standard_exponential := fun _ => 1; random := fun _ => 1 / 2;
     cursor := 0 |}.

(** A generator that always draws 1 from Exp(1) and 1/4 from U[0, 1):
    every position it gives is a quarter of the way into the window. *)
Definition offside_rng : Rng :=
  {| standard_exponential := fun _ => 1; random := fun _ => 1 / 4;
     cursor := 0 |}.


(** The lives row of a session: three ship glyphs of 30 x 30 from the
    top left corner. *)
Definition lives_row (anchor : string) (count : Z)
    : HorizontalGlyphCounter.t :=
  {| HorizontalGlyphCounter.anchor := anchor;
     HorizontalGlyphCounter.location := (0, 0);
     HorizontalGlyphCounter.count := count;
     HorizontalGlyphCounter.image := (30, 30)%Z |}.

(** ** Vocabulary of the statements *)

(** The rule [_handle_boundary_crossings] applies to one coordinate [c] of
    a sprite of the given [extent] in a window of the given [limit]. *)
Definition wrap_coordinate (limit extent c : R) : R :=
  if Rlt_dec c (- extent / 2) then limit + extent / 2
  else if Rgt_dec c (limit + extent / 2) then - extent / 2
  else c.

(** The space key-down event. *)
Definition fire_request : Event := {| type := KEYDOWN; key := K_SPACE |}.

(** The solved velocities of [Asteroid.explode]. *)
Definition solution (root : (list R -> list R) -> list R -> list R)
    (n : Z) (self : Asteroid.t) : list R :=
  root (Asteroid.system_of_equations (Asteroid.set_alive false self) n)
       (np_zeros (Z.to_nat (2 * n))).

(** The fragment of index [k]. *)
Definition fragment (surface_size : R * R -> Z * Z)
    (root : (list R -> list R) -> list R -> list R)
    (n : Z) (self : Asteroid.t) (k : nat) : Asteroid.t :=
  Asteroid.set_v
    (Asteroid.velocity_at (solution root n self) k)
    (Asteroid.init surface_size
       (sqrt (Asteroid.area_ratio self / IZR n) * Asteroid.diameter self)
       (Asteroid.r self) (0, 0) (Asteroid.color self) (Asteroid.config self)).

(** The parameters of a session and its count of lives. *)
Definition setup (s : Game.t) :=
  (Game.window_size s, Game.foreground_color s, Game.config s,
   Game.initial_lives s, Game.asteroids_count s, Game.fragments_count s,
   Game.respawn_period s, Game.ship_spawn_parameters s, Game.lives s).

(** Every object of [l0] that satisfies [dead] is the same object of [l]. *)
Definition keeps {A : Type} (dead : A -> Prop) (l0 l : list A) : Prop :=
  forall k y, nth_error l0 k = Some y -> dead y -> nth_error l k = Some y.

Definition dead_bullet (b : Bullet.t) : Prop := Bullet.is_alive b = false.
Definition dead_asteroid (a : Asteroid.t) : Prop := Asteroid.is_alive a = false.

(** What the collision passes guarantee between two states. *)
Definition collided (s s' : Game.t) : Prop :=
  setup s' = setup s
  /\ Game.level s' = Game.level s
  /\ keeps dead_bullet (Game.bullets s) (Game.bullets s')
  /\ keeps dead_asteroid (Game.asteroids s) (Game.asteroids s').

(** The invariant of the bullet pass, relative to the state [s0] it
    starts from. *)
Definition bullet_pass (s0 s : Game.t) : Prop :=
  collided s0 s
  /\ Game.ship s = Game.ship s0
  /\ Game.respawn_timer s = Game.respawn_timer s0.

(** ** Vocabulary of the further properties *)

(** A key press and a key release. *)
Definition key_down (k : Key) : Event := {| type := KEYDOWN; key := k |}.
Definition key_up (k : Key) : Event := {| type := KEYUP; key := k |}.

(** [for dt in dts: bullet.tick(dt)] *)
Definition bullet_ticks (dts : list R) (b : Bullet.t) : Bullet.t :=
  fold_left (fun b dt => Bullet.tick dt b) dts b.

(** The state the Runge-Kutta step of [Ship.tick] arrives at, before the
    heading is re-normalised. *)
Definition runge_kutta (dt : R) (self : Ship.t) : Ship.State :=
  let initial_state :=
    (Ship.r_cm self, Ship.v_cm self, Ship.u_nose_cm self, Ship.omega self) in
  let k1 := Ship.rates_of_change self initial_state in
  let k2 := Ship.rates_of_change self
              (Ship.add_state initial_state
                 (Ship.div_state (Ship.scale_state dt k1) 2)) in
  let k3 := Ship.rates_of_change self
              (Ship.add_state initial_state
                 (Ship.div_state (Ship.scale_state dt k2) 2)) in
  let k4 := Ship.rates_of_change self
              (Ship.add_state initial_state (Ship.scale_state dt k3)) in
  Ship.add_state initial_state
    (Ship.scale_state (1 / 6 * dt)
       (Ship.add_state
          (Ship.add_state (Ship.add_state k1 (Ship.scale_state 2 k2))
                          (Ship.scale_state 2 k3)) k4)).

(** A ship heading up and turning at 3 radians per second. *)
Definition spinning_ship : Ship.t :=
  {| Ship.r_cm := (400, 300, 0); Ship.v_cm := (0, 0, 0);
     Ship.u_nose_cm := (0, -1, 0); Ship.omega := (0, 0, 3);
     Ship.color := white; Ship.config := None;
     Ship.length := 30; Ship.width := 30; Ship.edge_width := 2;
     Ship.a := 100; Ship.alpha := 2 * PI; Ship.reload_period := 1;
     Ship.image := (30, 30)%Z;
     Ship.thrusting := 0; Ship.steering := 0;
     Ship.reloading := 0; Ship.alive := true |}.

(** The sum of a list of time steps. *)
Definition total (dts : list R) : R := fold_right Rplus 0 dts.

(** What [_spawn_asteroids] promises of each asteroid it makes for the
    session [s]: alive, with the default parameters, no smaller than the
    default minimum diameter, inside the window, clear of a living ship,
    and with a generated velocity scaled by [(level + 9) / 10]. *)
Definition freshly_spawned (s : Game.t) (a : Asteroid.t) : Prop :=
  Asteroid.is_alive a = true
  /\ Asteroid.config a = None
  /\ Asteroid.color a = Game.foreground_color s
  /\ IZR Asteroid.default_minimum_diameter <= Asteroid.diameter a
  /\ 0 <= fst (Asteroid.position a) < IZR (fst (Game.window_size s))
  /\ 0 <= snd (Asteroid.position a) < IZR (snd (Game.window_size s))
  /\ (Ship.is_alive (Game.ship s) = true ->
      Asteroid.diameter a / 2
      < norm2 (sub2 (Ship.position (Game.ship s)) (Asteroid.position a)))
  /\ exists g0,
       Rng_ok g0
       /\ Asteroid.v a
          = scale2 (IZR (Game.level s + 9) / 10)
                   (fst (Asteroid.generate_velocity None g0)).

(** The bullet at [fst p] touches the asteroid at [snd p]: the test of
    [_handle_asteroid_bullet_collisions]. *)
Definition strike (s : Game.t) (p : nat * nat) : bool :=
  match nth_error (Game.bullets s) (fst p),
        nth_error (Game.asteroids s) (snd p) with
  | Some bullet, Some asteroid =>
      if Rle_dec (norm2 (sub2 (Bullet.position bullet)
                              (Asteroid.position asteroid)))
                 (Asteroid.diameter asteroid / 2)
      then true else false
  | _, _ => false
  end.

(** The pairs the double loop visits, in its order. *)
Definition contacts (s : Game.t) : list (nat * nat) :=
  list_prod (living Bullet.is_alive (Game.bullets s))
            (living Asteroid.is_alive (Game.asteroids s)).

(** Among the pairs [visited], the bullet (the asteroid) at [k] touched
    something. *)
Definition struck_bullet (s : Game.t) (visited : list (nat * nat))
    (k : nat) : bool :=
  existsb (fun p => Nat.eqb (fst p) k && strike s p) visited.
Definition struck_asteroid (s : Game.t) (visited : list (nat * nat))
    (k : nat) : bool :=
  existsb (fun p => Nat.eqb (snd p) k && strike s p) visited.

(** The state [s] of the bullet pass started in [s0], once the pairs
    [visited] are done. *)
Definition swept (s0 : Game.t) (visited : list (nat * nat)) (s : Game.t)
    : Prop :=
  Game.score s
  = (Game.score s0 + Z.of_nat (List.length (filter (strike s0) visited)))%Z
  /\ (forall k,
        nth_error (Game.bullets s) k
        = option_map (fun b => if struck_bullet s0 visited k
                               then Bullet.explode b else b)
                     (nth_error (Game.bullets s0) k))
  /\ (forall k a,
        nth_error (Game.asteroids s0) k = Some a ->
        nth_error (Game.asteroids s) k
        = Some (if struck_asteroid s0 visited k
                then Asteroid.set_alive false a else a)).

(** The ship touches the asteroid at [j]: the test of
    [_handle_asteroid_ship_collisions]. *)
Definition touches (s : Game.t) (j : nat) : bool :=
  match nth_error (Game.asteroids s) j with
  | Some asteroid =>
      if Rle_dec (norm2 (sub2 (Ship.position (Game.ship s))
                              (Asteroid.position asteroid)))
                 (Asteroid.diameter asteroid / 2)
      then true else false
  | None => false
  end.

(** The state [s] of the ship pass started in [s0], once the asteroids at
    [visited] are done. *)
Definition rammed (s0 : Game.t) (visited : list nat) (s : Game.t) : Prop :=
  Game.ship s
  = (if existsb (touches s0) visited
     then Ship.explode (Game.ship s0) else Game.ship s0)
  /\ Game.respawn_timer s
     = (if existsb (touches s0) visited
        then Game.respawn_period s0 else Game.respawn_timer s0)
  /\ Game.respawn_period s = Game.respawn_period s0
  /\ Game.score s = Game.score s0
  /\ Game.bullets s = Game.bullets s0
  /\ (forall k a,
        nth_error (Game.asteroids s0) k = Some a ->
        nth_error (Game.asteroids s) k
        = Some (if existsb (fun j => Nat.eqb j k && touches s0 j) visited
                then Asteroid.set_alive false a else a)).

(** The left edge, the right edge and the top of the row of glyphs that
    starts with the blit at [first]. *)
Definition row_left (first : Vec2) : R := fst first.
Definition row_right (self : HorizontalGlyphCounter.t) (first : Vec2) : R :=
  fst first
  + IZR (HorizontalGlyphCounter.count self)
    * IZR (fst (HorizontalGlyphCounter.image self)).
Definition row_top (first : Vec2) : R := snd first.

(** The session has no living asteroid. *)
Definition cleared (s : Game.t) : Prop :=
  Forall (fun a => Asteroid.is_alive a = false) (Game.asteroids s).


(** ** Proof automation *)

(** Splits an equation between tuples into its components. *)
Ltac componentwise :=
  repeat match goal with
         | |- (_, _) = (_, _) => apply f_equal2
         end.

(** Case analysis on the next comparison of reals in the goal, closing
    the branches the context contradicts. *)
Ltac order_cases :=
  match goal with
  | |- context [Rlt_dec ?a ?b] =>
      destruct (Rlt_dec a b); try (exfalso; cbn in *; lra)
  | |- context [Rgt_dec ?a ?b] =>
      destruct (Rgt_dec a b); try (exfalso; cbn in *; lra)
  | |- context [Rle_dec ?a ?b] =>
      destruct (Rle_dec a b); try (exfalso; cbn in *; lra)
  | |- context [Rge_dec ?a ?b] =>
      destruct (Rge_dec a b); try (exfalso; cbn in *; lra)
  end.


(** * Properties *)

(** ** Square roots *)

Lemma sqrt_below (x y : R) : 0 <= x -> 0 < y -> x < y * y -> sqrt x < y.
Proof.
  intros Hx Hy Hlt.
  rewrite <- (sqrt_square y) by lra.
  apply sqrt_lt_1_alt. lra.
Qed.

Lemma Rabs_bound (x t : R) : Rabs x <= t -> - t <= x <= t.
Proof.
  unfold Rabs. destruct (Rcase_abs x); lra.
Qed.

Lemma sqrt_above (x y : R) : 0 <= y -> y * y <= x -> y <= sqrt x.
Proof.
  intros Hy Hle.
  rewrite <- (sqrt_square y) by lra.
  apply sqrt_le_1_alt. assumption.
Qed.

(** ** Sprites obey the property protocol *)

#[export] Instance SpriteLaws_Ship : SpriteLaws Ship.t.
Proof.
  split; intros x s; try reflexivity.
  destruct x; reflexivity.
Qed.

#[export] Instance SpriteLaws_Bullet : SpriteLaws Bullet.t.
Proof. split; reflexivity. Qed.

#[export] Instance SpriteLaws_Asteroid : SpriteLaws Asteroid.t.
Proof. split; reflexivity. Qed.

(** ** Boundary crossings *)

Section Boundary.

Context {A : Type} `{SpriteLaws A}.

Lemma boundary_dead (self : Game.t) (sprite : A) :
  is_alive sprite = false ->
  Game.handle_boundary_crossings self sprite = sprite.
Proof.
  intros Hdead. unfold Game.handle_boundary_crossings.
  rewrite Hdead. reflexivity.
Qed.

Lemma boundary_position (self : Game.t) (sprite : A) :
  is_alive sprite = true ->
  position (Game.handle_boundary_crossings self sprite) =
  (wrap_coordinate (IZR (fst (Game.window_size self)))
                   (IZR (fst (get_size sprite))) (fst (position sprite)),
   wrap_coordinate (IZR (snd (Game.window_size self)))
                   (IZR (snd (get_size sprite))) (snd (position sprite))).
Proof.
  intros Halive. unfold Game.handle_boundary_crossings, wrap_coordinate.
  rewrite Halive. cbn [negb].
  destruct (get_size sprite) as [width height]. cbn [fst snd].
  destruct (Rlt_dec (fst (position sprite)) (- IZR width / 2));
    [| destruct (Rgt_dec (fst (position sprite))
                         (IZR (fst (Game.window_size self)) + IZR width / 2))];
    rewrite ?position_set_position; cbn [fst snd];
    (destruct (Rlt_dec (snd (position sprite)) (- IZR height / 2));
     [| destruct (Rgt_dec (snd (position sprite))
                          (IZR (snd (Game.window_size self)) + IZR height / 2))]);
    rewrite ?position_set_position; cbn [fst snd];
    try reflexivity; apply surjective_pairing.
Qed.

End Boundary.

(** C7.  A live sprite whose horizontal position is below [-width / 2]
    is, after [_handle_boundary_crossings], exactly at
    [window_width + width / 2]; likewise above the top edge, and, for the
    right and bottom edges (window and sprite sizes being non-negative),
    exactly at [-width / 2] and [-height / 2]. *)
Theorem wraparound_past_edge (A : Type) `{SpriteLaws A} (self : Game.t)
    (sprite : A) :
  is_alive sprite = true ->
  let window_width := IZR (fst (Game.window_size self)) in
  let window_height := IZR (snd (Game.window_size self)) in
  let width := IZR (fst (get_size sprite)) in
  let height := IZR (snd (get_size sprite)) in
  let x := fst (position sprite) in
  let y := snd (position sprite) in
  let sprite' := Game.handle_boundary_crossings self sprite in
  (x < - width / 2 -> fst (position sprite') = window_width + width / 2) /\
  (y < - height / 2 -> snd (position sprite') = window_height + height / 2) /\
  (0 <= window_width + width -> x > window_width + width / 2 ->
   fst (position sprite') = - width / 2) /\
  (0 <= window_height + height -> y > window_height + height / 2 ->
   snd (position sprite') = - height / 2).
Proof.
  intros Halive. cbv zeta.
  rewrite (boundary_position self sprite Halive). cbn [fst snd].
  unfold wrap_coordinate.
  repeat split; intros;
    repeat match goal with
           | |- context [Rlt_dec ?a ?b] => destruct (Rlt_dec a b)
           | |- context [Rgt_dec ?a ?b] => destruct (Rgt_dec a b)
           end; lra.
Qed.

Lemma wraparound_past_edge_witness :
  position
    (Game.handle_boundary_crossings
       (session (ship_at (400, 300) true 0) 2 3 [] [bullet_at (-20, 700)])
       (bullet_at (-20, 700)))
  = (800 + 30 / 2, - (30) / 2).
Proof.
  pose proof (wraparound_past_edge Bullet.t
                (session (ship_at (400, 300) true 0) 2 3 [] [bullet_at (-20, 700)])
                (bullet_at (-20, 700)) eq_refl) as [Hleft [_ [_ Hbottom]]].
  rewrite (surjective_pairing (position _)).
  f_equal.
  - apply Hleft. cbn. lra.
  - apply Hbottom; cbn; lra.
Defined.

(** C8, as the code has it.  [_handle_boundary_crossings] leaves a dead
    sprite alone; a live sprite is moved only once its centre is more than
    half its extent beyond a window edge, and then its centre is put
    exactly half its extent beyond the opposite edge, a displacement
    larger than the window dimension plus the extent; in every other case
    the coordinate is unchanged. *)
Theorem wraparound_rule (A : Type) `{SpriteLaws A} (self : Game.t)
    (sprite : A) :
  let window_width := IZR (fst (Game.window_size self)) in
  let window_height := IZR (snd (Game.window_size self)) in
  let width := IZR (fst (get_size sprite)) in
  let height := IZR (snd (get_size sprite)) in
  let x := fst (position sprite) in
  let y := snd (position sprite) in
  let sprite' := Game.handle_boundary_crossings self sprite in
  let x' := fst (position sprite') in
  let y' := snd (position sprite') in
  (is_alive sprite = false -> sprite' = sprite) /\
  (is_alive sprite = true ->
   (x < - width / 2 ->
    x' = window_width + width / 2 /\ x' - x > window_width + width) /\
   (- width / 2 <= x -> x > window_width + width / 2 ->
    x' = - width / 2 /\ x - x' > window_width + width) /\
   (- width / 2 <= x <= window_width + width / 2 -> x' = x) /\
   (y < - height / 2 ->
    y' = window_height + height / 2 /\ y' - y > window_height + height) /\
   (- height / 2 <= y -> y > window_height + height / 2 ->
    y' = - height / 2 /\ y - y' > window_height + height) /\
   (- height / 2 <= y <= window_height + height / 2 -> y' = y)).
Proof.
  cbv zeta. split.
  - apply boundary_dead.
  - intros Halive.
    rewrite (boundary_position self sprite Halive). cbn [fst snd].
    unfold wrap_coordinate.
    repeat split; intros;
      repeat match goal with
             | |- context [Rlt_dec ?a ?b] => destruct (Rlt_dec a b)
             | |- context [Rgt_dec ?a ?b] => destruct (Rgt_dec a b)
             end; lra.
Qed.

Lemma wraparound_rule_witness :
  fst (position
         (Game.handle_boundary_crossings
            (session (ship_at (400, 300) true 0) 2 3 [] [])
            (bullet_at (-20, 100))))
  = 800 + 30 / 2.
Proof.
  pose proof (wraparound_rule Bullet.t
                (session (ship_at (400, 300) true 0) 2 3 [] [])
                (bullet_at (-20, 100))) as [_ Hlive].
  destruct (Hlive eq_refl) as [Hleft _].
  apply Hleft. cbn. lra.
Defined.

(** C8 as stated fails.  A live bullet of diameter 30 at [x = -20] in an
    800 pixel wide window has its left edge across the boundary and is
    moved to [x = 815], which is neither [x + 800] nor [x - 800]; the same
    bullet at [x = 5] also has its left edge across the boundary and is
    not moved at all. *)
Lemma wraparound_not_one_window_dimension :
  let self := session (ship_at (400, 300) true 0) 2 3 [] [] in
  let out := bullet_at (-20, 100) in
  let astride := bullet_at (5, 100) in
  (is_alive out = true
   /\ fst (position out) - IZR (fst (get_size out)) / 2 < 0
   /\ fst (position (Game.handle_boundary_crossings self out)) = 815
   /\ fst (position (Game.handle_boundary_crossings self out))
      <> fst (position out) + IZR (fst (Game.window_size self))
   /\ fst (position (Game.handle_boundary_crossings self out))
      <> fst (position out) - IZR (fst (Game.window_size self)))
  /\
  (is_alive astride = true
   /\ fst (position astride) - IZR (fst (get_size astride)) / 2 < 0
   /\ Game.handle_boundary_crossings self astride = astride).
Proof.
  cbv zeta.
  assert (Hout :
            fst (position
                   (Game.handle_boundary_crossings
                      (session (ship_at (400, 300) true 0) 2 3 [] [])
                      (bullet_at (-20, 100)))) = 815).
  { rewrite boundary_position by reflexivity. cbn.
    unfold wrap_coordinate. destruct (Rlt_dec (-20) (- (30) / 2)); lra. }
  split.
  - rewrite Hout. cbn. repeat split; lra.
  - split; [reflexivity | split; [cbn; lra |]].
    unfold Game.handle_boundary_crossings. cbn.
    repeat order_cases; reflexivity.
Qed.

(** ** The ship: reload timer and firing *)

Lemma tick_reloading rotate_size dt (self : Ship.t) :
  Ship.reloading (Ship.tick rotate_size dt self) = Ship.reloading self - dt.
Proof.
  unfold Ship.tick.
  repeat match goal with
         | |- context [match ?e with pair _ _ => _ end] => destruct e
         end.
  reflexivity.
Qed.

Lemma tick_alive rotate_size dt (self : Ship.t) :
  Ship.alive (Ship.tick rotate_size dt self) = Ship.alive self.
Proof.
  unfold Ship.tick.
  repeat match goal with
         | |- context [match ?e with pair _ _ => _ end] => destruct e
         end.
  reflexivity.
Qed.

Lemma ship_tick_dead rotate_size dt (self : Ship.t) :
  Ship.is_alive self = false ->
  is_alive (Ship.tick rotate_size dt self) = false.
Proof.
  intros Hdead. change (Ship.alive (Ship.tick rotate_size dt self) = false).
  rewrite tick_alive. exact Hdead.
Qed.

Lemma init_reloading rotate_size position velocity direction angular_velocity
    color config :
  Ship.reloading
    (Ship.init rotate_size position velocity direction angular_velocity
               color config) = 0.
Proof.
  unfold Ship.init. rewrite tick_reloading. cbn. lra.
Qed.

Lemma fire_when_reloaded (self : Ship.t) :
  Ship.reloading self <= 0 ->
  Ship.handle_event fire_request self =
  (Some (fst (Ship.fire_bullet self)),
   Ship.set_reloading (Ship.reload_period self) self).
Proof.
  intros Hready. unfold Ship.handle_event. cbn.
  destruct (Rle_dec (Ship.reloading self) 0); [reflexivity | contradiction].
Qed.

(** C5.  A space key-down is honoured exactly when the reload timer is at
    most 0.  Honoured, it sets the reload timer to the reload period, the
    one [Ship.__init__] read from the configuration, leaves every other
    field of the ship as it was, and returns a bullet at
    [position + (length / 2) * heading] with velocity
    [v_cm + (length / 2) * (omega x heading) + muzzle_speed * heading];
    rejected, it returns nothing and leaves the ship as it was. *)
Theorem fire_request_gated (self : Ship.t) :
  let half_length := IZR (Ship.length self) / 2 in
  let heading := Ship.u_nose_cm self in
  (Ship.reloading self <= 0 ->
   exists bullet self',
     Ship.handle_event fire_request self
     = (Some (Ship.BULLET_FIRED bullet), self')
     /\ Ship.reloading self' = Ship.reload_period self
     /\ self'
        = {| Ship.r_cm := Ship.r_cm self; Ship.v_cm := Ship.v_cm self;
             Ship.u_nose_cm := Ship.u_nose_cm self;
             Ship.omega := Ship.omega self;
             Ship.color := Ship.color self; Ship.config := Ship.config self;
             Ship.length := Ship.length self; Ship.width := Ship.width self;
             Ship.edge_width := Ship.edge_width self;
             Ship.a := Ship.a self; Ship.alpha := Ship.alpha self;
             Ship.reload_period := Ship.reload_period self;
             Ship.image := Ship.image self;
             Ship.thrusting := Ship.thrusting self;
             Ship.steering := Ship.steering self;
             Ship.reloading := Ship.reload_period self;
             Ship.alive := Ship.alive self |}
     /\ Bullet.position bullet =
        add2 (Ship.position self) (scale2 half_length (first2 heading))
     /\ Bullet.v bullet =
        add2 (add2 (first2 (Ship.v_cm self))
                   (scale2 half_length
                           (first2 (cross (Ship.omega self) heading))))
             (scale2 (Bullet.muzzle_speed bullet) (first2 heading))
     /\ Bullet.muzzle_speed bullet =
        cfg (Ship.config self) bullet_muzzle_speed Bullet.default_muzzle_speed
     /\ Bullet.is_alive bullet = true)
  /\ (~ Ship.reloading self <= 0 ->
      Ship.handle_event fire_request self = (None, self))
  /\ (forall rotate_size position velocity direction angular_velocity
             color config,
        Ship.reload_period
          (Ship.init rotate_size position velocity direction
                     angular_velocity color config)
        = cfg config ship_reload_period Ship.default_reload_period).
Proof.
  cbv zeta. split; [| split].
  - intros Hready. unfold Ship.handle_event. cbn.
    destruct (Rle_dec (Ship.reloading self) 0); [| contradiction].
    eexists. eexists. split; [reflexivity |].
    destruct self as [[[r0 r1] r2] [[v0 v1] v2] [[u0 u1] u2] [[w0 w1] w2]
                        ? ? ? ? ? ? ? ? ? ? ? ? ?].
    cbn. repeat split.
  - intros Hbusy. unfold Ship.handle_event. cbn.
    destruct (Rle_dec (Ship.reloading self) 0); [contradiction | reflexivity].
  - intros. unfold Ship.init, Ship.tick.
    repeat match goal with
           | |- context [match ?e with pair _ _ => _ end] => destruct e
           end.
    reflexivity.
Qed.

Lemma fire_request_gated_witness :
  (exists bullet self',
      Ship.handle_event fire_request (ship_at (400, 300) true 0)
      = (Some (Ship.BULLET_FIRED bullet), self')
      /\ Ship.reloading self' = 1
      /\ Bullet.position bullet = (400, 285)
      /\ Bullet.v bullet = (0, -100))
  /\ Ship.handle_event fire_request (ship_at (400, 300) true 1)
     = (None, ship_at (400, 300) true 1).
Proof.
  split.
  - destruct (fire_request_gated (ship_at (400, 300) true 0)) as [Hfire _].
    destruct Hfire
      as [bullet [self' [Hevent [Hreset [_ [Hposition [Hvelocity
                                                        [Hmuzzle _]]]]]]]].
    + cbn. lra.
    + exists bullet, self'. split; [exact Hevent |].
      split; [exact Hreset |].
      rewrite Hposition, Hvelocity, Hmuzzle. cbn.
      unfold Bullet.default_muzzle_speed.
      unfold add2, scale2. cbn [fst snd].
      split; f_equal; lra.
  - destruct (fire_request_gated (ship_at (400, 300) true 1))
      as [_ [Hbusy _]].
    apply Hbusy. cbn. lra.
Defined.

(** ** The asteroid: explosion *)

Section Explosion.

Variable surface_size : R * R -> Z * Z.
Variable root : (list R -> list R) -> list R -> list R.

(** [d < m / ratio] is [d * ratio < m] for a positive ratio. *)
Lemma below_quotient (d m ratio : R) :
  0 < ratio -> (d < m / ratio <-> d * ratio < m).
Proof.
  intros Hratio.
  assert (Hm : m = m / ratio * ratio) by (field; lra).
  split; intros Hlt.
  - rewrite Hm. apply Rmult_lt_compat_r; assumption.
  - apply (Rmult_lt_reg_r ratio); [assumption |]. rewrite <- Hm. assumption.
Qed.

Lemma diameter_ratio_positive (area_ratio : R) (n : Z) :
  (1 <= n)%Z -> 0 < area_ratio -> 0 < sqrt (area_ratio / IZR n).
Proof.
  intros Hn Harea. apply sqrt_lt_R0.
  apply Rdiv_lt_0_compat; [assumption |].
  apply (IZR_lt 0). lia.
Qed.

(** The two comprehensions that build the fragments, as one. *)
Lemma numbered_copies {B : Type} (f : nat -> B -> B) (c : B) (n start : nat) :
  map (fun kf => f (fst kf) (snd kf))
      (combine (seq start n) (map (fun _ => c) (seq start n)))
  = map (fun k => f k c) (seq start n).
Proof.
  revert start. induction n as [| n IH]; intros start; cbn.
  - reflexivity.
  - f_equal. apply IH.
Qed.

Lemma explode_at_or_above (n : Z) (self : Asteroid.t) :
  (2 <= n)%Z ->
  ~ Asteroid.diameter self
    < IZR (Asteroid.minimum_diameter self)
      / sqrt (Asteroid.area_ratio self / IZR n) ->
  Asteroid.explode surface_size root n self =
  (Some (map (fragment surface_size root n self) (seq 0 (Z.to_nat n))),
   Asteroid.set_alive false self).
Proof.
  intros Hn Habove. unfold Asteroid.explode.
  destruct (Z.eqb_spec n 0) as [-> | _]; [lia |].
  cbn [Asteroid.set_alive Asteroid.diameter Asteroid.minimum_diameter
       Asteroid.area_ratio Asteroid.r Asteroid.color Asteroid.config].
  destruct (Rlt_dec _ _) as [Hbelow | _]; [contradiction |].
  destruct (Z.ltb_spec n 2) as [Hlt | _]; [lia |].
  f_equal. f_equal.
  rewrite length_map, length_seq.
  rewrite (numbered_copies
             (fun k => Asteroid.set_v (Asteroid.velocity_at _ k))).
  reflexivity.
Qed.

End Explosion.

(** C3.  Exploding an asteroid whose diameter times
    [sqrt(area_ratio / N)] is below the minimum diameter returns the empty
    list, and the asteroid is dead afterwards. *)
Theorem explode_below_threshold surface_size root (n : Z)
    (self : Asteroid.t) :
  (1 <= n)%Z ->
  0 < Asteroid.area_ratio self ->
  Asteroid.diameter self * sqrt (Asteroid.area_ratio self / IZR n)
  < IZR (Asteroid.minimum_diameter self) ->
  fst (Asteroid.explode surface_size root n self) = Some []
  /\ Asteroid.is_alive (snd (Asteroid.explode surface_size root n self))
     = false.
Proof.
  intros Hn Harea Hsmall. unfold Asteroid.explode.
  destruct (Z.eqb_spec n 0) as [-> | _]; [lia |].
  cbn [Asteroid.set_alive Asteroid.diameter Asteroid.minimum_diameter
       Asteroid.area_ratio].
  destruct (Rlt_dec _ _) as [_ | Habove].
  - split; reflexivity.
  - exfalso. apply Habove.
    apply below_quotient; [apply diameter_ratio_positive |]; assumption.
Qed.

Lemma explode_below_threshold_witness :
  fst (Asteroid.explode unit_surface idle_root 2
         (rock 40 (100, 100) (10, 0) true)) = Some []
  /\ Asteroid.is_alive
       (snd (Asteroid.explode unit_surface idle_root 2
               (rock 40 (100, 100) (10, 0) true))) = false.
Proof.
  apply explode_below_threshold.
  - lia.
  - cbn. lra.
  - cbn.
    assert (Hratio : sqrt (3 / 4 / 2) < 3 / 4)
      by (apply sqrt_below; lra).
    lra.
Defined.

(** C4.  Exploding an asteroid at or above the threshold into [N >= 2]
    fragments returns exactly [N] new asteroids, each of diameter
    [sqrt(area_ratio / N) * diameter], at the parent's position, with the
    parent's colour and configuration, and alive; the parent is dead
    afterwards. *)
Theorem explode_fragments surface_size root (n : Z) (self : Asteroid.t) :
  (2 <= n)%Z ->
  0 < Asteroid.area_ratio self ->
  IZR (Asteroid.minimum_diameter self)
  <= Asteroid.diameter self * sqrt (Asteroid.area_ratio self / IZR n) ->
  exists fragments,
    Asteroid.explode surface_size root n self
    = (Some fragments, Asteroid.set_alive false self)
    /\ Z.of_nat (List.length fragments) = n
    /\ Forall (fun f =>
                 Asteroid.diameter f
                 = sqrt (Asteroid.area_ratio self / IZR n)
                   * Asteroid.diameter self
                 /\ Asteroid.position f = Asteroid.position self
                 /\ Asteroid.color f = Asteroid.color self
                 /\ Asteroid.config f = Asteroid.config self
                 /\ Asteroid.is_alive f = true)
              fragments
    /\ Asteroid.is_alive (Asteroid.set_alive false self) = false.
Proof.
  intros Hn Harea Hbig.
  exists (map (fragment surface_size root n self) (seq 0 (Z.to_nat n))).
  split; [| split; [| split]].
  - apply explode_at_or_above; [assumption |].
    intros Hbelow.
    apply below_quotient in Hbelow;
      [lra | apply diameter_ratio_positive; [lia | assumption]].
  - rewrite length_map, length_seq. lia.
  - apply Forall_forall. intros f Hin.
    apply in_map_iff in Hin. destruct Hin as [k [<- _]].
    repeat split.
  - reflexivity.
Qed.

Lemma explode_fragments_witness :
  exists fragments,
    fst (Asteroid.explode unit_surface idle_root 2
           (rock 60 (100, 100) (10, 0) true)) = Some fragments
    /\ List.length fragments = 2%nat.
Proof.
  destruct (explode_fragments unit_surface idle_root 2
              (rock 60 (100, 100) (10, 0) true))
    as [fragments [Hexplode [Hcount _]]].
  - lia.
  - cbn. lra.
  - cbn.
    assert (Hratio : 1 / 2 <= sqrt (3 / 4 / 2))
      by (apply sqrt_above; lra).
    lra.
  - exists fragments. rewrite Hexplode. split; [reflexivity | lia].
Defined.

(** ** The asteroid: random velocities *)

Lemma quotient_nonneg (a b : R) : 0 <= a -> 0 <= b -> 0 <= a / b.
Proof.
  intros Ha Hb. destruct (Req_dec b 0) as [-> | Hne].
  - unfold Rdiv. rewrite Rinv_0. lra.
  - apply Rmult_le_pos; [assumption |].
    left. apply Rinv_0_lt_compat. lra.
Qed.

Lemma ln_2_positive : 0 < ln 2.
Proof. pose proof ln_lt_2. lra. Qed.

(** Whatever is drawn, both components of a generated velocity are
    non-negative when [0 <= minimum speed <= median speed]: the direction
    is drawn from the first quadrant only. *)
Lemma generate_velocity_nonneg (config : option Config) (g : Rng) :
  Rng_ok g ->
  0 <= cfg config asteroid_minimum_speed Asteroid.default_minimum_speed ->
  cfg config asteroid_minimum_speed Asteroid.default_minimum_speed
  <= cfg config asteroid_median_speed Asteroid.default_median_speed ->
  0 <= fst (fst (Asteroid.generate_velocity config g))
  /\ 0 <= snd (fst (Asteroid.generate_velocity config g)).
Proof.
  intros Hg Hmin Hmed. unfold Asteroid.generate_velocity.
  set (s_min := cfg config asteroid_minimum_speed _) in *.
  set (s_med := cfg config asteroid_median_speed _) in *.
  cbn -[ln].
  set (e := standard_exponential g (cursor g)).
  set (u0 := random g (cursor g + 1)%nat).
  set (u1 := random g (S (cursor g + 1))).
  destruct (Hg (cursor g)) as [He _]. fold e in He.
  destruct (Hg (cursor g + 1)%nat) as [_ [Hu0 _]]. fold u0 in Hu0.
  destruct (Hg (S (cursor g + 1))) as [_ [Hu1 _]]. fold u1 in Hu1.
  assert (Hspeed : 0 <= (s_med - s_min) / ln 2 * e + s_min).
  { apply Rplus_le_le_0_compat; [| assumption].
    apply Rmult_le_pos; [| assumption].
    apply quotient_nonneg; [lra | left; apply ln_2_positive]. }
  assert (Hnorm : 0 <= norm2 (0 + (1 - 0) * u0, 0 + (1 - 0) * u1))
    by apply sqrt_pos.
  split; (apply Rmult_le_pos; [assumption |]);
    apply quotient_nonneg; try assumption; lra.
Qed.

(** C9, at the failing input.  With the default parameters, which is how
    [Game._spawn_asteroids] calls it, no draws of the generator make
    [generate_velocity] return a velocity pointing along [(-1, 0)]. *)
Theorem generate_velocity_never_leftward :
  ~ exists g : Rng,
      Rng_ok g
      /\ exists speed : R,
           0 < speed
           /\ fst (Asteroid.generate_velocity None g) = scale2 speed (-1, 0).
Proof.
  intros [g [Hg [speed [Hspeed Hv]]]].
  destruct (generate_velocity_nonneg None g Hg) as [Hx _].
  - cbn. unfold Asteroid.default_minimum_speed. lra.
  - cbn. unfold Asteroid.default_minimum_speed, Asteroid.default_median_speed.
    lra.
  - rewrite Hv in Hx. cbn in Hx. lra.
Qed.

(** ** A ship as constructed *)

Lemma init_pose rotate_size (position velocity direction : Vec2)
    (angular_velocity : R) color config :
  let ship :=
    Ship.init rotate_size position velocity direction angular_velocity
              color config in
  Ship.r_cm ship = (fst position, snd position, 0)
  /\ Ship.v_cm ship = (fst velocity, snd velocity, 0)
  /\ Ship.omega ship = (0, 0, angular_velocity)
  /\ Ship.alive ship = true.
Proof.
  cbv zeta. unfold Ship.init, Ship.tick. cbn.
  repeat split; repeat f_equal; field.
Qed.

Lemma init_heading rotate_size (position velocity direction : Vec2)
    (angular_velocity : R) color config :
  Ship.u_nose_cm
    (Ship.init rotate_size position velocity direction angular_velocity
               color config)
  = div3 (fst direction, snd direction, 0)
         (norm3 (fst direction, snd direction, 0)).
Proof.
  unfold Ship.init, Ship.tick. cbn.
  set (dx := fst direction). set (dy := snd direction).
  assert (Hx : forall junk : R, dx + 1 / 6 * 0 * junk = dx)
    by (intros; field).
  assert (Hy : forall junk : R, dy + 1 / 6 * 0 * junk = dy)
    by (intros; field).
  assert (Hz : forall junk : R, 0 + 1 / 6 * 0 * junk = 0)
    by (intros; field).
  rewrite !Hx, !Hy, !Hz. reflexivity.
Qed.

(** The heading of the spawn pose, [(0, -1)], is a unit vector. *)
Lemma init_heading_up rotate_size (position velocity : Vec2)
    (angular_velocity : R) color config :
  Ship.u_nose_cm
    (Ship.init rotate_size position velocity (0, -1) angular_velocity
               color config)
  = (0, -1, 0).
Proof.
  rewrite init_heading. cbn.
  replace (0 * 0 + -1 * -1 + 0 * 0) with 1 by ring.
  rewrite sqrt_1. repeat f_equal; field.
Qed.

(** ** Loops *)

Lemma for_each_invariant {I S : Type} (P : S -> Prop)
    (body : I -> S -> Outcome S) (items : list I) :
  (forall i s s', P s -> body i s = Returned s' -> P s') ->
  forall s s', P s -> for_each body items s = Returned s' -> P s'.
Proof.
  intros Hbody. induction items as [| item rest IH]; intros s s' Hs Hrun.
  - cbn in Hrun. injection Hrun as <-. assumption.
  - cbn in Hrun. destruct (body item s) as [s1 | |] eqn:Hstep;
      cbn in Hrun; try discriminate.
    apply (IH s1); [eapply Hbody; eassumption | assumption].
Qed.

Lemma for_each_returns {I S : Type} (P : S -> Prop)
    (body : I -> S -> Outcome S) (items : list I) :
  (forall i s, P s -> exists s', body i s = Returned s' /\ P s') ->
  forall s, P s -> exists s', for_each body items s = Returned s' /\ P s'.
Proof.
  intros Hbody. induction items as [| item rest IH]; intros s Hs.
  - exists s. split; [reflexivity | assumption].
  - destruct (Hbody item s Hs) as [s1 [Hstep Hs1]].
    cbn. rewrite Hstep. cbn. apply IH. assumption.
Qed.


(** ** Lists of references *)

Lemma store_length {A : Type} (i : nat) (x : A) (l : list A) :
  List.length (store i x l) = List.length l.
Proof.
  revert i. induction l as [| y l IH]; intros [| i]; cbn; auto.
Qed.

Lemma store_same {A : Type} (i : nat) (x : A) (l : list A) :
  nth_error l i = Some x -> store i x l = l.
Proof.
  revert i. induction l as [| y l IH]; intros [| i] Hget; cbn in *;
    try discriminate.
  - injection Hget as ->. reflexivity.
  - f_equal. apply IH. assumption.
Qed.

Lemma store_other {A : Type} (i k : nat) (x : A) (l : list A) :
  i <> k -> nth_error (store i x l) k = nth_error l k.
Proof.
  revert i k. induction l as [| y l IH]; intros [| i] [| k] Hne; cbn;
    try reflexivity; try congruence.
  apply IH. congruence.
Qed.

Lemma store_here {A : Type} (i : nat) (x y : A) (l : list A) :
  nth_error l i = Some y -> nth_error (store i x l) i = Some x.
Proof.
  revert i. induction l as [| z l IH]; intros [| i] Hget; cbn in *;
    try discriminate; auto.
Qed.

(** An object that is stored over itself, or anywhere else, stays where
    it is. *)
Lemma store_keeps {A : Type} (i k : nat) (x old y : A) (l : list A) :
  nth_error l i = Some old ->
  nth_error l k = Some y ->
  (i = k -> x = y) ->
  nth_error (store i x l) k = Some y.
Proof.
  intros Hold Hy Hsame. destruct (Nat.eq_dec i k) as [-> | Hne].
  - rewrite (store_here _ _ _ _ Hold). f_equal. auto.
  - rewrite store_other; assumption.
Qed.

Lemma nth_error_app_left {A : Type} (l more : list A) (k : nat) (y : A) :
  nth_error l k = Some y -> nth_error (l ++ more) k = Some y.
Proof.
  intros Hy. rewrite nth_error_app1; [assumption |].
  apply nth_error_Some. congruence.
Qed.

(** ** Exploding twice *)

Lemma bullet_explode_dead (b : Bullet.t) :
  Bullet.is_alive b = false -> Bullet.explode b = b.
Proof.
  destruct b. cbn. intros ->. reflexivity.
Qed.

Lemma asteroid_set_alive_dead (a : Asteroid.t) :
  Asteroid.is_alive a = false -> Asteroid.set_alive false a = a.
Proof.
  destruct a. cbn. intros ->. reflexivity.
Qed.

Lemma explode_parent surface_size root (n : Z) (self : Asteroid.t) :
  snd (Asteroid.explode surface_size root n self)
  = Asteroid.set_alive false self.
Proof.
  unfold Asteroid.explode.
  destruct (n =? 0)%Z; [reflexivity |].
  destruct (Rlt_dec _ _); [reflexivity |].
  destruct (n <? 2)%Z; reflexivity.
Qed.

Lemma explode_returns surface_size root (n : Z) (self : Asteroid.t) :
  (2 <= n)%Z ->
  exists fragments,
    Asteroid.explode surface_size root n self
    = (Some fragments, Asteroid.set_alive false self).
Proof.
  intros Hn. unfold Asteroid.explode.
  destruct (Z.eqb_spec n 0) as [-> | _]; [lia |].
  destruct (Rlt_dec _ _); [eexists; reflexivity |].
  destruct (Z.ltb_spec n 2) as [Hlt | _]; [lia |].
  eexists; reflexivity.
Qed.

(** ** What a tick leaves alone *)

Lemma keeps_refl {A : Type} (dead : A -> Prop) (l : list A) : keeps dead l l.
Proof. intros k y Hy _. assumption. Qed.

Lemma keeps_trans {A : Type} (dead : A -> Prop) (l0 l1 l2 : list A) :
  keeps dead l0 l1 -> keeps dead l1 l2 -> keeps dead l0 l2.
Proof. intros H01 H12 k y Hy Hdead. apply H12; auto. Qed.

Lemma keeps_store {A : Type} (dead : A -> Prop) (f : A -> A) (i : nat)
    (old : A) (l more : list A) :
  (forall y, dead y -> f y = y) ->
  nth_error l i = Some old ->
  keeps dead l (store i (f old) l ++ more).
Proof.
  intros Hf Hold k y Hy Hdead.
  apply nth_error_app_left.
  apply (store_keeps i k (f old) old y l Hold Hy).
  intros ->. rewrite Hold in Hy. injection Hy as ->. auto.
Qed.

Lemma collided_refl (s : Game.t) : collided s s.
Proof. repeat split; apply keeps_refl. Qed.

Lemma collided_trans (s0 s1 s2 : Game.t) :
  collided s0 s1 -> collided s1 s2 -> collided s0 s2.
Proof.
  intros [Ha [Hb [Hc Hd]]] [Ha' [Hb' [Hc' Hd']]].
  repeat split; try congruence; eapply keeps_trans; eassumption.
Qed.

Section Session.

Variable rotate_size : Z * Z -> Vec3 -> Z * Z.
Variable surface_size : R * R -> Z * Z.
Variable root : (list R -> list R) -> list R -> list R.

Lemma explode_asteroid_spec (j : nat) (a : Asteroid.t) (s s' : Game.t) :
  Game.explode_asteroid surface_size root j a s = Returned s' ->
  exists fragments,
    s' = Game.set_asteroids
           (store j (Asteroid.set_alive false a) (Game.asteroids s)
              ++ fragments) s.
Proof.
  unfold Game.explode_asteroid.
  pose proof (explode_parent surface_size root (Game.fragments_count s) a)
    as Hparent.
  destruct (Asteroid.explode _ _ _ a) as [[fragments |] a']; cbn in Hparent;
    intros Hrun; [| discriminate].
  injection Hrun as <-. subst a'. exists fragments. reflexivity.
Qed.

Lemma explode_asteroid_returns (j : nat) (a : Asteroid.t) (s : Game.t) :
  (2 <= Game.fragments_count s)%Z ->
  exists s', Game.explode_asteroid surface_size root j a s = Returned s'.
Proof.
  intros Hn. unfold Game.explode_asteroid.
  destruct (explode_returns surface_size root _ a Hn) as [fragments ->].
  eexists. reflexivity.
Qed.

Lemma explode_asteroid_collided (j : nat) (a : Asteroid.t) (s s' : Game.t) :
  nth_error (Game.asteroids s) j = Some a ->
  Game.explode_asteroid surface_size root j a s = Returned s' ->
  collided s s'
  /\ Game.ship s' = Game.ship s
  /\ Game.respawn_timer s' = Game.respawn_timer s
  /\ Game.bullets s' = Game.bullets s
  /\ Game.score s' = Game.score s.
Proof.
  intros Hj Hrun. apply explode_asteroid_spec in Hrun.
  destruct Hrun as [fragments ->].
  repeat split; try apply keeps_refl. cbn.
  apply (keeps_store dead_asteroid (Asteroid.set_alive false));
    [apply asteroid_set_alive_dead | assumption].
Qed.

(** *** Bullets against asteroids *)

Lemma asteroid_bullet_collision_collided (i j : nat) (s s' : Game.t) :
  Game.asteroid_bullet_collision surface_size root i j s = Returned s' ->
  collided s s'
  /\ Game.ship s' = Game.ship s
  /\ Game.respawn_timer s' = Game.respawn_timer s.
Proof.
  unfold Game.asteroid_bullet_collision.
  destruct (nth_error (Game.bullets s) i) as [bullet |] eqn:Hi;
    [| intros [= <-]; repeat split; apply keeps_refl].
  destruct (nth_error (Game.asteroids s) j) as [asteroid |] eqn:Hj;
    [| intros [= <-]; repeat split; apply keeps_refl].
  destruct (Rle_dec _ _);
    [| intros [= <-]; repeat split; apply keeps_refl].
  destruct (Game.explode_asteroid _ _ j asteroid s) as [s1 | |] eqn:Hexplode;
    cbn; try discriminate.
  intros [= <-].
  destruct (explode_asteroid_collided j asteroid s s1 Hj Hexplode)
    as [[Hsetup [Hlevel [Hbullets Hasteroids]]] [Hship [Htimer [Hsame _]]]].
  repeat split; cbn; try assumption.
  rewrite Hsame.
  rewrite <- (app_nil_r (store _ _ _)).
  apply (keeps_store dead_bullet Bullet.explode);
    [apply bullet_explode_dead | assumption].
Qed.

Lemma asteroid_bullet_collision_returns (i j : nat) (s : Game.t) :
  (2 <= Game.fragments_count s)%Z ->
  exists s', Game.asteroid_bullet_collision surface_size root i j s
             = Returned s'.
Proof.
  intros Hn. unfold Game.asteroid_bullet_collision.
  destruct (nth_error (Game.bullets s) i) as [bullet |];
    [| eexists; reflexivity].
  destruct (nth_error (Game.asteroids s) j) as [asteroid |];
    [| eexists; reflexivity].
  destruct (Rle_dec _ _); [| eexists; reflexivity].
  destruct (explode_asteroid_returns j asteroid s Hn) as [s1 ->].
  cbn. eexists. reflexivity.
Qed.

Lemma bullet_pass_step (s0 s s' : Game.t) :
  bullet_pass s0 s ->
  collided s s' /\ Game.ship s' = Game.ship s
  /\ Game.respawn_timer s' = Game.respawn_timer s ->
  bullet_pass s0 s'.
Proof.
  intros [Hc [Hs Ht]] [Hc' [Hs' Ht']].
  repeat split; try congruence.
  all: try (eapply collided_trans; eassumption).
Qed.

Lemma handle_asteroid_bullet_collisions_spec (s s' : Game.t) :
  Game.handle_asteroid_bullet_collisions surface_size root s = Returned s' ->
  bullet_pass s s'.
Proof.
  unfold Game.handle_asteroid_bullet_collisions.
  apply (for_each_invariant (bullet_pass s)).
  - intros i s1 s2 Hs1.
    apply (for_each_invariant (bullet_pass s)); [| assumption].
    intros j s3 s4 Hs3 Hstep.
    apply (bullet_pass_step s s3 s4 Hs3).
    apply (asteroid_bullet_collision_collided i j). assumption.
  - repeat split; apply keeps_refl.
Qed.

Lemma handle_asteroid_bullet_collisions_returns (s : Game.t) :
  (2 <= Game.fragments_count s)%Z ->
  exists s',
    Game.handle_asteroid_bullet_collisions surface_size root s = Returned s'.
Proof.
  intros Hn. unfold Game.handle_asteroid_bullet_collisions.
  set (P := fun s1 : Game.t => Game.fragments_count s1 = Game.fragments_count s).
  assert (Hinner : forall i items s1, P s1 ->
            exists s2,
              for_each (fun j => Game.asteroid_bullet_collision
                                   surface_size root i j) items s1
              = Returned s2 /\ P s2).
  { intros i items. apply (for_each_returns P).
    intros j s1 Hs1.
    destruct (asteroid_bullet_collision_returns i j s1) as [s2 Hs2].
    - rewrite Hs1. assumption.
    - exists s2. split; [assumption |].
      apply asteroid_bullet_collision_collided in Hs2.
      destruct Hs2 as [[Hsetup _] _]. unfold P in *.
      unfold setup in Hsetup. congruence. }
  destruct (for_each_returns P
              (fun i => for_each (fun j => Game.asteroid_bullet_collision
                                             surface_size root i j)
                                 (living Asteroid.is_alive (Game.asteroids s)))
              (living Bullet.is_alive (Game.bullets s))
              (fun i s1 Hs1 => Hinner i _ s1 Hs1) s eq_refl)
    as [s' [Hrun _]].
  exists s'. assumption.
Qed.

(** *** The ship against asteroids *)

Lemma asteroid_ship_collision_collided (j : nat) (s s' : Game.t) :
  Game.asteroid_ship_collision surface_size root j s = Returned s' ->
  collided s s'.
Proof.
  unfold Game.asteroid_ship_collision.
  destruct (nth_error (Game.asteroids s) j) as [asteroid |] eqn:Hj;
    [| intros [= <-]; apply collided_refl].
  destruct (Rle_dec _ _); [| intros [= <-]; apply collided_refl].
  destruct (Game.explode_asteroid _ _ j asteroid _) as [s1 | |] eqn:Hexplode;
    cbn; try discriminate.
  intros [= <-].
  apply explode_asteroid_collided in Hexplode; [| assumption].
  destruct Hexplode as [[Hsetup [Hlevel [Hbullets Hasteroids]]] _].
  repeat split; assumption.
Qed.

Lemma handle_asteroid_ship_collisions_spec (s s' : Game.t) :
  Game.handle_asteroid_ship_collisions surface_size root s = Returned s' ->
  collided s s' /\ (Ship.is_alive (Game.ship s) = false -> s' = s).
Proof.
  unfold Game.handle_asteroid_ship_collisions.
  destruct (Ship.is_alive (Game.ship s)); cbn.
  - intros Hrun. split; [| discriminate].
    revert Hrun. apply (for_each_invariant (collided s)).
    + intros j s1 s2 Hs1 Hstep. apply (collided_trans s s1 s2 Hs1).
      apply (asteroid_ship_collision_collided j). assumption.
    + apply collided_refl.
  - intros [= <-]. split; [apply collided_refl | reflexivity].
Qed.

(** *** The sprite updates *)

Lemma handle_boundary_crossings_window {A : Type} `{Sprite A}
    (s1 s2 : Game.t) (sprite : A) :
  Game.window_size s1 = Game.window_size s2 ->
  Game.handle_boundary_crossings s1 sprite
  = Game.handle_boundary_crossings s2 sprite.
Proof.
  intros Hwindow. unfold Game.handle_boundary_crossings.
  rewrite Hwindow. reflexivity.
Qed.

Lemma bullet_tick_dead (dt : R) (b : Bullet.t) :
  Bullet.is_alive b = false -> Bullet.is_alive (Bullet.tick dt b) = false.
Proof.
  intros Hdead. unfold Bullet.tick.
  destruct (Rge_dec _ _); [reflexivity | exact Hdead].
Qed.

(** A dead bullet still moves and ages when ticked. *)
Lemma bullet_tick_moves (dt : R) (b : Bullet.t) :
  Bullet.position (Bullet.tick dt b)
  = add2 (Bullet.position b) (scale2 dt (Bullet.v b))
  /\ Bullet.age (Bullet.tick dt b) = Bullet.age b + dt.
Proof.
  unfold Bullet.tick. destruct (Rge_dec _ _); split; reflexivity.
Qed.

Lemma update_sprites_spec (dt : R) (s : Game.t) :
  let s' := Game.update_sprites rotate_size dt s in
  setup s' = setup s
  /\ Game.level s' = Game.level s
  /\ Game.respawn_timer s' = Game.respawn_timer s
  /\ Game.score s' = Game.score s
  /\ Game.ship s'
     = Game.handle_boundary_crossings s (Ship.tick rotate_size dt (Game.ship s))
  /\ Game.bullets s'
     = map (fun b => Game.handle_boundary_crossings s (Bullet.tick dt b))
           (Game.bullets s)
  /\ Game.asteroids s'
     = map (fun a => Game.handle_boundary_crossings s (Asteroid.tick dt a))
           (Game.asteroids s).
Proof.
  cbv zeta. unfold Game.update_sprites. cbn.
  repeat split.
Qed.

(** *** The next level *)

Lemma spawn_somewhere_ship_dead (fuel : nat) (s : Game.t) (diameter : R)
    (g : Rng) :
  Ship.is_alive (Game.ship s) = false ->
  exists position g',
    Game.spawn_somewhere (S fuel) s diameter g = Returned (position, g').
Proof.
  intros Hdead. cbn. rewrite Hdead. cbn. eexists. eexists. reflexivity.
Qed.

Lemma spawn_asteroids_ship_dead (fuel : nat) (s : Game.t) (g : Rng) :
  Ship.is_alive (Game.ship s) = false ->
  exists new_asteroids g',
    Game.spawn_asteroids surface_size (S fuel) s g
    = Returned (new_asteroids, g').
Proof.
  intros Hdead. unfold Game.spawn_asteroids.
  destruct (for_each_returns (fun _ => True)
              (fun _ : nat => Game.spawn_asteroid surface_size (S fuel) s)
              (seq 0 (Z.to_nat (Game.asteroids_count s)))) with (s := ([] : list Asteroid.t, g))
    as [[new_asteroids g'] [Hrun _]].
  - intros _ [acc g1] _. unfold Game.spawn_asteroid.
    destruct (Asteroid.generate_diameter None g1) as [diameter g2].
    destruct (spawn_somewhere_ship_dead fuel s diameter g2 Hdead)
      as [position [g3 ->]].
    cbn -[Asteroid.generate_velocity].
    destruct (Asteroid.generate_velocity None g3) as [velocity g4].
    eexists. split; [reflexivity | exact I].
  - exact I.
  - exists new_asteroids, g'. assumption.
Qed.

Lemma level_up_spec (fuel : nat) (s s' : Game.t) (g g' : Rng) :
  Game.level_up surface_size fuel s g = Returned (s', g') ->
  setup s' = setup s
  /\ Game.ship s' = Game.ship s
  /\ Game.respawn_timer s' = Game.respawn_timer s
  /\ Game.bullets s' = Game.bullets s
  /\ Game.score s' = Game.score s
  /\ ((Game.asteroids s' = Game.asteroids s /\ Game.level s' = Game.level s)
      \/ (existsb Asteroid.is_alive (Game.asteroids s) = false
          /\ Game.level s' = (Game.level s + 1)%Z)).
Proof.
  unfold Game.level_up.
  destruct (existsb Asteroid.is_alive (Game.asteroids s)) eqn:Hany; cbn.
  - intros [= <- <-]. repeat split. left. split; reflexivity.
  - destruct (Ship.is_alive (Game.ship s) || (Game.lives s >? 0)%Z).
    + destruct (Game.spawn_asteroids _ _ _ _) as [[new_asteroids g1] | |];
        cbn; try discriminate.
      intros [= <- <-]. repeat split. right. split; reflexivity.
    + intros [= <- <-]. repeat split. left. split; reflexivity.
Qed.

Lemma level_up_ship_dead (fuel : nat) (s : Game.t) (g : Rng) :
  Ship.is_alive (Game.ship s) = false ->
  exists s' g', Game.level_up surface_size (S fuel) s g = Returned (s', g').
Proof.
  intros Hdead. unfold Game.level_up.
  destruct (existsb Asteroid.is_alive (Game.asteroids s)); cbn;
    [eexists; eexists; reflexivity |].
  rewrite Hdead. cbn.
  destruct (Game.lives s >? 0)%Z; [| eexists; eexists; reflexivity].
  destruct (spawn_asteroids_ship_dead fuel
              (Game.set_level (Game.level s + 1) s) g Hdead)
    as [new_asteroids [g' ->]].
  cbn. eexists. eexists. reflexivity.
Qed.

(** *** The tick up to the respawn timer *)

Lemma tick_sprites_spec (fuel : nat) (dt : R) (s mid : Game.t) (g g' : Rng) :
  Game.tick_sprites rotate_size surface_size root fuel dt s g
  = Returned (mid, g') ->
  setup mid = setup s
  /\ (forall i b,
        nth_error (Game.bullets s) i = Some b -> dead_bullet b ->
        nth_error (Game.bullets mid) i = Some (Bullet.tick dt b))
  /\ (forall j a,
        nth_error (Game.asteroids s) j = Some a -> dead_asteroid a ->
        nth_error (Game.asteroids mid) j = Some (Asteroid.tick dt a)
        \/ Game.level mid = (Game.level s + 1)%Z)
  /\ (Ship.is_alive (Game.ship s) = false ->
      Game.ship mid = Ship.tick rotate_size dt (Game.ship s)
      /\ Game.respawn_timer mid = Game.respawn_timer s).
Proof.
  unfold Game.tick_sprites.
  destruct (Game.handle_asteroid_bullet_collisions _ _ s) as [s1 | |] eqn:H1;
    cbn; try discriminate.
  destruct (Game.handle_asteroid_ship_collisions _ _ s1) as [s2 | |] eqn:H2;
    cbn; try discriminate.
  intros H4.
  apply handle_asteroid_bullet_collisions_spec in H1.
  destruct H1 as [[Hsetup1 [Hlevel1 [Hbullets1 Hasteroids1]]] [Hship1 Htimer1]].
  apply handle_asteroid_ship_collisions_spec in H2.
  destruct H2 as [[Hsetup2 [Hlevel2 [Hbullets2 Hasteroids2]]] Hskip].
  destruct (update_sprites_spec dt s2)
    as [Hsetup3 [Hlevel3 [Htimer3 [_ [Hship3 [Hbullets3 Hasteroids3]]]]]].
  apply level_up_spec in H4.
  destruct H4 as [Hsetup4 [Hship4 [Htimer4 [Hbullets4 [_ Hlevel4]]]]].
  split; [congruence |].
  split; [| split].
  - intros i b Hb Hdead.
    rewrite Hbullets4, Hbullets3.
    rewrite nth_error_map.
    rewrite (Hbullets2 i b (Hbullets1 i b Hb Hdead) Hdead). cbn.
    rewrite boundary_dead; [reflexivity |].
    apply bullet_tick_dead. exact Hdead.
  - intros j a Ha Hdead.
    destruct Hlevel4 as [[Hsame _] | [_ Hnext]].
    + left. rewrite Hsame, Hasteroids3.
      rewrite nth_error_map.
      rewrite (Hasteroids2 j a (Hasteroids1 j a Ha Hdead) Hdead). cbn.
      rewrite boundary_dead; [reflexivity | exact Hdead].
    + right. congruence.
  - intros Hdead.
    assert (Hdead1 : Ship.is_alive (Game.ship s1) = false) by congruence.
    rewrite (Hskip Hdead1) in *.
    split; [| congruence].
    rewrite Hship4, Hship3, Hship1.
    apply boundary_dead. apply ship_tick_dead. exact Hdead.
Qed.

Lemma tick_sprites_ship_dead (fuel : nat) (dt : R) (s : Game.t) (g : Rng) :
  Ship.is_alive (Game.ship s) = false ->
  (2 <= Game.fragments_count s)%Z ->
  exists mid g',
    Game.tick_sprites rotate_size surface_size root (S fuel) dt s g
    = Returned (mid, g').
Proof.
  intros Hdead Hn. unfold Game.tick_sprites.
  destruct (handle_asteroid_bullet_collisions_returns s Hn) as [s1 H1].
  rewrite H1. cbn.
  apply handle_asteroid_bullet_collisions_spec in H1.
  destruct H1 as [_ [Hship1 _]].
  unfold Game.handle_asteroid_ship_collisions.
  rewrite Hship1, Hdead. cbn.
  apply level_up_ship_dead.
  destruct (update_sprites_spec dt s1) as [_ [_ [_ [_ [Hship3 _]]]]].
  assert (Hdead1 : Ship.is_alive (Game.ship s1) = false) by congruence.
  rewrite Hship3, boundary_dead; apply ship_tick_dead; exact Hdead1.
Qed.

(** *** The respawn timer *)

Lemma respawn_or_end_spec (dt : R) (s : Game.t) :
  let countdown := Game.respawn_timer s - dt in
  let waiting := Game.set_respawn_timer countdown s in
  let due := Ship.is_alive (Game.ship s) = false /\ countdown <= 1 in
  (due -> (Game.lives s <= 0)%Z ->
   Game.respawn_or_end rotate_size dt s = (Game.OVER, waiting))
  /\ (due -> (0 < Game.lives s)%Z ->
      Game.respawn_or_end rotate_size dt s
      = (Game.PLAYING,
         Game.set_ship
           (Game.new_ship rotate_size (Game.ship_spawn_parameters s)
                          (Game.foreground_color s) (Game.config s))
           (Game.set_lives (Game.lives s - 1) waiting)))
  /\ (~ due -> Game.respawn_or_end rotate_size dt s = (Game.PLAYING, waiting)).
Proof.
  clear surface_size root.
  cbv zeta. unfold Game.respawn_or_end. cbn.
  destruct (Ship.is_alive (Game.ship s)); cbn;
    destruct (Rle_dec (Game.respawn_timer s - dt) 1); cbn;
    destruct (Z.leb_spec (Game.lives s) 0);
    repeat split; intros; try reflexivity; try lia;
    try (exfalso; intuition (discriminate || lra || auto)).
Qed.

(** *** A tick does not raise *)

Lemma asteroid_ship_collision_returns (j : nat) (s : Game.t) :
  (2 <= Game.fragments_count s)%Z ->
  exists s', Game.asteroid_ship_collision surface_size root j s = Returned s'.
Proof.
  intros Hn. unfold Game.asteroid_ship_collision.
  destruct (nth_error (Game.asteroids s) j) as [asteroid |];
    [| eexists; reflexivity].
  destruct (Rle_dec _ _); [| eexists; reflexivity].
  destruct (explode_asteroid_returns j asteroid
              (Game.set_ship (Ship.explode (Game.ship s)) s) Hn) as [s1 ->].
  cbn. eexists. reflexivity.
Qed.

Lemma handle_asteroid_ship_collisions_returns (s : Game.t) :
  (2 <= Game.fragments_count s)%Z ->
  exists s',
    Game.handle_asteroid_ship_collisions surface_size root s = Returned s'.
Proof.
  intros Hn. unfold Game.handle_asteroid_ship_collisions.
  destruct (negb (Ship.is_alive (Game.ship s))); [eexists; reflexivity |].
  set (P := fun s1 : Game.t => Game.fragments_count s1 = Game.fragments_count s).
  destruct (for_each_returns P
              (Game.asteroid_ship_collision surface_size root)
              (living Asteroid.is_alive (Game.asteroids s))) with (s := s)
    as [s' [Hrun _]].
  - intros j s1 Hs1.
    destruct (asteroid_ship_collision_returns j s1) as [s2 Hs2].
    + rewrite Hs1. assumption.
    + exists s2. split; [assumption |].
      apply asteroid_ship_collision_collided in Hs2.
      destruct Hs2 as [Hsetup _]. unfold P in *.
      unfold setup in Hsetup. congruence.
  - reflexivity.
  - exists s'. assumption.
Qed.




End Session.

(** ** The outcome of a tick *)

Lemma setup_lives (s s' : Game.t) :
  setup s' = setup s ->
  Game.lives s' = Game.lives s
  /\ Game.ship_spawn_parameters s' = Game.ship_spawn_parameters s
  /\ Game.foreground_color s' = Game.foreground_color s
  /\ Game.config s' = Game.config s.
Proof. unfold setup. intros [= ]. repeat split; assumption. Qed.

Lemma new_ship_pose rotate_size (spawn : Game.SpawnParameters) color config :
  let ship := Game.new_ship rotate_size spawn color config in
  Ship.position ship = Game.spawn_position spawn
  /\ Ship.v_cm ship
     = (fst (Game.spawn_velocity spawn), snd (Game.spawn_velocity spawn), 0)
  /\ Ship.is_alive ship = true.
Proof.
  cbv zeta. unfold Game.new_ship.
  destruct (init_pose rotate_size (Game.spawn_position spawn)
              (Game.spawn_velocity spawn) (Game.spawn_direction spawn)
              (Game.spawn_angular_velocity spawn) color config)
    as [Hr [Hv [_ Halive]]].
  repeat split; try assumption.
  unfold Ship.position. rewrite Hr. cbn. symmetry. apply surjective_pairing.
Qed.



(** ** Dead sprites in a tick *)

Lemma respawn_or_end_frame rotate_size (dt : R) (s : Game.t) :
  let s' := snd (Game.respawn_or_end rotate_size dt s) in
  Game.bullets s' = Game.bullets s
  /\ Game.asteroids s' = Game.asteroids s
  /\ Game.level s' = Game.level s
  /\ (Game.ship s' = Game.ship s
      \/ Game.ship s'
         = Game.new_ship rotate_size (Game.ship_spawn_parameters s)
             (Game.foreground_color s) (Game.config s)).
Proof.
  cbv zeta. unfold Game.respawn_or_end. cbn.
  destruct (negb (Ship.is_alive (Game.ship s)) && _); cbn;
    [destruct (Game.lives s <=? 0)%Z; cbn |]; repeat split; auto.
Qed.

(** C10.  Every ship that [Game] constructs, at session start and at a
    respawn, leaves [Ship.__init__] with its reload timer at 0, and a
    fire request made of it is honoured: the ship of a session as
    [Game.__init__] returns it is such a ship, and so is the ship the end
    of a tick puts in place of the one it had. *)
Theorem new_ship_fires_at_once rotate_size (spawn : Game.SpawnParameters)
    (color : Color) (config : option Config) :
  let ship := Game.new_ship rotate_size spawn color config in
  (Ship.reloading ship = 0
   /\ exists bullet,
        Ship.handle_event fire_request ship =
        (Some (Ship.BULLET_FIRED bullet),
         Ship.set_reloading (Ship.reload_period ship) ship))
  /\ (forall surface_size fuel window_size g,
        match Game.init rotate_size surface_size fuel window_size color
                        config g with
        | Returned (session, _) =>
            exists spawn',
              Game.ship session
              = Game.new_ship rotate_size spawn' color config
              /\ Ship.reloading (Game.ship session) = 0
        | _ => True
        end)
  /\ (forall dt session,
        let session' := snd (Game.respawn_or_end rotate_size dt session) in
        Game.ship session' = Game.ship session
        \/ (Game.ship session'
            = Game.new_ship rotate_size (Game.ship_spawn_parameters session)
                (Game.foreground_color session) (Game.config session)
            /\ Ship.reloading (Game.ship session') = 0)).
Proof.
  cbv zeta.
  assert (Hfresh : forall spawn' color' config',
            Ship.reloading (Game.new_ship rotate_size spawn' color' config')
            = 0)
    by (intros; apply init_reloading).
  split; [split | split].
  - apply Hfresh.
  - eexists. apply fire_when_reloaded. rewrite Hfresh. lra.
  - intros surface_size fuel window_size g. unfold Game.init.
    destruct (Game.spawn_asteroids _ _ _ _) as [[new_asteroids g1] | |];
      cbn [bind]; try exact I.
    cbn [Game.ship Game.set_asteroids fst snd].
    eexists. split; [reflexivity | apply Hfresh].
  - intros dt session.
    destruct (respawn_or_end_frame rotate_size dt session)
      as [_ [_ [_ [Hkept | Hnew]]]].
    + left. exact Hkept.
    + right. split; [exact Hnew |]. rewrite Hnew. apply Hfresh.
Qed.

Lemma tick_unfold rotate_size surface_size root (fuel : nat) (dt : R)
    (s self' : Game.t) (g g' : Rng) (status : Game.Status) :
  Game.tick rotate_size surface_size root fuel dt s g
  = Returned (status, self', g') ->
  exists mid,
    Game.tick_sprites rotate_size surface_size root fuel dt s g
    = Returned (mid, g')
    /\ self' = snd (Game.respawn_or_end rotate_size dt mid).
Proof.
  unfold Game.tick.
  destruct (Game.tick_sprites _ _ _ fuel dt s g) as [[mid g1] | |];
    cbn; try discriminate.
  destruct (Game.respawn_or_end rotate_size dt mid) as [status1 s1] eqn:Hend.
  intros [= <- <- <-]. exists mid. rewrite Hend. split; reflexivity.
Qed.

Lemma tick_returns_ship_dead rotate_size surface_size root (fuel : nat)
    (dt : R) (s : Game.t) (g : Rng) :
  Ship.is_alive (Game.ship s) = false ->
  (2 <= Game.fragments_count s)%Z ->
  exists status self' g',
    Game.tick rotate_size surface_size root (S fuel) dt s g
    = Returned (status, self', g').
Proof.
  intros Hdead Hn.
  destruct (tick_sprites_ship_dead rotate_size surface_size root fuel dt
              s g Hdead Hn) as [mid [g' Hsprites]].
  unfold Game.tick. rewrite Hsprites. cbn.
  destruct (Game.respawn_or_end rotate_size dt mid) as [status self'].
  exists status, self', g'. reflexivity.
Qed.

Lemma tick_dead_bullet rotate_size surface_size root (fuel : nat) (dt : R)
    (s self' : Game.t) (g g' : Rng) (status : Game.Status) (i : nat)
    (b : Bullet.t) :
  Game.tick rotate_size surface_size root fuel dt s g
  = Returned (status, self', g') ->
  nth_error (Game.bullets s) i = Some b ->
  Bullet.is_alive b = false ->
  nth_error (Game.bullets self') i = Some (Bullet.tick dt b).
Proof.
  intros Htick Hb Hdead.
  apply tick_unfold in Htick. destruct Htick as [mid [Hsprites ->]].
  apply tick_sprites_spec in Hsprites.
  destruct Hsprites as [_ [Hbullets _]].
  destruct (respawn_or_end_frame rotate_size dt mid) as [Hsame _].
  rewrite Hsame. apply Hbullets; assumption.
Qed.

(** C2, as the code has it.  In [Game.tick] liveness gates the collision
    tests and the wraparound only: the ship, every stored bullet and every
    stored asteroid is ticked, dead or alive.  After a tick that returns,
    a dead bullet is exactly its [tick(dt)] (moved by [dt * v], older by
    [dt], not wrapped), a dead asteroid is exactly its [tick(dt)] unless
    the field was replaced for the next level, and a dead ship is exactly
    its [tick(dt)] unless it was replaced by a respawn. *)
Theorem tick_advances_dead_sprites rotate_size surface_size root
    (fuel : nat) (dt : R) (self self' : Game.t) (g g' : Rng)
    (status : Game.Status) :
  Game.tick rotate_size surface_size root fuel dt self g
  = Returned (status, self', g') ->
  (forall i b,
     nth_error (Game.bullets self) i = Some b ->
     Bullet.is_alive b = false ->
     nth_error (Game.bullets self') i = Some (Bullet.tick dt b)
     /\ Bullet.position (Bullet.tick dt b)
        = add2 (Bullet.position b) (scale2 dt (Bullet.v b))
     /\ Bullet.age (Bullet.tick dt b) = Bullet.age b + dt)
  /\ (forall j a,
        nth_error (Game.asteroids self) j = Some a ->
        Asteroid.is_alive a = false ->
        (nth_error (Game.asteroids self') j = Some (Asteroid.tick dt a)
         \/ Game.level self' = (Game.level self + 1)%Z)
        /\ Asteroid.position (Asteroid.tick dt a)
           = add2 (Asteroid.position a) (scale2 dt (Asteroid.v a)))
  /\ (Ship.is_alive (Game.ship self) = false ->
      Game.ship self' = Ship.tick rotate_size dt (Game.ship self)
      \/ Game.ship self'
         = Game.new_ship rotate_size (Game.ship_spawn_parameters self)
             (Game.foreground_color self) (Game.config self)).
Proof.
  intros Htick. split; [| split].
  - intros i b Hb Hdead. split.
    + eapply tick_dead_bullet; eassumption.
    + apply bullet_tick_moves.
  - intros j a Ha Hdead. split; [| reflexivity].
    apply tick_unfold in Htick. destruct Htick as [mid [Hsprites ->]].
    apply tick_sprites_spec in Hsprites.
    destruct Hsprites as [_ [_ [Hasteroids _]]].
    destruct (respawn_or_end_frame rotate_size dt mid)
      as [_ [Hsame [Hlevel _]]].
    rewrite Hsame, Hlevel. apply Hasteroids; assumption.
  - intros Hdead.
    apply tick_unfold in Htick. destruct Htick as [mid [Hsprites ->]].
    apply tick_sprites_spec in Hsprites.
    destruct Hsprites as [Hsetup [_ [_ Hship]]].
    destruct (Hship Hdead) as [Hmid _].
    destruct (setup_lives _ _ Hsetup) as [_ [Hspawn [Hcolor Hconfig]]].
    destruct (respawn_or_end_frame rotate_size dt mid)
      as [_ [_ [_ [Hkept | Hnew]]]].
    + left. congruence.
    + right. rewrite Hnew. congruence.
Qed.

Lemma tick_advances_dead_sprites_witness :
  exists status self' g',
    Game.tick same_size unit_surface idle_root 1 1
      (session (ship_at (400, 300) false 0) 2 3 []
               [Bullet.explode (bullet_at (50, 50))]) steady_rng
    = Returned (status, self', g')
    /\ nth_error (Game.bullets self') 0
       = Some (Bullet.tick 1 (Bullet.explode (bullet_at (50, 50)))).
Proof.
  destruct (tick_returns_ship_dead same_size unit_surface idle_root 0 1
              (session (ship_at (400, 300) false 0) 2 3 []
                       [Bullet.explode (bullet_at (50, 50))]) steady_rng)
    as [status [self' [g' Htick]]].
  - reflexivity.
  - cbn. lia.
  - exists status, self', g'. split; [exact Htick |].
    destruct (tick_advances_dead_sprites _ _ _ _ _ _ _ _ _ _ Htick)
      as [Hbullets _].
    apply (Hbullets 0%nat (Bullet.explode (bullet_at (50, 50))));
      reflexivity.
Defined.

(** C2 as stated fails.  A dead bullet at [(50, 50)] with velocity
    [(0, -100)], stored in a session whose ship is dead, is nowhere near
    the window edge; after one [Game.tick] of one second it is still dead,
    has moved to [(50, -50)] and has aged by one second: it did receive
    the advancement. *)
Lemma tick_moves_dead_bullet :
  let dead := Bullet.explode (bullet_at (50, 50)) in
  let self := session (ship_at (400, 300) false 0) 2 3 [] [dead] in
  Bullet.is_alive dead = false
  /\ Bullet.position dead = (50, 50)
  /\ exists status self' g' b',
       Game.tick same_size unit_surface idle_root 1 1 self steady_rng
       = Returned (status, self', g')
       /\ nth_error (Game.bullets self') 0 = Some b'
       /\ Bullet.is_alive b' = false
       /\ Bullet.position b' = (50, -50)
       /\ Bullet.age b' = Bullet.age dead + 1.
Proof.
  cbv zeta. split; [reflexivity | split; [reflexivity |]].
  destruct (tick_returns_ship_dead same_size unit_surface idle_root 0 1
              (session (ship_at (400, 300) false 0) 2 3 []
                       [Bullet.explode (bullet_at (50, 50))]) steady_rng)
    as [status [self' [g' Htick]]].
  - reflexivity.
  - cbn. lia.
  - exists status, self', g', (Bullet.tick 1 (Bullet.explode (bullet_at (50, 50)))).
    split; [exact Htick |]. split.
    + apply (tick_dead_bullet _ _ _ _ _ _ _ _ _ _ 0%nat _ Htick); reflexivity.
    + split; [apply bullet_tick_dead; reflexivity |].
      destruct (bullet_tick_moves 1 (Bullet.explode (bullet_at (50, 50))))
        as [Hposition Hage].
      split; [| exact Hage].
      rewrite Hposition. cbn. unfold add2, scale2. cbn [fst snd].
      f_equal; lra.
Qed.

(** ** The fragment velocities *)

Lemma velocity_at_next (a b : R) (rest : list R) (k : nat) :
  Asteroid.velocity_at (a :: b :: rest) (S k) = Asteroid.velocity_at rest k.
Proof.
  unfold Asteroid.velocity_at.
  replace (2 * S k)%nat with (S (S (2 * k))) by lia.
  replace (S (S (2 * k)) + 1)%nat with (S (S (2 * k + 1))) by lia.
  reflexivity.
Qed.

Lemma slice_next (a b : R) (rest : list R) (k : nat) :
  slice (2 * S k) (2 * S k + 2) (a :: b :: rest)
  = slice (2 * k) (2 * k + 2) rest.
Proof.
  unfold slice.
  replace (2 * S k + 2 - 2 * S k)%nat with (2 * k + 2 - 2 * k)%nat by lia.
  replace (2 * S k)%nat with (S (S (2 * k))) by lia.
  reflexivity.
Qed.

(** The slices [x[2k : 2k + 2]] of an array of length [2n] are its
    consecutive pairs. *)
Lemma velocities_chunk (n : nat) (x : list R) :
  List.length x = (2 * n)%nat ->
  map (Asteroid.velocity_at x) (seq 0 n) = chunk x
  /\ map (fun kk => slice (2 * kk) (2 * kk + 2) x) (seq 0 n)
     = map (fun p => [fst p; snd p]) (chunk x).
Proof.
  revert x. induction n as [| n IH]; intros x Hlen.
  - destruct x; [split; reflexivity | discriminate].
  - destruct x as [| a [| b rest]]; cbn in Hlen; try lia.
    destruct (IH rest ltac:(lia)) as [IHv IHs].
    cbn [seq map chunk]. rewrite <- seq_shift, !map_map.
    split; f_equal.
    + rewrite <- IHv. apply map_ext. intros k. apply velocity_at_next.
    + rewrite <- IHs. apply map_ext. intros k. apply slice_next.
Qed.

(** The strided slices [x[0::2]] and [x[1::2]] are the first and second
    components of the pairs. *)
Lemma strided_chunk (n : nat) (x : list R) :
  List.length x = (2 * n)%nat ->
  strided 0 x = map fst (chunk x) /\ strided 1 x = map snd (chunk x).
Proof.
  revert x. induction n as [| n IH]; intros x Hlen.
  - destruct x; [split; reflexivity | discriminate].
  - destruct x as [| a [| b rest]]; cbn in Hlen; try lia.
    destruct (IH rest ltac:(lia)) as [IH0 IH1].
    unfold strided in *. cbn [skipn every_other chunk map fst snd] in *.
    split; f_equal; [exact IH0 |].
    destruct rest as [| c rest']; [reflexivity | exact IH1].
Qed.

Lemma norm2_squared (v : Vec2) :
  norm2 v ^ 2 = fst v * fst v + snd v * snd v.
Proof.
  unfold norm2. apply pow2_sqrt. nra.
Qed.

Lemma np_norm_pair (p : Vec2) : np_norm [fst p; snd p] = norm2 p.
Proof.
  unfold np_norm, norm2, np_sum. cbn. f_equal. ring.
Qed.

Lemma chunk_length (n : nat) (x : list R) :
  List.length x = (2 * n)%nat -> List.length (chunk x) = n.
Proof.
  revert x. induction n as [| n IH]; intros x Hlen.
  - destruct x; [reflexivity | discriminate].
  - destruct x as [| a [| b rest]]; cbn in Hlen; try lia.
    cbn. f_equal. apply IH. lia.
Qed.

Section Laws.

Variable surface_size : R * R -> Z * Z.
Variable root : (list R -> list R) -> list R -> list R.

Lemma fragment_velocities (n : Z) (self : Asteroid.t) :
  map Asteroid.v (map (fragment surface_size root n self) (seq 0 (Z.to_nat n)))
  = map (Asteroid.velocity_at (solution root n self)) (seq 0 (Z.to_nat n)).
Proof.
  rewrite map_map. apply map_ext. intros k. reflexivity.
Qed.

(** The first three residuals of [system_of_equations] at the solver's
    result are the momentum and energy gaps of the fragments built from
    it. *)
Lemma residuals_are_gaps (n : Z) (self : Asteroid.t) :
  (2 <= n)%Z ->
  List.length (solution root n self) = Z.to_nat (2 * n) ->
  let residual :=
    Asteroid.system_of_equations (Asteroid.set_alive false self) n
                                 (solution root n self) in
  let vs :=
    map Asteroid.v
        (map (fragment surface_size root n self) (seq 0 (Z.to_nat n))) in
  nth 0 residual 0 = fst (momentum_gap (Asteroid.v self) vs)
  /\ nth 1 residual 0 = snd (momentum_gap (Asteroid.v self) vs)
  /\ nth 2 residual 0
     = energy_gap (Asteroid.energy_ratio self) (Asteroid.area_ratio self)
                  (Asteroid.v self) vs.
Proof.
  intros Hn Hlen. cbv zeta.
  rewrite fragment_velocities.
  assert (Hlen' : List.length (solution root n self) = (2 * Z.to_nat n)%nat)
    by lia.
  destruct (velocities_chunk _ _ Hlen') as [Hv Hs].
  destruct (strided_chunk _ _ Hlen') as [H0 H1].
  pose proof (chunk_length _ _ Hlen') as Hcount.
  rewrite Hv.
  unfold Asteroid.system_of_equations, momentum_gap, energy_gap.
  cbn [app nth fst snd Asteroid.v Asteroid.set_alive Asteroid.energy_ratio
       Asteroid.area_ratio].
  rewrite H0, H1, Hcount, INR_IZR_INZ, Z2Nat.id by lia.
  repeat split.
  f_equal. f_equal. f_equal.
  rewrite <- (map_map (fun kk => slice (2 * kk) (2 * kk + 2) _) np_norm).
  rewrite Hs, !map_map.
  apply map_ext. intros p. rewrite np_norm_pair. reflexivity.
Qed.

End Laws.

(** C1, as the code has it.  When the iterate the solver returns has
    momentum and energy residuals within [tol], the velocities of the [N]
    fragments of a successful [explode(N)] satisfy momentum conservation
    in each axis and the energy law within [tol].  Nothing in [explode]
    makes the solver reach such an iterate. *)
Theorem explode_laws_when_solved surface_size root (n : Z)
    (self : Asteroid.t) (tol : R) :
  (2 <= n)%Z ->
  0 < Asteroid.area_ratio self ->
  IZR (Asteroid.minimum_diameter self)
  <= Asteroid.diameter self * sqrt (Asteroid.area_ratio self / IZR n) ->
  let sol := solution root n self in
  let residual :=
    Asteroid.system_of_equations (Asteroid.set_alive false self) n sol in
  List.length sol = Z.to_nat (2 * n) ->
  Rabs (nth 0 residual 0) <= tol ->
  Rabs (nth 1 residual 0) <= tol ->
  Rabs (nth 2 residual 0) <= tol ->
  exists fragments,
    fst (Asteroid.explode surface_size root n self) = Some fragments
    /\ Z.of_nat (List.length fragments) = n
    /\ laws_within tol self fragments.
Proof.
  intros Hn Harea Hbig sol residual Hlen Hx Hy He.
  exists (map (fragment surface_size root n self) (seq 0 (Z.to_nat n))).
  split; [| split].
  - rewrite explode_at_or_above; [reflexivity | assumption |].
    intros Hbelow.
    apply below_quotient in Hbelow;
      [lra | apply diameter_ratio_positive; [lia | assumption]].
  - rewrite length_map, length_seq. lia.
  - destruct (residuals_are_gaps surface_size root n self Hn Hlen)
      as [H0 [H1 H2]].
    unfold laws_within. cbv zeta.
    rewrite <- H0, <- H1, <- H2. repeat split; assumption.
Qed.

Lemma explode_laws_when_solved_witness :
  exists fragments,
    fst (Asteroid.explode unit_surface idle_root 2
           (rock 60 (100, 100) (0, 0) true)) = Some fragments
    /\ Z.of_nat (List.length fragments) = 2%Z
    /\ laws_within 0 (rock 60 (100, 100) (0, 0) true) fragments.
Proof.
  assert (Hnorm : norm2 (0, 0) = 0).
  { unfold norm2. cbn. replace (0 * 0 + 0 * 0) with 0 by ring.
    apply sqrt_0. }
  assert (Hnorm' : np_norm [0; 0] = 0).
  { pose proof (np_norm_pair (0, 0)) as Hpair. cbn [fst snd] in Hpair.
    rewrite Hpair. exact Hnorm. }
  assert (Hsol : solution idle_root 2 (rock 60 (100, 100) (0, 0) true)
                 = [0; 0; 0; 0]) by reflexivity.
  apply (explode_laws_when_solved unit_surface idle_root 2
           (rock 60 (100, 100) (0, 0) true) 0).
  - lia.
  - cbn. lra.
  - cbn.
    assert (Hratio : 1 / 2 <= sqrt (3 / 4 / 2)) by (apply sqrt_above; lra).
    lra.
  - reflexivity.
  - rewrite Hsol. unfold Asteroid.system_of_equations.
    cbn. unfold strided, np_sum. cbn.
    replace (0 - (0 + (0 + 0)) / 2) with 0 by field.
    rewrite Rabs_R0. lra.
  - rewrite Hsol. unfold Asteroid.system_of_equations.
    cbn. unfold strided, np_sum. cbn.
    replace (0 - (0 + (0 + 0)) / 2) with 0 by field.
    rewrite Rabs_R0. lra.
  - rewrite Hsol. unfold Asteroid.system_of_equations.
    unfold slice. change (Z.to_nat 2) with 2%nat.
    cbn -[norm2 np_norm].
    rewrite Hnorm, Hnorm'. unfold np_sum. cbn.
    match goal with |- Rabs ?e <= 0 => replace e with 0 by field end.
    rewrite Rabs_R0. lra.
Defined.

Lemma damped_rock_explodes surface_size root :
  Asteroid.explode surface_size root 2 damped_rock
  = (Some (map (fragment surface_size root 2 damped_rock) [0%nat; 1%nat]),
     Asteroid.set_alive false damped_rock).
Proof.
  apply (explode_at_or_above surface_size root 2 damped_rock); [lia |].
  intros Hbelow.
  assert (Hpositive : 0 < sqrt (Asteroid.area_ratio damped_rock / IZR 2))
    by (apply diameter_ratio_positive; [lia | cbn; lra]).
  apply (proj1 (below_quotient _ _ _ Hpositive)) in Hbelow.
  cbn in Hbelow.
  assert (Hratio : 1 / 2 <= sqrt (3 / 4 / 2)) by (apply sqrt_above; lra).
  lra.
Qed.

(** C1 as stated fails.  An asteroid at or above the threshold, moving at
    [(10, 0)], with area ratio 0.75 and energy ratio 0.5 explodes into two
    fragments; whatever the solver returns, their velocities miss
    momentum conservation or the energy law by more than 1, since two
    velocities whose mean is the parent velocity carry at least the
    parent's [|v|^2] each on average. *)
Lemma explode_laws_unsatisfiable :
  (exists fragments,
      fst (Asteroid.explode unit_surface idle_root 2 damped_rock)
      = Some fragments
      /\ List.length fragments = 2%nat)
  /\ ~ exists surface_size root fragments,
         fst (Asteroid.explode surface_size root 2 damped_rock)
         = Some fragments
         /\ laws_within 1 damped_rock fragments.
Proof.
  split.
  - rewrite damped_rock_explodes. eexists. split; reflexivity.
  - intros [surface_size [root [fragments [Hexplode Hlaws]]]].
    rewrite damped_rock_explodes in Hexplode.
    cbn [fst] in Hexplode. injection Hexplode as <-.
    destruct Hlaws as [Hx [_ He]].
    unfold energy_gap in He. unfold momentum_gap in Hx.
    cbn [map List.length fragment Asteroid.v Asteroid.set_v fst snd
         damped_rock Asteroid.energy_ratio Asteroid.area_ratio np_sum
         fold_right INR] in Hx, He.
    rewrite !norm2_squared in He.
    unfold Asteroid.velocity_at in Hx, He. cbn [fst snd] in Hx, He.
    set (sol := solution root 2 damped_rock) in *.
    set (a := nth (2 * 0) sol 0) in *. set (b := nth (2 * 0 + 1) sol 0) in *.
    set (c := nth (2 * 1) sol 0) in *. set (d := nth (2 * 1 + 1) sol 0) in *.
    apply Rabs_bound in Hx. apply Rabs_bound in He.
    assert (Hsum : 18 <= a + c) by lra.
    assert (Hsquare : 324 <= (a + c) * (a + c)) by nra.
    assert (Hspread : (a + c) * (a + c) <= 2 * (a * a + c * c))
      by (pose proof (Rle_0_sqr (a - c)) as Hsqr; unfold Rsqr in Hsqr; lra).
    assert (Hb : 0 <= b * b) by nra.
    assert (Hd : 0 <= d * d) by nra.
    lra.
Qed.

(** * Further properties of the code *)

(** ** The ship: controls *)

(** X1.  The steering keys are an accumulator: pressing and then releasing
    LEFT (or RIGHT) gives back the ship as it was, pressing LEFT and RIGHT
    together leaves the steering where it was, and none of the four events
    returns a response.  The thrust key is a switch: after a press the
    thrust is 1 and after a release it is 0, whatever it was. *)
Theorem steering_keys_cancel (self : Ship.t) :
  let after e s := snd (Ship.handle_event e s) in
  after (key_up K_LEFT) (after (key_down K_LEFT) self) = self
  /\ after (key_up K_RIGHT) (after (key_down K_RIGHT) self) = self
  /\ after (key_down K_RIGHT) (after (key_down K_LEFT) self) = self
  /\ after (key_down K_LEFT) (after (key_down K_RIGHT) self) = self
  /\ Ship.steering (after (key_down K_LEFT) self)
     = (Ship.steering self - 1)%Z
  /\ Ship.steering (after (key_down K_RIGHT) self)
     = (Ship.steering self + 1)%Z
  /\ Ship.thrusting (after (key_down K_UP) self) = 1%Z
  /\ Ship.thrusting (after (key_up K_UP) self) = 0%Z
  /\ (forall k, k <> K_SPACE ->
      fst (Ship.handle_event (key_down k) self) = None
      /\ fst (Ship.handle_event (key_up k) self) = None).
Proof.
  cbv zeta.
  split; [| split; [| split; [| split]]];
    try (destruct self; cbn; unfold Ship.set_steering; cbn; f_equal; lia).
  split; [reflexivity |]. split; [reflexivity |].
  split; [reflexivity |]. split; [reflexivity |].
  intros k Hk. split.
  - destruct k; try reflexivity. congruence.
  - destruct k; reflexivity.
Qed.

(** X2.  Reload gating.  After a fire request is honoured, with a positive
    reload period, a second request is rejected as long as the seconds
    ticked since stay below the reload period, and honoured once they
    reach it. *)
Theorem reload_gating rotate_size (self : Ship.t) (dt : R) :
  Ship.reloading self <= 0 ->
  0 < Ship.reload_period self ->
  let fired := snd (Ship.handle_event fire_request self) in
  Ship.handle_event fire_request fired = (None, fired)
  /\ (dt < Ship.reload_period self ->
      fst (Ship.handle_event fire_request (Ship.tick rotate_size dt fired))
      = None)
  /\ (Ship.reload_period self <= dt ->
      exists bullet,
        fst (Ship.handle_event fire_request (Ship.tick rotate_size dt fired))
        = Some (Ship.BULLET_FIRED bullet)).
Proof.
  intros Hready Hperiod. cbv zeta.
  rewrite (fire_when_reloaded self Hready). cbn [snd].
  set (fired := Ship.set_reloading (Ship.reload_period self) self).
  assert (Hfired : Ship.reloading fired = Ship.reload_period self)
    by reflexivity.
  assert (Hrejected : forall s, ~ Ship.reloading s <= 0 ->
            Ship.handle_event fire_request s = (None, s)).
  { intros s Hbusy. unfold Ship.handle_event. cbn.
    destruct (Rle_dec (Ship.reloading s) 0); [contradiction | reflexivity]. }
  split; [| split].
  - apply Hrejected. rewrite Hfired. lra.
  - intros Hearly. rewrite Hrejected; [reflexivity |].
    rewrite tick_reloading, Hfired. lra.
  - intros Hlate. eexists. rewrite fire_when_reloaded; [reflexivity |].
    rewrite tick_reloading, Hfired. lra.
Qed.

Lemma reload_gating_witness :
  Ship.handle_event fire_request
    (snd (Ship.handle_event fire_request (ship_at (400, 300) true 0)))
  = (None, snd (Ship.handle_event fire_request (ship_at (400, 300) true 0))).
Proof.
  destruct (reload_gating same_size (ship_at (400, 300) true 0) 0)
    as [Hrejected _].
  - cbn. lra.
  - cbn. lra.
  - exact Hrejected.
Defined.

(** ** The ship: dynamics *)

(** X3.  Coasting.  With no thrust and no steering a tick leaves the
    velocity and the angular velocity as they were and moves the centre
    of mass by [dt * v_cm]. *)
Theorem coasting rotate_size (dt : R) (self : Ship.t) :
  Ship.thrusting self = 0%Z ->
  Ship.steering self = 0%Z ->
  let self' := Ship.tick rotate_size dt self in
  Ship.v_cm self' = Ship.v_cm self
  /\ Ship.omega self' = Ship.omega self
  /\ Ship.r_cm self' = add3 (Ship.r_cm self) (scale3 dt (Ship.v_cm self)).
Proof.
  intros Hthrust Hsteer. cbv zeta.
  destruct self as [[[r0 r1] r2] [[v0 v1] v2] [[u0 u1] u2] [[w0 w1] w2]
                      ? ? ? ? ? ? ? ? ? thrusting steering ? ?].
  cbn in Hthrust, Hsteer. subst thrusting steering.
  unfold Ship.tick. cbn.
  repeat split; componentwise; field.
Qed.

Lemma coasting_witness :
  Ship.v_cm (Ship.tick same_size 1 (ship_at (400, 300) true 0)) = (0, 0, 0).
Proof.
  destruct (coasting same_size 1 (ship_at (400, 300) true 0))
    as [Hv _]; [reflexivity | reflexivity |].
  exact Hv.
Defined.

Lemma tick_runge_kutta rotate_size (dt : R) (self : Ship.t)
    (r' v' u' w' : Vec3) :
  runge_kutta dt self = (r', v', u', w') ->
  let self' := Ship.tick rotate_size dt self in
  Ship.r_cm self' = r'
  /\ Ship.v_cm self' = v'
  /\ Ship.u_nose_cm self' = div3 u' (norm3 u')
  /\ Ship.omega self' = w'.
Proof.
  unfold runge_kutta, Ship.tick. cbv zeta. intros ->.
  repeat split.
Qed.

Lemma div3_unit (u : Vec3) : norm3 u = 1 -> div3 u (norm3 u) = u.
Proof.
  intros Hunit. rewrite Hunit. destruct u as [[a b] c].
  cbn. componentwise; field.
Qed.

(** X4.  Thrust along a fixed heading.  With no steering, no angular
    velocity and a unit heading [u], a tick keeps the heading and is
    exact for the constant acceleration [thrust * a * u]: the velocity
    gains [dt * thrust * a * u] and the centre of mass moves by
    [dt * v + dt^2 / 2 * thrust * a * u]. *)
Theorem straight_thrust rotate_size (dt : R) (self : Ship.t) :
  Ship.steering self = 0%Z ->
  Ship.omega self = (0, 0, 0) ->
  norm3 (Ship.u_nose_cm self) = 1 ->
  let self' := Ship.tick rotate_size dt self in
  let acceleration := IZR (Ship.thrusting self) * Ship.a self in
  Ship.u_nose_cm self' = Ship.u_nose_cm self
  /\ Ship.omega self' = (0, 0, 0)
  /\ Ship.v_cm self'
     = add3 (Ship.v_cm self)
            (scale3 (dt * acceleration) (Ship.u_nose_cm self))
  /\ Ship.r_cm self'
     = add3 (add3 (Ship.r_cm self) (scale3 dt (Ship.v_cm self)))
            (scale3 (dt * dt / 2 * acceleration) (Ship.u_nose_cm self)).
Proof.
  intros Hsteer Homega Hunit. cbv zeta.
  assert (Hstep :
            runge_kutta dt self
            = (add3 (add3 (Ship.r_cm self) (scale3 dt (Ship.v_cm self)))
                    (scale3 (dt * dt / 2
                             * (IZR (Ship.thrusting self) * Ship.a self))
                            (Ship.u_nose_cm self)),
               add3 (Ship.v_cm self)
                    (scale3 (dt * (IZR (Ship.thrusting self) * Ship.a self))
                            (Ship.u_nose_cm self)),
               Ship.u_nose_cm self, (0, 0, 0))).
  { clear Hunit.
    destruct self as [[[r0 r1] r2] [[v0 v1] v2] [[u0 u1] u2] omega
                        ? ? ? ? ? ? ? ? ? thrusting steering ? ?].
    cbn in Hsteer, Homega. subst steering omega.
    unfold runge_kutta. cbn. componentwise; field. }
  destruct (tick_runge_kutta rotate_size dt self _ _ _ _ Hstep)
    as [Hr [Hv [Hu Hw]]].
  rewrite Hr, Hv, Hu, Hw. repeat split.
  apply div3_unit. exact Hunit.
Qed.

Lemma straight_thrust_witness :
  Ship.v_cm
    (Ship.tick same_size 2
       (Ship.set_thrusting 1 (ship_at (400, 300) true 0)))
  = (0 + 2 * (1 * 100) * 0, 0 + 2 * (1 * 100) * -1, 0 + 2 * (1 * 100) * 0).
Proof.
  destruct (straight_thrust same_size 2
              (Ship.set_thrusting 1 (ship_at (400, 300) true 0)))
    as [_ [_ [Hv _]]].
  - reflexivity.
  - reflexivity.
  - cbn. replace (0 * 0 + -1 * -1 + 0 * 0) with 1 by ring. apply sqrt_1.
  - exact Hv.
Defined.

Lemma norm3_normalised (v : Vec3) :
  0 < norm3 v -> norm3 (div3 v (norm3 v)) = 1.
Proof.
  destruct v as [[a b] c]. intros Hpos.
  set (n := norm3 (a, b, c)) in *.
  assert (Hsq : n * n = a * a + b * b + c * c).
  { unfold n, norm3. apply sqrt_sqrt. nra. }
  cbn [div3 norm3].
  replace (a / n * (a / n) + b / n * (b / n) + c / n * (c / n)) with 1.
  - apply sqrt_1.
  - replace (a / n * (a / n) + b / n * (b / n) + c / n * (c / n))
      with ((a * a + b * b + c * c) / (n * n)) by (field; lra).
    rewrite <- Hsq. field. lra.
Qed.

(** X5.  Rotation without steering.  With no steering input, an angular
    velocity [(0, 0, w)] and a planar unit heading, a tick of any length
    leaves the angular velocity as it was and returns a planar heading of
    norm 1: the Runge-Kutta step shrinks the heading by
    [1 - x^6 / 72 + x^8 / 576] in squared norm ([x = w * dt]), which is
    never 0, and the re-normalisation undoes it. *)
Theorem rotation_keeps_heading_unit rotate_size (dt w ux uy : R)
    (self : Ship.t) :
  Ship.steering self = 0%Z ->
  Ship.omega self = (0, 0, w) ->
  Ship.u_nose_cm self = (ux, uy, 0) ->
  ux * ux + uy * uy = 1 ->
  let self' := Ship.tick rotate_size dt self in
  norm3 (Ship.u_nose_cm self') = 1
  /\ Ship.omega self' = (0, 0, w)
  /\ snd (Ship.u_nose_cm self') = 0.
Proof.
  intros Hsteer Homega Hu Hunit. cbv zeta.
  set (x := w * dt).
  set (c := 1 - x * x / 2 + x * x * x * x / 24).
  set (s := x - x * x * x / 6).
  assert (Hstep : exists r' v',
            runge_kutta dt self
            = (r', v', (c * ux - s * uy, s * ux + c * uy, 0), (0, 0, w))).
  { destruct self as [[[r0 r1] r2] [[v0 v1] v2] heading omega
                        ? ? ? ? ? ? ? ? ? thrusting steering ? ?].
    cbn in Hsteer, Homega, Hu. subst steering omega heading.
    unfold runge_kutta. cbn. eexists. eexists.
    apply f_equal2; [apply f_equal2; [reflexivity |] |];
      unfold c, s, x; componentwise; field. }
  destruct Hstep as [r' [v' Hstep]].
  destruct (tick_runge_kutta rotate_size dt self _ _ _ _ Hstep)
    as [_ [_ [Hheading Hw]]].
  rewrite Hheading, Hw.
  assert (Hpositive :
            0 < (c * ux - s * uy) * (c * ux - s * uy)
                + (s * ux + c * uy) * (s * ux + c * uy) + 0 * 0).
  { replace ((c * ux - s * uy) * (c * ux - s * uy)
             + (s * ux + c * uy) * (s * ux + c * uy) + 0 * 0)
      with ((c * c + s * s) * (ux * ux + uy * uy)) by ring.
    rewrite Hunit.
    replace ((c * c + s * s) * 1)
      with (((x * x * (x * x) - 4 * (x * x) - 12)
             * (x * x * (x * x) - 4 * (x * x) - 12)
             + 8 * ((x * x - 6) * (x * x - 6)) + 144) / 576)
      by (unfold c, s; field).
    pose proof (Rle_0_sqr (x * x * (x * x) - 4 * (x * x) - 12)) as H1.
    pose proof (Rle_0_sqr (x * x - 6)) as H2.
    unfold Rsqr in H1, H2. lra. }
  split; [| split].
  - apply norm3_normalised. cbn [norm3]. apply sqrt_lt_R0. exact Hpositive.
  - reflexivity.
  - cbn. field. apply Rgt_not_eq. apply sqrt_lt_R0. exact Hpositive.
Qed.

Lemma rotation_keeps_heading_unit_witness :
  norm3 (Ship.u_nose_cm (Ship.tick same_size (1 / 30) spinning_ship)) = 1.
Proof.
  destruct (rotation_keeps_heading_unit same_size (1 / 30) 3 0 (-1)
              spinning_ship) as [Hunit _];
    try reflexivity.
  - ring.
  - exact Hunit.
Defined.

(** ** The bullet: flight and expiry *)

Lemma bullet_tick_fields (dt : R) (b : Bullet.t) :
  Bullet.v (Bullet.tick dt b) = Bullet.v b
  /\ Bullet.lifespan (Bullet.tick dt b) = Bullet.lifespan b
  /\ Bullet.diameter (Bullet.tick dt b) = Bullet.diameter b.
Proof.
  unfold Bullet.tick. destruct (Rge_dec _ _); repeat split.
Qed.

Lemma bullet_tick_alive (dt : R) (b : Bullet.t) :
  Bullet.is_alive (Bullet.tick dt b) = true
  <-> Bullet.is_alive b = true /\ Bullet.age b + dt < Bullet.lifespan b.
Proof.
  unfold Bullet.tick. cbn.
  destruct (Rge_dec (Bullet.age b + dt) (Bullet.lifespan b)); cbn;
    split; try discriminate; intros; try tauto.
  - lra.
  - split; [assumption | lra].
Qed.

(** X6.  A bullet flies straight and dies of age.  After any sequence of
    ticks the bullet is at its first position plus the elapsed time times
    its velocity, its age has grown by the elapsed time and its velocity
    is unchanged; when no time step is negative, it is alive at the end
    exactly when it was alive at the start and its final age is below its
    lifespan. *)
Theorem bullet_flight (dts : list R) (b : Bullet.t) :
  let b' := bullet_ticks dts b in
  fst (Bullet.position b')
  = fst (Bullet.position b) + total dts * fst (Bullet.v b)
  /\ snd (Bullet.position b')
     = snd (Bullet.position b) + total dts * snd (Bullet.v b)
  /\ Bullet.age b' = Bullet.age b + total dts
  /\ Bullet.v b' = Bullet.v b
  /\ (Forall (fun dt => 0 <= dt) dts -> dts <> [] ->
      (Bullet.is_alive b' = true
       <-> Bullet.is_alive b = true
           /\ Bullet.age b + total dts < Bullet.lifespan b)).
Proof.
  cbv zeta. unfold bullet_ticks.
  revert b. induction dts as [| dt rest IH]; intros b.
  - cbn.
    split; [lra | split; [lra | split; [lra | split; [reflexivity |]]]].
    intros _ Hne. congruence.
  - cbn [fold_left]. change (total (dt :: rest)) with (dt + total rest).
    destruct (IH (Bullet.tick dt b)) as [Hx [Hy [Hage [Hv Halive]]]].
    destruct (bullet_tick_moves dt b) as [Hmove Holder].
    destruct (bullet_tick_fields dt b) as [Hsame [Hlife _]].
    rewrite Hx, Hy, Hage, Hv, Hmove, Holder, Hsame.
    unfold add2, scale2. cbn [fst snd].
    split; [ring | split; [ring | split; [ring | split; [reflexivity |]]]].
    intros Hnonneg _. inversion Hnonneg as [| dt0 rest0 Hdt Hrest]; subst.
    assert (Htotal : 0 <= total rest).
    { clear - Hrest. unfold total. induction Hrest; cbn; lra. }
    destruct rest as [| dt' rest'].
    + cbn [fold_left]. change (total []) with 0 in *.
      rewrite bullet_tick_alive.
      split; intros [Hstart Hyoung]; (split; [assumption | lra]).
    + rewrite (Halive Hrest ltac:(discriminate)).
      rewrite bullet_tick_alive, Holder, Hlife.
      split.
      * intros [[Hstart _] Hyoung]. split; [assumption | lra].
      * intros [Hstart Hyoung]. repeat split; try assumption; lra.
Qed.

(** ** The asteroid: what an explosion returns *)

Lemma np_sum_constant {A : Type} (c : R) (l : list A) :
  np_sum (map (fun _ => c) l) = INR (List.length l) * c.
Proof.
  unfold np_sum. induction l as [| x l IH].
  - cbn. ring.
  - cbn [map fold_right List.length]. rewrite IH, S_INR. ring.
Qed.

(** X7.  Area is conserved up to the area ratio, as the class comment
    has it: the squared diameters of the fragments of a successful
    explosion add up to [area_ratio] times the squared diameter of the
    parent, whatever the solver returned. *)
Theorem explode_conserves_area surface_size root (n : Z)
    (self : Asteroid.t) :
  (2 <= n)%Z ->
  0 < Asteroid.area_ratio self ->
  IZR (Asteroid.minimum_diameter self)
  <= Asteroid.diameter self * sqrt (Asteroid.area_ratio self / IZR n) ->
  exists fragments,
    fst (Asteroid.explode surface_size root n self) = Some fragments
    /\ np_sum (map (fun f => Asteroid.diameter f * Asteroid.diameter f)
                   fragments)
       = Asteroid.area_ratio self
         * (Asteroid.diameter self * Asteroid.diameter self).
Proof.
  intros Hn Harea Hbig.
  exists (map (fragment surface_size root n self) (seq 0 (Z.to_nat n))).
  split.
  - rewrite explode_at_or_above; [reflexivity | assumption |].
    intros Hbelow.
    assert (Hpositive : 0 < sqrt (Asteroid.area_ratio self / IZR n))
      by (apply diameter_ratio_positive; [lia | assumption]).
    apply (proj1 (below_quotient _ _ _ Hpositive)) in Hbelow. lra.
  - rewrite map_map. cbn [fragment Asteroid.diameter Asteroid.set_v
                          Asteroid.init].
    rewrite np_sum_constant, length_seq, INR_IZR_INZ, Z2Nat.id by lia.
    assert (Hn' : 0 < IZR n) by (apply (IZR_lt 0); lia).
    assert (Hsq : sqrt (Asteroid.area_ratio self / IZR n)
                  * sqrt (Asteroid.area_ratio self / IZR n)
                  = Asteroid.area_ratio self / IZR n).
    { apply sqrt_sqrt. left. apply Rdiv_lt_0_compat; assumption. }
    replace (sqrt (Asteroid.area_ratio self / IZR n) * Asteroid.diameter self
             * (sqrt (Asteroid.area_ratio self / IZR n)
                * Asteroid.diameter self))
      with (sqrt (Asteroid.area_ratio self / IZR n)
            * sqrt (Asteroid.area_ratio self / IZR n)
            * (Asteroid.diameter self * Asteroid.diameter self)) by ring.
    rewrite Hsq. field. lra.
Qed.

Lemma explode_conserves_area_witness :
  exists fragments,
    fst (Asteroid.explode unit_surface idle_root 2
           (rock 60 (100, 100) (10, 0) true)) = Some fragments
    /\ np_sum (map (fun f => Asteroid.diameter f * Asteroid.diameter f)
                   fragments)
       = 3 / 4 * (60 * 60).
Proof.
  apply (explode_conserves_area unit_surface idle_root 2
           (rock 60 (100, 100) (10, 0) true)).
  - lia.
  - cbn. lra.
  - cbn.
    assert (Hratio : 1 / 2 <= sqrt (3 / 4 / 2)) by (apply sqrt_above; lra).
    lra.
Defined.

(** X8.  No asteroid below the minimum diameter leaves an explosion:
    whenever [explode] returns a list, for any fragment count and any
    solver, every asteroid in it has a diameter of at least the minimum
    diameter (the list is empty when the fragments would be smaller). *)
Theorem explode_no_small_fragments surface_size root (n : Z)
    (self : Asteroid.t) (fragments : list Asteroid.t) :
  0 < Asteroid.area_ratio self ->
  fst (Asteroid.explode surface_size root n self) = Some fragments ->
  Forall (fun f => IZR (Asteroid.minimum_diameter self) <= Asteroid.diameter f)
         fragments.
Proof.
  intros Harea. unfold Asteroid.explode.
  destruct (Z.eqb_spec n 0) as [-> | _]; [discriminate |].
  cbn [Asteroid.set_alive Asteroid.diameter Asteroid.minimum_diameter
       Asteroid.area_ratio Asteroid.r Asteroid.color Asteroid.config].
  destruct (Rlt_dec _ _) as [_ | Habove]; [intros [= <-]; constructor |].
  destruct (Z.ltb_spec n 2) as [_ | Hn]; [discriminate |].
  cbn [fst]. intros [= <-].
  assert (Hpositive : 0 < sqrt (Asteroid.area_ratio self / IZR n))
    by (apply diameter_ratio_positive; [lia | assumption]).
  assert (Hbig : IZR (Asteroid.minimum_diameter self)
                 <= sqrt (Asteroid.area_ratio self / IZR n)
                    * Asteroid.diameter self).
  { destruct (Rle_lt_dec (IZR (Asteroid.minimum_diameter self))
                (sqrt (Asteroid.area_ratio self / IZR n)
                 * Asteroid.diameter self)) as [Hle | Hlt];
      [exact Hle |].
    exfalso. apply Habove.
    apply (proj2 (below_quotient _ _ _ Hpositive)). lra. }
  apply Forall_forall. intros f Hin.
  apply in_map_iff in Hin. destruct Hin as [[k f0] [<- Hin]].
  apply in_combine_r in Hin. apply in_map_iff in Hin.
  destruct Hin as [k0 [<- _]].
  cbn. exact Hbig.
Qed.

Lemma explode_no_small_fragments_witness :
  Forall (fun f => 30 <= Asteroid.diameter f)
         (map (fragment unit_surface idle_root 2 damped_rock)
              [0%nat; 1%nat]).
Proof.
  apply (explode_no_small_fragments unit_surface idle_root 2 damped_rock).
  - cbn. lra.
  - rewrite damped_rock_explodes. reflexivity.
Defined.

(** X9.  The edges of [explode].  A fragment count of 0 raises (the
    division by the count), and so does a count of 1 for an asteroid at or
    above the threshold (no array of [-1] equal-angle residuals can be
    made); whatever the count and the outcome, the asteroid is dead
    afterwards and is otherwise as it was. *)
Theorem explode_edge_cases surface_size root (self : Asteroid.t) :
  fst (Asteroid.explode surface_size root 0 self) = None
  /\ (0 < Asteroid.area_ratio self ->
      IZR (Asteroid.minimum_diameter self)
      <= Asteroid.diameter self * sqrt (Asteroid.area_ratio self / 1) ->
      fst (Asteroid.explode surface_size root 1 self) = None)
  /\ (forall n,
        let self' := snd (Asteroid.explode surface_size root n self) in
        Asteroid.is_alive self' = false
        /\ Asteroid.position self' = Asteroid.position self
        /\ Asteroid.v self' = Asteroid.v self
        /\ Asteroid.diameter self' = Asteroid.diameter self).
Proof.
  split; [reflexivity | split].
  - intros Harea Hbig. unfold Asteroid.explode.
    cbn [Z.eqb Asteroid.set_alive Asteroid.diameter Asteroid.minimum_diameter
         Asteroid.area_ratio].
    destruct (Rlt_dec _ _) as [Hbelow | _]; [| reflexivity].
    exfalso.
    assert (Hpositive : 0 < sqrt (Asteroid.area_ratio self / IZR 1))
      by (apply diameter_ratio_positive; [lia | assumption]).
    apply (proj1 (below_quotient _ _ _ Hpositive)) in Hbelow. lra.
  - intros n. cbv zeta. rewrite explode_parent. repeat split.
Qed.

(** ** Spawning asteroids *)

Lemma Rng_ok_advance (n : nat) (g : Rng) : Rng_ok g -> Rng_ok (advance n g).
Proof. intros Hg k. exact (Hg k). Qed.

Lemma generation_ranges (config : option Config)
    (window_size : Z * Z) (g : Rng) :
  Rng_ok g ->
  (cfg config asteroid_minimum_diameter Asteroid.default_minimum_diameter
   <= cfg config asteroid_median_diameter Asteroid.default_median_diameter)%Z ->
  (0 < fst window_size)%Z ->
  (0 < snd window_size)%Z ->
  IZR (cfg config asteroid_minimum_diameter Asteroid.default_minimum_diameter)
  <= fst (Asteroid.generate_diameter config g)
  /\ 0 <= fst (fst (Asteroid.generate_position window_size g))
     < IZR (fst window_size)
  /\ 0 <= snd (fst (Asteroid.generate_position window_size g))
     < IZR (snd window_size)
  /\ Rng_ok (snd (Asteroid.generate_diameter config g))
  /\ Rng_ok (snd (Asteroid.generate_position window_size g)).
Proof.
  intros Hg Hmedian Hwidth Hheight.
  unfold Asteroid.generate_diameter, Asteroid.generate_position.
  set (d_min := cfg config asteroid_minimum_diameter _) in *.
  set (d_med := cfg config asteroid_median_diameter _) in *.
  cbn -[ln].
  destruct (Hg (cursor g)) as [He [Hu0 Hu0']].
  destruct (Hg (S (cursor g))) as [_ [Hu1 Hu1']].
  apply IZR_lt in Hwidth, Hheight.
  assert (Hbeta : 0 <= IZR (d_med - d_min) / ln 2).
  { apply quotient_nonneg; [| left; apply ln_2_positive].
    apply (IZR_le 0). lia. }
  split; [| split; [| split; [| split]]].
  - pose proof (Rmult_le_pos _ _ Hbeta He). lra.
  - split; [nra | nra].
  - split; [nra | nra].
  - apply Rng_ok_advance. exact Hg.
  - apply Rng_ok_advance. exact Hg.
Qed.

(** X10.  What is drawn for a new asteroid.  With draws in the ranges of
    the two distributions and a median no smaller than the minimum, a
    generated diameter is at least the minimum diameter, and a generated
    position lies in the window: [0 <= x < width] and [0 <= y < height]. *)
Theorem generated_within_bounds (config : option Config)
    (window_size : Z * Z) (g : Rng) :
  Rng_ok g ->
  (cfg config asteroid_minimum_diameter Asteroid.default_minimum_diameter
   <= cfg config asteroid_median_diameter Asteroid.default_median_diameter)%Z ->
  (0 < fst window_size)%Z ->
  (0 < snd window_size)%Z ->
  IZR (cfg config asteroid_minimum_diameter Asteroid.default_minimum_diameter)
  <= fst (Asteroid.generate_diameter config g)
  /\ 0 <= fst (fst (Asteroid.generate_position window_size g))
     < IZR (fst window_size)
  /\ 0 <= snd (fst (Asteroid.generate_position window_size g))
     < IZR (snd window_size)
  /\ Rng_ok (snd (Asteroid.generate_diameter config g))
  /\ Rng_ok (snd (Asteroid.generate_position window_size g)).
Proof. apply generation_ranges. Qed.

Lemma generated_within_bounds_witness :
  30 <= fst (Asteroid.generate_diameter None steady_rng).
Proof.
  destruct (generated_within_bounds None (800, 600)%Z steady_rng)
    as [Hdiameter _].
  - intros n. cbn. lra.
  - cbn. unfold Asteroid.default_minimum_diameter,
      Asteroid.default_median_diameter. lia.
  - cbn. lia.
  - cbn. lia.
  - exact Hdiameter.
Defined.

Lemma spawn_somewhere_spec (fuel : nat) (s : Game.t) (diameter : R)
    (g g' : Rng) (p : Vec2) :
  Game.spawn_somewhere fuel s diameter g = Returned (p, g') ->
  Rng_ok g ->
  (0 < fst (Game.window_size s))%Z ->
  (0 < snd (Game.window_size s))%Z ->
  (Ship.is_alive (Game.ship s) = true ->
   diameter / 2 < norm2 (sub2 (Ship.position (Game.ship s)) p))
  /\ 0 <= fst p < IZR (fst (Game.window_size s))
  /\ 0 <= snd p < IZR (snd (Game.window_size s))
  /\ Rng_ok g'.
Proof.
  intros Hrun Hg Hwidth Hheight. revert g Hg Hrun.
  induction fuel as [| fuel IH]; intros g Hg; cbn -[Asteroid.generate_position];
    [discriminate |].
  destruct (generation_ranges None (Game.window_size s) g Hg)
    as [_ [Hx [Hy [_ Hg1]]]]; try assumption.
  { cbn. unfold Asteroid.default_minimum_diameter,
      Asteroid.default_median_diameter. lia. }
  destruct (Asteroid.generate_position (Game.window_size s) g)
    as [position g1]. cbn [fst snd] in Hx, Hy, Hg1.
  destruct (Ship.is_alive (Game.ship s)) eqn:Halive; cbn [andb].
  - destruct (Rle_dec _ _) as [Hnear | Hfar].
    + apply IH. exact Hg1.
    + intros [= <- <-].
      split; [intros _; lra | split; [exact Hx | split; [exact Hy | exact Hg1]]].
  - intros [= <- <-].
    split; [discriminate | split; [exact Hx | split; [exact Hy | exact Hg1]]].
Qed.

Lemma spawn_asteroid_spec surface_size (fuel : nat) (s : Game.t)
    (acc l : list Asteroid.t) (g g' : Rng) :
  Game.spawn_asteroid surface_size fuel s (acc, g) = Returned (l, g') ->
  Rng_ok g ->
  (0 < fst (Game.window_size s))%Z ->
  (0 < snd (Game.window_size s))%Z ->
  exists a, l = acc ++ [a] /\ freshly_spawned s a /\ Rng_ok g'.
Proof.
  unfold Game.spawn_asteroid. intros Hrun Hg Hwidth Hheight.
  destruct (generation_ranges None (Game.window_size s) g Hg)
    as [Hdiameter [_ [_ [Hg1 _]]]]; try assumption.
  { cbn. unfold Asteroid.default_minimum_diameter,
      Asteroid.default_median_diameter. lia. }
  destruct (Asteroid.generate_diameter None g) as [diameter g1].
  cbn [fst snd cfg] in Hdiameter, Hg1.
  destruct (Game.spawn_somewhere fuel s diameter g1)
    as [[position g2] | |] eqn:Hwhere;
    cbn -[Asteroid.generate_velocity] in Hrun; try discriminate.
  destruct (spawn_somewhere_spec _ _ _ _ _ _ Hwhere Hg1 Hwidth Hheight)
    as [Hclear [Hx [Hy Hg2]]].
  assert (Hg3 : Rng_ok (snd (Asteroid.generate_velocity None g2))).
  { unfold Asteroid.generate_velocity. cbn -[ln].
    repeat apply Rng_ok_advance. exact Hg2. }
  remember (Asteroid.generate_velocity None g2) as drawn eqn:Hdrawn.
  destruct drawn as [velocity g3]. cbn [snd] in Hg3.
  injection Hrun as <- <-.
  eexists. split; [reflexivity |].
  split; [| exact Hg3].
  unfold freshly_spawned. cbn -[Asteroid.generate_velocity].
  repeat split; try assumption; try tauto.
  exists g2. split; [exact Hg2 |]. rewrite <- Hdrawn. reflexivity.
Qed.

Lemma spawn_loop_spec surface_size (fuel : nat) (s : Game.t) (items : list nat) :
  (0 < fst (Game.window_size s))%Z ->
  (0 < snd (Game.window_size s))%Z ->
  forall (acc l : list Asteroid.t) (g g' : Rng),
    for_each (fun _ : nat => Game.spawn_asteroid surface_size fuel s) items
             (acc, g) = Returned (l, g') ->
    Rng_ok g ->
    Forall (freshly_spawned s) acc ->
    List.length l = (List.length acc + List.length items)%nat
    /\ Forall (freshly_spawned s) l
    /\ Rng_ok g'.
Proof.
  intros Hwidth Hheight.
  induction items as [| item rest IH]; intros acc l g g' Hrun Hg Hacc.
  - cbn in Hrun. injection Hrun as <- <-.
    cbn. split; [lia | split; assumption].
  - cbn [for_each] in Hrun.
    destruct (Game.spawn_asteroid surface_size fuel s (acc, g))
      as [[acc1 g1] | |] eqn:Hone; cbn [bind] in Hrun; try discriminate.
    destruct (spawn_asteroid_spec _ _ _ _ _ _ _ Hone Hg Hwidth Hheight)
      as [a [-> [Ha Hg1]]].
    destruct (IH _ _ _ _ Hrun Hg1) as [Hlen [Hall Hg']].
    + apply Forall_app. split; [assumption | constructor; [assumption | constructor]].
    + rewrite length_app in Hlen. cbn in Hlen |- *.
      split; [lia | split; assumption].
Qed.

(** X11.  A spawned field.  When [_spawn_asteroids] returns, in a window
    of positive size and with draws in range, it returns exactly
    [asteroids count] asteroids (none for a count of 0 or less), each of
    them alive, with the default parameters and the session's colour, of
    at least the default minimum diameter, inside the window, farther
    from a living ship than its own radius, and moving at a generated
    velocity scaled by [(level + 9) / 10]. *)
Theorem spawn_asteroids_spec surface_size (fuel : nat) (s : Game.t)
    (g g' : Rng) (l : list Asteroid.t) :
  Game.spawn_asteroids surface_size fuel s g = Returned (l, g') ->
  Rng_ok g ->
  (0 < fst (Game.window_size s))%Z ->
  (0 < snd (Game.window_size s))%Z ->
  List.length l = Z.to_nat (Game.asteroids_count s)
  /\ Forall (freshly_spawned s) l
  /\ Rng_ok g'.
Proof.
  unfold Game.spawn_asteroids. intros Hrun Hg Hwidth Hheight.
  destruct (spawn_loop_spec surface_size fuel s _ Hwidth Hheight _ _ _ _
              Hrun Hg (Forall_nil _)) as [Hlen [Hall Hg']].
  rewrite length_seq in Hlen. cbn in Hlen.
  split; [exact Hlen | split; assumption].
Qed.

Lemma spawn_asteroids_spec_witness :
  exists l g',
    Game.spawn_asteroids unit_surface 1
      (session (ship_at (400, 300) false 0) 2 3 [] []) steady_rng
    = Returned (l, g')
    /\ List.length l = 3%nat.
Proof.
  destruct (spawn_asteroids_ship_dead unit_surface 0
              (session (ship_at (400, 300) false 0) 2 3 [] []) steady_rng
              eq_refl) as [l [g' Hrun]].
  exists l, g'. split; [exact Hrun |].
  destruct (spawn_asteroids_spec unit_surface 1
              (session (ship_at (400, 300) false 0) 2 3 [] [])
              steady_rng g' l Hrun) as [Hlen _].
  - intros n. cbn. lra.
  - cbn. lia.
  - cbn. lia.
  - exact Hlen.
Defined.

(** ** Bullets against asteroids *)

Lemma for_each_app {I S : Type} (body : I -> S -> Outcome S)
    (l1 l2 : list I) (s : S) :
  for_each body (l1 ++ l2) s = bind (for_each body l1 s) (for_each body l2).
Proof.
  revert s. induction l1 as [| x l1 IH]; intros s; cbn; [reflexivity |].
  destruct (body x s); cbn; auto.
Qed.

Lemma for_each_map {I J S : Type} (f : I -> J) (body : J -> S -> Outcome S)
    (l : list I) (s : S) :
  for_each body (map f l) s = for_each (fun i => body (f i)) l s.
Proof.
  revert s. induction l as [| x l IH]; intros s; cbn; [reflexivity |].
  destruct (body (f x) s); cbn; auto.
Qed.

(** The double loop visits the pairs of [list_prod] in order. *)
Lemma for_each_nested {I J S : Type} (body : I -> J -> S -> Outcome S)
    (outer : list I) (inner : list J) (s : S) :
  for_each (fun i => for_each (fun j => body i j) inner) outer s
  = for_each (fun p => body (fst p) (snd p)) (list_prod outer inner) s.
Proof.
  revert s. induction outer as [| i outer IH]; intros s; cbn [for_each list_prod];
    [reflexivity |].
  rewrite for_each_app, for_each_map. cbn [fst snd].
  destruct (for_each (fun j => body i j) inner s); cbn; auto.
Qed.

Lemma store_nth_error {A : Type} (i k : nat) (x : A) (l : list A) :
  nth_error (store i x l) k
  = if Nat.eqb i k then option_map (fun _ => x) (nth_error l k)
    else nth_error l k.
Proof.
  revert i k. induction l as [| y l IH]; intros i k.
  - destruct i, k; cbn; try reflexivity. destruct (Nat.eqb i k); reflexivity.
  - destruct i, k; cbn; try reflexivity. apply IH.
Qed.

Section BulletPass.

Variable surface_size : R * R -> Z * Z.
Variable root : (list R -> list R) -> list R -> list R.

(** One visit of the double loop: nothing on a miss; on a hit the
    asteroid and the bullet are exploded where they stand, the fragments
    are appended and the score grows by one. *)
Lemma asteroid_bullet_collision_effect (i j : nat) (s s' : Game.t) :
  Game.asteroid_bullet_collision surface_size root i j s = Returned s' ->
  (strike s (i, j) = false /\ s' = s)
  \/ (strike s (i, j) = true
      /\ exists b a fragments,
           nth_error (Game.bullets s) i = Some b
           /\ nth_error (Game.asteroids s) j = Some a
           /\ Game.score s' = (Game.score s + 1)%Z
           /\ Game.bullets s' = store i (Bullet.explode b) (Game.bullets s)
           /\ Game.asteroids s'
              = store j (Asteroid.set_alive false a) (Game.asteroids s)
                ++ fragments).
Proof.
  unfold Game.asteroid_bullet_collision, strike. cbn [fst snd].
  destruct (nth_error (Game.bullets s) i) as [b |];
    [| intros [= <-]; left; split; reflexivity].
  destruct (nth_error (Game.asteroids s) j) as [a |];
    [| intros [= <-]; left; split; reflexivity].
  destruct (Rle_dec _ _); [| intros [= <-]; left; split; reflexivity].
  destruct (Game.explode_asteroid _ _ j a s) as [s1 | |] eqn:Hexplode;
    cbn; try discriminate.
  intros [= <-]. right. split; [reflexivity |].
  apply explode_asteroid_spec in Hexplode. destruct Hexplode as [fragments ->].
  exists b, a, fragments. repeat split.
Qed.

Lemma swept_step (s0 s s' : Game.t) (visited : list (nat * nat)) (i j : nat) :
  swept s0 visited s ->
  nth_error (Game.asteroids s0) j <> None ->
  Game.asteroid_bullet_collision surface_size root i j s = Returned s' ->
  swept s0 (visited ++ [(i, j)]) s'.
Proof.
  intros [Hscore [Hbullets Hasteroids]] Hj Hstep.
  destruct (nth_error (Game.asteroids s0) j) as [a0 |] eqn:Ha0;
    [clear Hj | congruence].
  assert (Hsame : strike s (i, j) = strike s0 (i, j)).
  { unfold strike. cbn [fst snd].
    rewrite (Hbullets i), (Hasteroids j a0 Ha0), Ha0.
    destruct (nth_error (Game.bullets s0) i) as [b0 |]; cbn; [| reflexivity].
    destruct (struck_bullet s0 visited i), (struck_asteroid s0 visited j);
      reflexivity. }
  unfold swept, struck_bullet, struck_asteroid.
  rewrite filter_app, length_app. cbn [filter].
  apply asteroid_bullet_collision_effect in Hstep.
  destruct Hstep as [[Hmiss ->] | [Hhit [b [a [fragments
                       [Hb [Ha [Hscore' [Hbullets' Hasteroids']]]]]]]]].
  - rewrite Hsame in Hmiss. rewrite Hmiss. cbn [List.length].
    split; [rewrite Hscore; f_equal; lia |].
    split.
    + intros k. rewrite Hbullets. unfold struck_bullet.
      rewrite existsb_app. cbn [existsb fst]. rewrite Hmiss.
      rewrite andb_false_r, !orb_false_r. reflexivity.
    + intros k a1 Ha1. rewrite (Hasteroids k a1 Ha1). unfold struck_asteroid.
      rewrite existsb_app. cbn [existsb snd]. rewrite Hmiss.
      rewrite andb_false_r, !orb_false_r. reflexivity.
  - rewrite Hsame in Hhit. rewrite Hhit. cbn [List.length].
    split; [rewrite Hscore', Hscore; lia |].
    split.
    + intros k. rewrite Hbullets', store_nth_error, Hbullets.
      unfold struck_bullet. rewrite existsb_app. cbn [existsb fst].
      rewrite Hhit, andb_true_r, orb_false_r.
      rewrite Hbullets in Hb.
      destruct (Nat.eqb_spec i k) as [-> | Hne].
      * destruct (nth_error (Game.bullets s0) k) as [b0 |]; cbn in Hb |- *;
          [| discriminate].
        injection Hb as <-. rewrite orb_true_r.
        destruct (struck_bullet s0 visited k); destruct b0; reflexivity.
      * rewrite orb_false_r. reflexivity.
    + intros k a1 Ha1. rewrite Hasteroids'.
      pose proof (Hasteroids k a1 Ha1) as Hk.
      rewrite (nth_error_app_left _ fragments k
                 (if struck_asteroid s0 (visited ++ [(i, j)]) k
                  then Asteroid.set_alive false a1 else a1));
        [unfold struck_asteroid; reflexivity |].
      rewrite store_nth_error, Hk. unfold struck_asteroid.
      rewrite existsb_app. cbn [existsb snd].
      rewrite Hhit, andb_true_r, orb_false_r.
      destruct (Nat.eqb_spec j k) as [-> | Hne].
      * cbn. rewrite Hk in Ha. injection Ha as <-. rewrite orb_true_r.
        match goal with
        | |- context [if ?c then _ else _] => destruct c
        end; destruct a1; reflexivity.
      * rewrite orb_false_r. reflexivity.
Qed.

Lemma swept_all (s0 : Game.t) (pairs visited : list (nat * nat)) :
  Forall (fun p => nth_error (Game.asteroids s0) (snd p) <> None) pairs ->
  forall s s',
    swept s0 visited s ->
    for_each (fun p => Game.asteroid_bullet_collision surface_size root
                         (fst p) (snd p)) pairs s = Returned s' ->
    swept s0 (visited ++ pairs) s'.
Proof.
  revert visited. induction pairs as [| [i j] pairs IH];
    intros visited Hvalid s s' Hs Hrun.
  - cbn in Hrun. injection Hrun as <-. rewrite app_nil_r. exact Hs.
  - cbn [for_each fst snd] in Hrun.
    destruct (Game.asteroid_bullet_collision surface_size root i j s)
      as [s1 | |] eqn:Hstep; cbn [bind] in Hrun; try discriminate.
    inversion Hvalid as [| p ps Hj Hrest]; subst. cbn [snd] in Hj.
    replace (visited ++ (i, j) :: pairs)
      with ((visited ++ [(i, j)]) ++ pairs)
      by (rewrite <- app_assoc; reflexivity).
    apply (IH _ Hrest s1 s'); [| exact Hrun].
    apply (swept_step s0 s s1 visited i j); assumption.
Qed.

End BulletPass.

Lemma combine_seq_nth_error {A : Type} (l : list A) (start j : nat) (x : A) :
  In (j, x) (combine (seq start (List.length l)) l) ->
  (start <= j)%nat /\ nth_error l (j - start) = Some x.
Proof.
  revert start. induction l as [| y l IH]; intros start Hin; cbn in Hin.
  - contradiction.
  - destruct Hin as [[= <- <-] | Hin].
    + split; [lia |]. rewrite Nat.sub_diag. reflexivity.
    + apply IH in Hin. destruct Hin as [Hle Hget].
      split; [lia |].
      replace (j - start)%nat with (S (j - S start)) by lia. exact Hget.
Qed.

(** A position in [living] is the position of a living object. *)
Lemma living_valid {A : Type} (alive : A -> bool) (l : list A) (j : nat) :
  In j (living alive l) ->
  exists x, nth_error l j = Some x /\ alive x = true.
Proof.
  unfold living. intros Hin.
  apply in_map_iff in Hin. destruct Hin as [[j' x] [Hj Hin]].
  cbn in Hj. subst j'.
  apply filter_In in Hin. destruct Hin as [Hin Halive].
  apply combine_seq_nth_error in Hin. destruct Hin as [_ Hget].
  rewrite Nat.sub_0_r in Hget. exists x. split; assumption.
Qed.

Lemma bullet_pass_swept surface_size root (s s' : Game.t) :
  Game.handle_asteroid_bullet_collisions surface_size root s = Returned s' ->
  swept s (contacts s) s'.
Proof.
  intros Hrun.
  unfold Game.handle_asteroid_bullet_collisions in Hrun.
  rewrite for_each_nested in Hrun.
  change (contacts s) with ([] ++ contacts s).
  apply (swept_all surface_size root s (contacts s) [] ) with (s := s);
    [| | exact Hrun].
  - apply Forall_forall. intros [i j] Hin. unfold contacts in Hin.
    apply in_prod_iff in Hin. destruct Hin as [_ Hj].
    apply living_valid in Hj. destruct Hj as [a [Ha _]].
    cbn [snd]. congruence.
  - unfold swept, struck_bullet, struck_asteroid. cbn.
    split; [lia | split].
    + intros k. destruct (nth_error (Game.bullets s) k); reflexivity.
    + intros k a Ha. exact Ha.
Qed.

(** X12.  The bullet pass, pair by pair.  The pass visits every pair of a
    bullet and an asteroid that were alive when it started.  When it
    returns, the score has grown by the number of visited pairs in contact
    (distance at most the asteroid's radius), so that a bullet touching
    two asteroids, or two bullets touching one asteroid, count twice; a
    stored bullet is exploded where it stands exactly when it is in one
    of those pairs, and so is a stored asteroid; nothing else of a bullet
    or of an asteroid present at the start changes, and the ship, the
    respawn timer, the lives and the level are as they were. *)
Theorem bullet_pass_outcome surface_size root (s s' : Game.t) :
  Game.handle_asteroid_bullet_collisions surface_size root s = Returned s' ->
  Game.score s'
  = (Game.score s
     + Z.of_nat (List.length (filter (strike s) (contacts s))))%Z
  /\ (forall k,
        nth_error (Game.bullets s') k
        = option_map (fun b => if struck_bullet s (contacts s) k
                               then Bullet.explode b else b)
                     (nth_error (Game.bullets s) k))
  /\ (forall k a,
        nth_error (Game.asteroids s) k = Some a ->
        nth_error (Game.asteroids s') k
        = Some (if struck_asteroid s (contacts s) k
                then Asteroid.set_alive false a else a))
  /\ Game.ship s' = Game.ship s
  /\ Game.respawn_timer s' = Game.respawn_timer s
  /\ Game.lives s' = Game.lives s
  /\ Game.level s' = Game.level s.
Proof.
  intros Hrun.
  pose proof (handle_asteroid_bullet_collisions_spec surface_size root s s'
                Hrun) as [[Hsetup [Hlevel _]] [Hship Htimer]].
  destruct (setup_lives _ _ Hsetup) as [Hlives _].
  destruct (bullet_pass_swept surface_size root s s' Hrun)
    as [Hscore [Hbullets Hasteroids]].
  repeat split; assumption.
Qed.

Lemma bullet_pass_outcome_witness :
  exists s',
    Game.handle_asteroid_bullet_collisions unit_surface idle_root
      (session (ship_at (400, 300) true 0) 2 3
               [rock 60 (100, 100) (0, 0) true] [bullet_at (100, 100)])
    = Returned s'
    /\ Game.score s' = 1%Z.
Proof.
  destruct (handle_asteroid_bullet_collisions_returns unit_surface idle_root
              (session (ship_at (400, 300) true 0) 2 3
                       [rock 60 (100, 100) (0, 0) true]
                       [bullet_at (100, 100)])) as [s' Hrun].
  - cbn. lia.
  - exists s'. split; [exact Hrun |].
    destruct (bullet_pass_outcome unit_surface idle_root _ _ Hrun)
      as [Hscore _].
    rewrite Hscore. cbn -[Rle_dec norm2].
    unfold strike. cbn -[Rle_dec norm2].
    destruct (Rle_dec _ _) as [_ | Hfar]; [reflexivity |].
    exfalso. apply Hfar. unfold norm2, sub2. cbn.
    replace ((100 - 100) * (100 - 100) + (100 - 100) * (100 - 100)) with 0
      by ring.
    rewrite sqrt_0. lra.
Defined.

(** ** The ship against asteroids *)

Section ShipPass.

Variable surface_size : R * R -> Z * Z.
Variable root : (list R -> list R) -> list R -> list R.

Lemma asteroid_ship_collision_effect (j : nat) (s s' : Game.t) :
  Game.asteroid_ship_collision surface_size root j s = Returned s' ->
  (touches s j = false /\ s' = s)
  \/ (touches s j = true
      /\ exists a fragments,
           nth_error (Game.asteroids s) j = Some a
           /\ Game.ship s' = Ship.explode (Game.ship s)
           /\ Game.respawn_timer s' = Game.respawn_period s
           /\ Game.respawn_period s' = Game.respawn_period s
           /\ Game.score s' = Game.score s
           /\ Game.bullets s' = Game.bullets s
           /\ Game.asteroids s'
              = store j (Asteroid.set_alive false a) (Game.asteroids s)
                ++ fragments).
Proof.
  unfold Game.asteroid_ship_collision, touches.
  destruct (nth_error (Game.asteroids s) j) as [a |];
    [| intros [= <-]; left; split; reflexivity].
  destruct (Rle_dec _ _); [| intros [= <-]; left; split; reflexivity].
  destruct (Game.explode_asteroid _ _ j a _) as [s1 | |] eqn:Hexplode;
    cbn; try discriminate.
  intros [= <-]. right. split; [reflexivity |].
  apply explode_asteroid_spec in Hexplode. destruct Hexplode as [fragments ->].
  exists a, fragments. repeat split.
Qed.

Lemma rammed_step (s0 s s' : Game.t) (visited : list nat) (j : nat) :
  rammed s0 visited s ->
  nth_error (Game.asteroids s0) j <> None ->
  Game.asteroid_ship_collision surface_size root j s = Returned s' ->
  rammed s0 (visited ++ [j]) s'.
Proof.
  intros [Hship [Htimer [Hperiod [Hscore [Hbullets Hasteroids]]]]] Hj Hstep.
  destruct (nth_error (Game.asteroids s0) j) as [a0 |] eqn:Ha0;
    [clear Hj | congruence].
  assert (Hsame : touches s j = touches s0 j).
  { unfold touches. rewrite (Hasteroids j a0 Ha0), Ha0, Hship.
    destruct (existsb (touches s0) visited);
      destruct (existsb _ visited); reflexivity. }
  unfold rammed. rewrite !existsb_app. cbn [existsb].
  apply asteroid_ship_collision_effect in Hstep.
  destruct Hstep as [[Hmiss ->] | [Hhit [a [fragments
      [Ha [Hship' [Htimer' [Hperiod' [Hscore' [Hbullets' Hasteroids']]]]]]]]]].
  - rewrite Hsame in Hmiss. rewrite Hmiss, !orb_false_r.
    repeat split; try assumption.
    intros k a1 Ha1. rewrite (Hasteroids k a1 Ha1).
    rewrite existsb_app. cbn [existsb].
    rewrite Hmiss, andb_false_r, !orb_false_r. reflexivity.
  - rewrite Hsame in Hhit. rewrite Hhit, !orb_true_r.
    split; [| split; [congruence | split; [congruence |
      split; [congruence | split; [congruence |]]]]].
    + rewrite Hship', Hship.
      destruct (existsb (touches s0) visited); reflexivity.
    + intros k a1 Ha1. rewrite Hasteroids'.
      pose proof (Hasteroids k a1 Ha1) as Hk.
      erewrite nth_error_app_left; [reflexivity |].
      rewrite store_nth_error, Hk.
      rewrite existsb_app. cbn [existsb].
      rewrite Hhit, andb_true_r, orb_false_r.
      destruct (Nat.eqb_spec j k) as [-> | Hne].
      * cbn. rewrite Hk in Ha. injection Ha as <-. rewrite orb_true_r.
        match goal with
        | |- context [if ?c then _ else _] => destruct c
        end; destruct a1; reflexivity.
      * rewrite orb_false_r. reflexivity.
Qed.

Lemma rammed_all (s0 : Game.t) (js visited : list nat) :
  Forall (fun j => nth_error (Game.asteroids s0) j <> None) js ->
  forall s s',
    rammed s0 visited s ->
    for_each (Game.asteroid_ship_collision surface_size root) js s
    = Returned s' ->
    rammed s0 (visited ++ js) s'.
Proof.
  revert visited. induction js as [| j js IH];
    intros visited Hvalid s s' Hs Hrun.
  - cbn in Hrun. injection Hrun as <-. rewrite app_nil_r. exact Hs.
  - cbn [for_each] in Hrun.
    destruct (Game.asteroid_ship_collision surface_size root j s)
      as [s1 | |] eqn:Hstep; cbn [bind] in Hrun; try discriminate.
    inversion Hvalid as [| p ps Hj Hrest]; subst.
    replace (visited ++ j :: js) with ((visited ++ [j]) ++ js)
      by (rewrite <- app_assoc; reflexivity).
    apply (IH _ Hrest s1 s'); [| exact Hrun].
    apply (rammed_step s0 s s1 visited j); assumption.
Qed.

End ShipPass.

Lemma ship_pass_rammed surface_size root (s s' : Game.t) :
  Game.handle_asteroid_ship_collisions surface_size root s = Returned s' ->
  (Ship.is_alive (Game.ship s) = false /\ s' = s)
  \/ (Ship.is_alive (Game.ship s) = true
      /\ rammed s (living Asteroid.is_alive (Game.asteroids s)) s').
Proof.
  intros Hrun. unfold Game.handle_asteroid_ship_collisions in Hrun.
  destruct (Ship.is_alive (Game.ship s)) eqn:Halive; cbn [negb] in Hrun.
  - right. split; [reflexivity |].
    change (living Asteroid.is_alive (Game.asteroids s))
      with ([] ++ living Asteroid.is_alive (Game.asteroids s)).
    apply (rammed_all surface_size root s _ []) with (s := s);
      [| | exact Hrun].
    + apply Forall_forall. intros j Hj.
      apply living_valid in Hj. destruct Hj as [a [Ha _]]. congruence.
    + unfold rammed. cbn. repeat split. intros k a Ha. exact Ha.
  - left. injection Hrun as <-. split; reflexivity.
Qed.

(** X13.  The ship pass.  A dead ship collides with nothing: the pass
    returns the session as it is.  For a living ship the pass visits
    every asteroid that was alive when it started; when it returns, the
    ship is exploded exactly when one of them was in contact (distance at
    most the asteroid's radius), the respawn timer is then set to the
    respawn period, every asteroid in contact is exploded where it stands
    and no other asteroid present at the start changes; the score and the
    bullets are as they were either way. *)
Theorem ship_pass_outcome surface_size root (s s' : Game.t) :
  Game.handle_asteroid_ship_collisions surface_size root s = Returned s' ->
  let visited := living Asteroid.is_alive (Game.asteroids s) in
  (Ship.is_alive (Game.ship s) = false -> s' = s)
  /\ (Ship.is_alive (Game.ship s) = true ->
      Game.ship s'
      = (if existsb (touches s) visited
         then Ship.explode (Game.ship s) else Game.ship s)
      /\ Game.respawn_timer s'
         = (if existsb (touches s) visited
            then Game.respawn_period s else Game.respawn_timer s)
      /\ (forall k a,
            nth_error (Game.asteroids s) k = Some a ->
            nth_error (Game.asteroids s') k
            = Some (if existsb (fun j => Nat.eqb j k && touches s j) visited
                    then Asteroid.set_alive false a else a)))
  /\ Game.score s' = Game.score s
  /\ Game.bullets s' = Game.bullets s.
Proof.
  intros Hrun. cbv zeta.
  destruct (ship_pass_rammed surface_size root s s' Hrun)
    as [[Hdead ->] | [Halive Hrammed]].
  - split; [reflexivity |]. split; [congruence |]. split; reflexivity.
  - destruct Hrammed as [Hship [Htimer [_ [Hscore [Hbullets Hasteroids]]]]].
    split; [congruence |]. repeat split; assumption.
Qed.

Lemma ship_pass_outcome_witness :
  exists s',
    Game.handle_asteroid_ship_collisions unit_surface idle_root
      (session (ship_at (400, 300) true 0) 2 1
               [rock 60 (400, 300) (0, 0) true] [])
    = Returned s'
    /\ Ship.is_alive (Game.ship s') = false
    /\ Game.respawn_timer s' = 3.
Proof.
  destruct (handle_asteroid_ship_collisions_returns unit_surface idle_root
              (session (ship_at (400, 300) true 0) 2 1
                       [rock 60 (400, 300) (0, 0) true] []))
    as [s' Hrun].
  - cbn. lia.
  - exists s'. split; [exact Hrun |].
    destruct (ship_pass_outcome unit_surface idle_root _ _ Hrun)
      as [_ [Halive _]].
    destruct (Halive eq_refl) as [Hship [Htimer _]].
    assert (Htouch :
              touches (session (ship_at (400, 300) true 0) 2 1
                               [rock 60 (400, 300) (0, 0) true] []) 0
              = true).
    { unfold touches. cbn -[Rle_dec norm2].
      destruct (Rle_dec _ _) as [_ | Hfar]; [reflexivity |].
      exfalso. apply Hfar. unfold norm2, sub2. cbn.
      replace ((400 - 400) * (400 - 400) + (300 - 300) * (300 - 300)) with 0
        by ring.
      rewrite sqrt_0. lra. }
    cbn [living session Game.asteroids List.length seq combine filter
         Asteroid.is_alive rock Asteroid.alive snd map fst existsb]
      in Hship, Htimer.
    rewrite Htouch in Hship, Htimer. cbn [orb] in Hship, Htimer.
    rewrite Hship, Htimer. split; reflexivity.
Defined.

(** ** Wraparound keeps sprites in range *)

Section Range.

Context {A : Type} `{SpriteLaws A}.

Lemma boundary_frame (self : Game.t) (sprite : A) :
  is_alive (Game.handle_boundary_crossings self sprite) = is_alive sprite
  /\ get_size (Game.handle_boundary_crossings self sprite) = get_size sprite.
Proof.
  unfold Game.handle_boundary_crossings.
  destruct (is_alive sprite) eqn:Halive; cbn [negb];
    [| split; [exact Halive | reflexivity]].
  destruct (get_size sprite) as [width height] eqn:Hsize.
  repeat match goal with
         | |- context [Rlt_dec ?a ?b] => destruct (Rlt_dec a b)
         | |- context [Rgt_dec ?a ?b] => destruct (Rgt_dec a b)
         end;
    rewrite ?is_alive_set_position, ?get_size_set_position;
    split; assumption.
Qed.

Lemma boundary_in_range (self : Game.t) (sprite : A) :
  - IZR (fst (get_size sprite)) / 2 <= fst (position sprite)
    <= IZR (fst (Game.window_size self)) + IZR (fst (get_size sprite)) / 2 ->
  - IZR (snd (get_size sprite)) / 2 <= snd (position sprite)
    <= IZR (snd (Game.window_size self)) + IZR (snd (get_size sprite)) / 2 ->
  Game.handle_boundary_crossings self sprite = sprite.
Proof.
  intros Hx Hy. unfold Game.handle_boundary_crossings.
  destruct (is_alive sprite); cbn [negb]; [| reflexivity].
  revert Hx Hy.
  destruct (get_size sprite) as [width height]. cbn [fst snd].
  intros Hx Hy.
  destruct (Rlt_dec (fst (position sprite)) (- IZR width / 2)); [lra |].
  destruct (Rgt_dec (fst (position sprite))
              (IZR (fst (Game.window_size self)) + IZR width / 2)); [lra |].
  destruct (Rlt_dec (snd (position sprite)) (- IZR height / 2)); [lra |].
  destruct (Rgt_dec (snd (position sprite))
              (IZR (snd (Game.window_size self)) + IZR height / 2)); [lra |].
  reflexivity.
Qed.

End Range.

(** X14.  After the wraparound step a live sprite is inside the window
    widened by half its size on every side, and a second wraparound step
    changes nothing; the step never changes the size or the liveness of a
    sprite.  (Window and sprite sizes are taken non-negative.) *)
Theorem wraparound_keeps_in_range (A : Type) `{SpriteLaws A}
    (self : Game.t) (sprite : A) :
  is_alive sprite = true ->
  0 <= IZR (fst (Game.window_size self)) + IZR (fst (get_size sprite)) ->
  0 <= IZR (snd (Game.window_size self)) + IZR (snd (get_size sprite)) ->
  let sprite' := Game.handle_boundary_crossings self sprite in
  (- IZR (fst (get_size sprite)) / 2 <= fst (position sprite')
   <= IZR (fst (Game.window_size self)) + IZR (fst (get_size sprite)) / 2)
  /\ (- IZR (snd (get_size sprite)) / 2 <= snd (position sprite')
      <= IZR (snd (Game.window_size self)) + IZR (snd (get_size sprite)) / 2)
  /\ Game.handle_boundary_crossings self sprite' = sprite'
  /\ is_alive sprite' = true
  /\ get_size sprite' = get_size sprite.
Proof.
  intros Halive Hwide Hhigh. cbv zeta.
  destruct (boundary_frame self sprite) as [Halive' Hsize'].
  assert (Hrange :
    (- IZR (fst (get_size sprite)) / 2
     <= fst (position (Game.handle_boundary_crossings self sprite))
     <= IZR (fst (Game.window_size self)) + IZR (fst (get_size sprite)) / 2)
    /\ (- IZR (snd (get_size sprite)) / 2
        <= snd (position (Game.handle_boundary_crossings self sprite))
        <= IZR (snd (Game.window_size self))
           + IZR (snd (get_size sprite)) / 2)).
  { rewrite (boundary_position self sprite Halive). cbn [fst snd].
    unfold wrap_coordinate.
    split;
      repeat match goal with
             | |- context [Rlt_dec ?a ?b] => destruct (Rlt_dec a b)
             | |- context [Rgt_dec ?a ?b] => destruct (Rgt_dec a b)
             end; lra. }
  destruct Hrange as [Hx Hy].
  split; [exact Hx | split; [exact Hy | split; [| split]]].
  - apply boundary_in_range; rewrite Hsize'; assumption.
  - rewrite Halive'. exact Halive.
  - exact Hsize'.
Qed.

Lemma wraparound_keeps_in_range_witness :
  Game.handle_boundary_crossings
    (session (ship_at (400, 300) true 0) 2 3 [] [])
    (Game.handle_boundary_crossings
       (session (ship_at (400, 300) true 0) 2 3 [] [])
       (bullet_at (-20, 700)))
  = Game.handle_boundary_crossings
      (session (ship_at (400, 300) true 0) 2 3 [] [])
      (bullet_at (-20, 700)).
Proof.
  destruct (wraparound_keeps_in_range Bullet.t
              (session (ship_at (400, 300) true 0) 2 3 [] [])
              (bullet_at (-20, 700))) as [_ [_ [Hagain _]]].
  - reflexivity.
  - cbn. lra.
  - cbn. lra.
  - exact Hagain.
Defined.

(** ** Events reaching the session *)

(** X15.  [Game.handle_event] and the bullets.  A space key-down with the
    ship's reload timer at most 0 appends exactly one bullet, alive and of
    age 0, at the end of the bullet list, whether the ship is alive or
    dead; every other event leaves the bullet list as it is.  No event
    changes the score, the level, the lives, the respawn timer, the
    asteroids or the liveness of the ship, and an event that is neither a
    key-down nor a key-up changes nothing at all. *)
Theorem handle_event_bullets (event : Event) (self : Game.t) :
  let self' := Game.handle_event event self in
  (event = fire_request -> Ship.reloading (Game.ship self) <= 0 ->
   exists bullet,
     Game.bullets self' = Game.bullets self ++ [bullet]
     /\ Bullet.is_alive bullet = true
     /\ Bullet.age bullet = 0
     /\ Ship.reloading (Game.ship self') = Ship.reload_period (Game.ship self))
  /\ (~ (event = fire_request /\ Ship.reloading (Game.ship self) <= 0) ->
      Game.bullets self' = Game.bullets self)
  /\ Game.score self' = Game.score self
  /\ Game.level self' = Game.level self
  /\ Game.lives self' = Game.lives self
  /\ Game.respawn_timer self' = Game.respawn_timer self
  /\ Game.asteroids self' = Game.asteroids self
  /\ Ship.is_alive (Game.ship self') = Ship.is_alive (Game.ship self)
  /\ (type event = OTHER_EVENT -> self' = self).
Proof.
  cbv zeta. destruct event as [kind k].
  unfold Game.handle_event, Ship.handle_event. cbn [type key].
  destruct kind, k; cbn;
    try (repeat split; try discriminate;
         try (intros [[=] _]); try (intros Hno; reflexivity);
         try (intros [=]); reflexivity).
  destruct (Rle_dec (Ship.reloading (Game.ship self)) 0) as [Hready | Hbusy];
    cbn.
  - split; [| repeat split].
    + intros _ _. eexists. repeat split.
    + intros Hno. exfalso. apply Hno. split; [reflexivity | exact Hready].
    + discriminate.
  - split; [| repeat split].
    + intros _ Hready. contradiction.
    + discriminate.
Qed.

(** ** A whole tick *)


Lemma pointwise_length {A B : Type} (f : nat -> B -> A) (l' : list A)
    (l : list B) :
  (forall k, nth_error l' k = option_map (f k) (nth_error l k)) ->
  List.length l' = List.length l.
Proof.
  intros Hpoint. apply Nat.le_antisymm.
  - apply nth_error_None. rewrite Hpoint.
    rewrite (proj2 (nth_error_None l (List.length l))); [reflexivity | lia].
  - apply nth_error_None.
    pose proof (Hpoint (List.length l')) as Hk.
    rewrite (proj2 (nth_error_None l' (List.length l'))) in Hk by lia.
    destruct (nth_error l (List.length l')); [discriminate | reflexivity].
Qed.

Section Counters.

Variable rotate_size : Z * Z -> Vec3 -> Z * Z.
Variable surface_size : R * R -> Z * Z.
Variable root : (list R -> list R) -> list R -> list R.

Lemma tick_sprites_counters (fuel : nat) (dt : R) (s mid : Game.t)
    (g g' : Rng) :
  Game.tick_sprites rotate_size surface_size root fuel dt s g
  = Returned (mid, g') ->
  (Game.score s <= Game.score mid)%Z
  /\ List.length (Game.bullets mid) = List.length (Game.bullets s)
  /\ (Game.level mid = Game.level s
      \/ Game.level mid = (Game.level s + 1)%Z).
Proof.
  unfold Game.tick_sprites.
  destruct (Game.handle_asteroid_bullet_collisions _ _ s) as [s1 | |] eqn:H1;
    cbn; try discriminate.
  destruct (Game.handle_asteroid_ship_collisions _ _ s1) as [s2 | |] eqn:H2;
    cbn; try discriminate.
  intros H4.
  pose proof (handle_asteroid_bullet_collisions_spec _ _ _ _ H1)
    as [[_ [Hlevel1 _]] _].
  destruct (bullet_pass_swept _ _ _ _ H1) as [Hscore1 [Hbullets1 _]].
  apply pointwise_length in Hbullets1.
  pose proof (handle_asteroid_ship_collisions_spec _ _ _ _ H2)
    as [[_ [Hlevel2 _]] _].
  assert (Hpass2 : Game.score s2 = Game.score s1
                   /\ Game.bullets s2 = Game.bullets s1).
  { destruct (ship_pass_rammed _ _ _ _ H2)
      as [[_ ->] | [_ [_ [_ [_ [Hscore2 [Hbullets2 _]]]]]]];
      split; auto. }
  destruct Hpass2 as [Hscore2 Hbullets2].
  destruct (update_sprites_spec rotate_size dt s2)
    as [_ [Hlevel3 [_ [Hscore3 [_ [Hbullets3 _]]]]]].
  apply level_up_spec in H4.
  destruct H4 as [_ [_ [_ [Hbullets4 [Hscore4 Hlevel4]]]]].
  split; [lia | split].
  - rewrite Hbullets4, Hbullets3, length_map. congruence.
  - destruct Hlevel4 as [[_ Hsame] | [_ Hnext]]; [left | right]; congruence.
Qed.

Lemma respawn_or_end_counters (dt : R) (s : Game.t) :
  let s' := snd (Game.respawn_or_end rotate_size dt s) in
  Game.score s' = Game.score s
  /\ Game.respawn_timer s' = Game.respawn_timer s - dt
  /\ (Game.lives s' = Game.lives s
      \/ ((0 < Game.lives s)%Z /\ Game.lives s' = (Game.lives s - 1)%Z))
  /\ (fst (Game.respawn_or_end rotate_size dt s) = Game.OVER ->
      (Game.lives s <= 0)%Z
      /\ Ship.is_alive (Game.ship s) = false
      /\ Game.respawn_timer s - dt <= 1
      /\ s' = Game.set_respawn_timer (Game.respawn_timer s - dt) s).
Proof.
  clear surface_size root.
  cbv zeta. unfold Game.respawn_or_end. cbn.
  destruct (Ship.is_alive (Game.ship s)); cbn;
    [repeat split; try discriminate; left; reflexivity |].
  destruct (Rle_dec (Game.respawn_timer s - dt) 1); cbn;
    [| repeat split; try discriminate; left; reflexivity].
  destruct (Z.leb_spec (Game.lives s) 0); cbn.
  - repeat split; try assumption. left. reflexivity.
  - repeat split; try discriminate. right. split; [lia | reflexivity].
Qed.

End Counters.

(** X16.  The counters over a tick.  A tick that returns never lowers the
    score, raises the level by one or not at all, takes one life or none
    and never takes a life that is not there, lowers the respawn timer by
    [dt] unless the ship was destroyed in this frame, and neither adds
    nor removes a bullet: dead bullets stay in the list. *)
Theorem tick_counters rotate_size surface_size root (fuel : nat) (dt : R)
    (s s' : Game.t) (g g' : Rng) (status : Game.Status) :
  Game.tick rotate_size surface_size root fuel dt s g
  = Returned (status, s', g') ->
  (Game.score s <= Game.score s')%Z
  /\ (Game.level s' = Game.level s \/ Game.level s' = (Game.level s + 1)%Z)
  /\ (Game.lives s' = Game.lives s
      \/ ((0 < Game.lives s)%Z /\ Game.lives s' = (Game.lives s - 1)%Z))
  /\ ((0 <= Game.lives s)%Z -> (0 <= Game.lives s')%Z)
  /\ List.length (Game.bullets s') = List.length (Game.bullets s)
  /\ (Ship.is_alive (Game.ship s) = false ->
      Game.respawn_timer s' = Game.respawn_timer s - dt).
Proof.
  intros Htick.
  apply tick_unfold in Htick. destruct Htick as [mid [Hsprites ->]].
  destruct (tick_sprites_counters _ _ _ _ _ _ _ _ _ Hsprites)
    as [Hscore [Hbullets Hlevel]].
  apply tick_sprites_spec in Hsprites.
  destruct Hsprites as [Hsetup [_ [_ Hship]]].
  destruct (setup_lives _ _ Hsetup) as [Hlives _].
  destruct (respawn_or_end_counters rotate_size dt mid)
    as [Hscore' [Htimer' [Hlives' _]]].
  destruct (respawn_or_end_frame rotate_size dt mid)
    as [Hbullets' [_ [Hlevel' _]]].
  rewrite Hscore', Hlevel', Hbullets', Htimer'.
  split; [exact Hscore | split; [exact Hlevel | split; [| split; [| split]]]].
  - rewrite <- Hlives. exact Hlives'.
  - rewrite <- Hlives. destruct Hlives' as [-> | [Hsome ->]]; lia.
  - exact Hbullets.
  - intros Hdead. destruct (Hship Hdead) as [_ ->]. reflexivity.
Qed.

Lemma tick_counters_witness :
  exists status s' g',
    Game.tick same_size unit_surface idle_root 1 1
      (session (ship_at (400, 300) false 0) 2 3 []
               [Bullet.explode (bullet_at (50, 50))]) steady_rng
    = Returned (status, s', g')
    /\ List.length (Game.bullets s') = 1%nat.
Proof.
  destruct (tick_returns_ship_dead same_size unit_surface idle_root 0 1
              (session (ship_at (400, 300) false 0) 2 3 []
                       [Bullet.explode (bullet_at (50, 50))]) steady_rng)
    as [status [s' [g' Htick]]].
  - reflexivity.
  - cbn. lia.
  - exists status, s', g'. split; [exact Htick |].
    destruct (tick_counters _ _ _ _ _ _ _ _ _ _ Htick)
      as [_ [_ [_ [_ [Hbullets _]]]]].
    exact Hbullets.
Defined.

Lemma tick_unfold_status rotate_size surface_size root (fuel : nat) (dt : R)
    (s self' : Game.t) (g g' : Rng) (status : Game.Status) :
  Game.tick rotate_size surface_size root fuel dt s g
  = Returned (status, self', g') ->
  exists mid,
    Game.tick_sprites rotate_size surface_size root fuel dt s g
    = Returned (mid, g')
    /\ Game.respawn_or_end rotate_size dt mid = (status, self').
Proof.
  unfold Game.tick.
  destruct (Game.tick_sprites _ _ _ fuel dt s g) as [[mid g1] | |];
    cbn; try discriminate.
  destruct (Game.respawn_or_end rotate_size dt mid) as [status1 s1] eqn:Hend.
  intros [= <- <- <-]. exists mid. split; [reflexivity | exact Hend].
Qed.

(** X17.  The end of the game is final.  After a tick has returned
    [OVER], every further tick with a time step that is not negative (and
    at least two fragments per explosion) returns [OVER] as well, with
    the lives as they were: the ship stays dead, no life comes back and
    the respawn timer only runs down. *)
Theorem game_over_is_final rotate_size surface_size root (fuel fuel' : nat)
    (dt dt' : R) (s s' : Game.t) (g g' g0 : Rng) :
  Game.tick rotate_size surface_size root fuel dt s g
  = Returned (Game.OVER, s', g') ->
  0 <= dt' ->
  (2 <= Game.fragments_count s)%Z ->
  exists s'' g'',
    Game.tick rotate_size surface_size root (S fuel') dt' s' g0
    = Returned (Game.OVER, s'', g'')
    /\ Game.lives s'' = Game.lives s'
    /\ (Game.lives s' <= 0)%Z
    /\ Ship.is_alive (Game.ship s'') = false
    /\ (Game.score s' <= Game.score s'')%Z.
Proof.
  intros Htick Hdt Hn.
  apply tick_unfold_status in Htick. destruct Htick as [mid [Hsprites Hend]].
  pose proof (tick_sprites_spec _ _ _ _ _ _ _ _ _ Hsprites) as [Hsetup _].
  destruct (respawn_or_end_counters rotate_size dt mid) as [_ [_ [_ Hover]]].
  rewrite Hend in Hover. cbn [fst snd] in Hover.
  destruct (Hover eq_refl) as [Hlives [Hdead [Htimer ->]]].
  set (s' := Game.set_respawn_timer (Game.respawn_timer mid - dt) mid) in *.
  assert (Hn' : (2 <= Game.fragments_count s')%Z).
  { unfold setup in Hsetup. injection Hsetup as _ _ _ _ _ Hcount _ _ _.
    cbn. congruence. }
  assert (Hdead' : Ship.is_alive (Game.ship s') = false) by exact Hdead.
  destruct (tick_sprites_ship_dead rotate_size surface_size root fuel' dt'
              s' g0 Hdead' Hn') as [mid' [g'' Hsprites']].
  destruct (tick_sprites_counters _ _ _ _ _ _ _ _ _ Hsprites')
    as [Hscore _].
  destruct (tick_sprites_spec _ _ _ _ _ _ _ _ _ Hsprites')
    as [Hsetup' [_ [_ Hship']]].
  destruct (Hship' Hdead') as [Hmid' Htimer'].
  destruct (setup_lives _ _ Hsetup') as [Hlives' _].
  assert (Hdead'' : Ship.is_alive (Game.ship mid') = false).
  { rewrite Hmid'. apply ship_tick_dead. exact Hdead'. }
  destruct (respawn_or_end_spec rotate_size dt' mid') as [Hagain _].
  exists (Game.set_respawn_timer (Game.respawn_timer mid' - dt') mid'), g''.
  unfold Game.tick. rewrite Hsprites'. cbn [bind fst snd].
  rewrite Hagain.
  - split; [reflexivity |].
    split; [exact Hlives' |].
    split; [exact Hlives |].
    split; [exact Hdead'' | exact Hscore].
  - split; [exact Hdead'' |]. rewrite Htimer'. cbn. lra.
  - rewrite Hlives'. exact Hlives.
Qed.

Lemma game_over_is_final_witness :
  exists s' g' s'' g'',
    Game.tick same_size unit_surface idle_root 1 1
      (session (ship_at (400, 300) false 0) 0 (3 / 2) [] []) steady_rng
    = Returned (Game.OVER, s', g')
    /\ Game.tick same_size unit_surface idle_root 1 1 s' g'
       = Returned (Game.OVER, s'', g'').
Proof.
  pose (s := session (ship_at (400, 300) false 0) 0 (3 / 2) [] []).
  destruct (tick_returns_ship_dead same_size unit_surface idle_root 0 1
              s steady_rng eq_refl) as [status [s' [g' Htick]]].
  { cbn. lia. }
  assert (Hstatus : status = Game.OVER).
  { destruct (tick_unfold_status _ _ _ _ _ _ _ _ _ _ Htick)
      as [mid [Hsprites Hend]].
    destruct (tick_sprites_spec _ _ _ _ _ _ _ _ _ Hsprites)
      as [Hsetup [_ [_ Hship]]].
    destruct (Hship eq_refl) as [Hmid Htimer].
    destruct (setup_lives _ _ Hsetup) as [Hlives _].
    destruct (respawn_or_end_spec same_size 1 mid) as [Hover _].
    rewrite Hover in Hend.
    - congruence.
    - split; [rewrite Hmid; apply ship_tick_dead; reflexivity |].
      rewrite Htimer. cbn. lra.
    - rewrite Hlives. cbn. lia. }
  subst status.
  destruct (game_over_is_final same_size unit_surface idle_root 1 0 1 1
              s s' steady_rng g' g' Htick) as [s'' [g'' [Hagain _]]].
  - lra.
  - cbn. lia.
  - exists s', g', s'', g''. split; [exact Htick | exact Hagain].
Defined.

(** ** The opening of a session *)

Lemma freshly_spawned_clear (s : Game.t) (a : Asteroid.t) :
  Ship.is_alive (Game.ship s) = true ->
  freshly_spawned s a ->
  Asteroid.diameter a / 2
  < norm2 (sub2 (Ship.position (Game.ship s)) (Asteroid.position a)).
Proof.
  intros Halive [_ [_ [_ [_ [_ [_ [Hclear _]]]]]]]. exact (Hclear Halive).
Qed.

(** X18.  The opening of a session.  When [Game.__init__] returns, in a
    window of positive size and with draws in range, the score is 0, the
    level is 1, one of the initial lives is already in play, the respawn
    timer shows the respawn period, no bullet exists, and the ship is
    alive at the window centre, at rest, nose up.  The field holds
    [asteroids count] freshly spawned asteroids, and none of them
    overlaps the ship: each is farther from the window centre than its
    own radius. *)
Theorem session_start rotate_size surface_size (fuel : nat)
    (window_size : Z * Z) (color : Color) (config : option Config)
    (g g' : Rng) (s : Game.t) :
  Game.init rotate_size surface_size fuel window_size color config g
  = Returned (s, g') ->
  Rng_ok g ->
  (0 < fst window_size)%Z ->
  (0 < snd window_size)%Z ->
  let centre := (IZR (fst window_size) / 2, IZR (snd window_size) / 2) in
  Game.score s = 0%Z
  /\ Game.level s = 1%Z
  /\ Game.lives s
     = (cfg config game_initial_lives Game.default_initial_lives - 1)%Z
  /\ Game.respawn_timer s = Game.respawn_period s
  /\ Game.bullets s = []
  /\ Ship.is_alive (Game.ship s) = true
  /\ Ship.position (Game.ship s) = centre
  /\ Ship.v_cm (Game.ship s) = (0, 0, 0)
  /\ Ship.u_nose_cm (Game.ship s) = (0, -1, 0)
  /\ List.length (Game.asteroids s) = Z.to_nat (Game.asteroids_count s)
  /\ Forall (freshly_spawned s) (Game.asteroids s)
  /\ Forall (fun a => Asteroid.diameter a / 2
                      < norm2 (sub2 centre (Asteroid.position a)))
            (Game.asteroids s)
  /\ Rng_ok g'.
Proof.
  intros Hrun Hg Hwidth Hheight centre. unfold Game.init in Hrun.
  match type of Hrun with
  | context [Game.spawn_asteroids _ _ ?s0 _] => set (self := s0) in *
  end.
  destruct (Game.spawn_asteroids surface_size fuel self g)
    as [[field g1] | |] eqn:Hspawn; cbn [bind fst snd] in Hrun;
    try discriminate.
  injection Hrun as <- <-.
  unfold Game.spawn_asteroids in Hspawn.
  destruct (spawn_loop_spec surface_size fuel self _ Hwidth Hheight _ _ _ _
              Hspawn Hg (Forall_nil _)) as [Hlen [Hall Hg1]].
  rewrite length_seq in Hlen. cbn [List.length Nat.add] in Hlen.
  destruct (new_ship_pose rotate_size (Game.ship_spawn_parameters self)
              color config) as [Hposition [Hvelocity Halive]].
  assert (Hclear :
            Forall (fun a => Asteroid.diameter a / 2
                             < norm2 (sub2 centre (Asteroid.position a)))
                   field).
  { eapply Forall_impl; [| exact Hall].
    intros a Ha. apply (freshly_spawned_clear self a Halive) in Ha.
    change (Game.ship self)
      with (Game.new_ship rotate_size (Game.ship_spawn_parameters self)
                          color config) in Ha.
    rewrite Hposition in Ha. exact Ha. }
  split; [reflexivity |].
  split; [reflexivity |].
  split; [reflexivity |].
  split; [reflexivity |].
  split; [reflexivity |].
  split; [exact Halive |].
  split; [exact Hposition |].
  split; [exact Hvelocity |].
  split; [apply init_heading_up |].
  split; [exact Hlen |].
  split; [exact Hall |].
  split; [exact Hclear | exact Hg1].
Qed.

(** The rejection loop ends at once on a position outside the circle of
    the asteroid. *)
Lemma spawn_somewhere_clear (fuel : nat) (s : Game.t) (diameter : R)
    (g : Rng) :
  diameter / 2
  < norm2 (sub2 (Ship.position (Game.ship s))
                (fst (Asteroid.generate_position (Game.window_size s) g))) ->
  Game.spawn_somewhere (S fuel) s diameter g
  = Returned (Asteroid.generate_position (Game.window_size s) g).
Proof.
  intros Hfar. cbn -[Asteroid.generate_position].
  destruct (Asteroid.generate_position (Game.window_size s) g)
    as [position g1]. cbn [fst] in Hfar.
  destruct (Rle_dec _ _) as [Hnear | _]; [lra |].
  rewrite andb_false_r. reflexivity.
Qed.

(** With [offside_rng] in an 800 x 600 window and the ship at the centre,
    every asteroid is placed at the first draw. *)
Lemma spawn_asteroids_offside surface_size (fuel : nat) (s : Game.t) :
  Game.window_size s = (800, 600)%Z ->
  Ship.position (Game.ship s) = (800 / 2, 600 / 2) ->
  exists field g',
    Game.spawn_asteroids surface_size (S fuel) s offside_rng
    = Returned (field, g').
Proof.
  intros Hwindow Hship. unfold Game.spawn_asteroids.
  set (P := fun acc : list Asteroid.t * Rng =>
              forall n, standard_exponential (snd acc) n = 1
                        /\ random (snd acc) n = 1 / 4).
  destruct (for_each_returns P
              (fun _ : nat => Game.spawn_asteroid surface_size (S fuel) s)
              (seq 0 (Z.to_nat (Game.asteroids_count s))))
    with (s := ([] : list Asteroid.t, offside_rng))
    as [[field g'] [Hrun _]].
  - intros _ [acc g] Hdraws. unfold P in Hdraws. cbn [snd] in Hdraws.
    unfold Game.spawn_asteroid.
    unfold Asteroid.generate_diameter, exponential. cbn [cfg].
    rewrite (proj1 (Hdraws _)).
    rewrite spawn_somewhere_clear.
    + unfold Asteroid.generate_position, uniform2.
      cbn -[Asteroid.generate_velocity].
      destruct (Asteroid.generate_velocity None _) as [velocity g3] eqn:Hv.
      eexists. split; [reflexivity |].
      unfold P. cbn [snd]. intros n.
      unfold Asteroid.generate_velocity, exponential, uniform2 in Hv.
      cbn in Hv. injection Hv as _ <-. cbn. apply Hdraws.
    + rewrite Hwindow, Hship.
      unfold Asteroid.generate_position, uniform2.
      cbn [fst snd advance random cursor].
      rewrite !(proj2 (Hdraws _)).
      unfold Asteroid.default_median_diameter,
        Asteroid.default_minimum_diameter.
      assert (Hdiameter : IZR (60 - 30) / ln 2 * 1 + 30 < 90).
      { pose proof ln_lt_2 as Hln.
        assert (Hq : 30 / ln 2 < 60).
        { apply Rmult_lt_reg_r with (ln 2); [lra |].
          unfold Rdiv. rewrite Rmult_assoc, Rinv_l by lra. lra. }
        change (IZR (60 - 30)) with 30. lra. }
      apply Rlt_le_trans with 45; [lra |].
      apply sqrt_above; [lra |]. unfold sub2. cbn [fst snd]. lra.
  - intros n. cbn. split; reflexivity.
  - exists field, g'. exact Hrun.
Qed.

Lemma session_start_witness :
  exists s g',
    Game.init same_size unit_surface 1 (800, 600)%Z white None offside_rng
    = Returned (s, g')
    /\ Game.lives s = 2%Z
    /\ List.length (Game.asteroids s) = 3%nat.
Proof.
  assert (Hreturns :
            exists s g',
              Game.init same_size unit_surface 1 (800, 600)%Z white None
                        offside_rng = Returned (s, g')).
  { unfold Game.init.
    match goal with
    | |- context [Game.spawn_asteroids _ _ ?s0 _] => set (self := s0)
    end.
    destruct (spawn_asteroids_offside unit_surface 0 self eq_refl)
      as [field [g' Hspawn]].
    - apply (new_ship_pose same_size (Game.ship_spawn_parameters self)
               white None).
    - rewrite Hspawn. cbn [bind]. eexists. eexists. reflexivity. }
  destruct Hreturns as [s [g' Hrun]].
  exists s, g'. split; [exact Hrun |].
  destruct (session_start same_size unit_surface 1 (800, 600)%Z white None
              offside_rng g' s Hrun)
    as [_ [_ [Hlives [_ [_ [_ [_ [_ [_ [Hlen _]]]]]]]]]].
  - intros n. cbn. lra.
  - cbn. lia.
  - cbn. lia.
  - split; [exact Hlives |].
    rewrite Hlen.
    assert (Hcount : Game.asteroids_count s = 3%Z).
    { unfold Game.init in Hrun.
      destruct (Game.spawn_asteroids _ _ _ _) as [[field g1] | |];
        cbn [bind fst snd] in Hrun; try discriminate.
      injection Hrun as <- _. reflexivity. }
    rewrite Hcount. reflexivity.
Defined.

(** ** Asteroids too wide for the window *)

(** X19.  The rejection loop of [_spawn_asteroids] has no way out for an
    asteroid whose radius reaches the diagonal of the window.  With the
    ship alive anywhere inside the window, every position drawn lies
    within the radius and is rejected, so [_spawn_asteroids] never
    returns, whatever is drawn from then on. *)
Theorem spawn_rejects_wide_asteroid (fuel : nat) (s : Game.t) (diameter : R)
    (g : Rng) :
  Rng_ok g ->
  (0 < fst (Game.window_size s))%Z ->
  (0 < snd (Game.window_size s))%Z ->
  Ship.is_alive (Game.ship s) = true ->
  0 <= fst (Ship.position (Game.ship s)) <= IZR (fst (Game.window_size s)) ->
  0 <= snd (Ship.position (Game.ship s)) <= IZR (snd (Game.window_size s)) ->
  norm2 (IZR (fst (Game.window_size s)), IZR (snd (Game.window_size s)))
  <= diameter / 2 ->
  Game.spawn_somewhere fuel s diameter g = OutOfFuel.
Proof.
  intros Hg Hwidth Hheight Halive Hx Hy Hwide. revert g Hg.
  induction fuel as [| fuel IH]; intros g Hg;
    cbn -[Asteroid.generate_position]; [reflexivity |].
  destruct (generation_ranges None (Game.window_size s) g Hg)
    as [_ [Hpx [Hpy [_ Hg1]]]]; try assumption.
  { cbn. unfold Asteroid.default_minimum_diameter,
      Asteroid.default_median_diameter. lia. }
  destruct (Asteroid.generate_position (Game.window_size s) g)
    as [position g1]. cbn [fst snd] in Hpx, Hpy, Hg1.
  rewrite Halive. cbn [andb].
  destruct (Rle_dec _ _) as [Hnear | Hfar]; [apply IH; exact Hg1 |].
  exfalso. apply Hfar. eapply Rle_trans; [| exact Hwide].
  unfold norm2, sub2. cbn [fst snd]. apply sqrt_le_1_alt.
  set (sx := fst (Ship.position (Game.ship s))) in *.
  set (sy := snd (Ship.position (Game.ship s))) in *.
  set (w := IZR (fst (Game.window_size s))) in *.
  set (h := IZR (snd (Game.window_size s))) in *.
  assert (Hdx : (sx - fst position) * (sx - fst position) <= w * w)
    by nra.
  assert (Hdy : (sy - snd position) * (sy - snd position) <= h * h)
    by nra.
  lra.
Qed.

Lemma spawn_rejects_wide_asteroid_witness :
  Game.spawn_somewhere 7
    (session (ship_at (400, 300) true 0) 2 3 [] []) 2002 steady_rng
  = OutOfFuel.
Proof.
  apply spawn_rejects_wide_asteroid.
  - intros n. cbn. lra.
  - cbn. lia.
  - cbn. lia.
  - reflexivity.
  - cbn. lra.
  - cbn. lra.
  - apply Rlt_le. apply Rlt_le_trans with 1001; [| lra].
    unfold norm2. cbn [fst snd Game.window_size session].
    apply sqrt_below; lra.
Defined.

(** ** The next level *)

Lemma cleared_existsb (s : Game.t) :
  existsb Asteroid.is_alive (Game.asteroids s) = false <-> cleared s.
Proof.
  unfold cleared. induction (Game.asteroids s) as [| a rest IH]; cbn.
  - split; [constructor | reflexivity].
  - rewrite orb_false_iff, IH. split.
    + intros [Ha Hrest]. constructor; assumption.
    + intros Hall. inversion Hall; subst. split; assumption.
Qed.

(** X20.  The level increment of [Game.tick].  While an asteroid lives
    nothing happens, and nothing happens once the field is cleared with
    the ship dead and no life left: the game that is about to end gets no
    new level.  Otherwise a cleared field raises the level by one and is
    replaced as a whole, dead asteroids included, by [asteroids count]
    asteroids freshly spawned for the new level; ship, bullets, score,
    timer and lives stay as they are. *)
Theorem level_up_cases surface_size (fuel : nat) (s s' : Game.t)
    (g g' : Rng) :
  Game.level_up surface_size fuel s g = Returned (s', g') ->
  Rng_ok g ->
  (0 < fst (Game.window_size s))%Z ->
  (0 < snd (Game.window_size s))%Z ->
  (~ cleared s -> s' = s /\ g' = g)
  /\ (cleared s -> Ship.is_alive (Game.ship s) = false ->
      (Game.lives s <= 0)%Z -> s' = s /\ g' = g)
  /\ (cleared s ->
      Ship.is_alive (Game.ship s) = true \/ (0 < Game.lives s)%Z ->
      Game.level s' = (Game.level s + 1)%Z
      /\ List.length (Game.asteroids s') = Z.to_nat (Game.asteroids_count s)
      /\ Forall (freshly_spawned s') (Game.asteroids s')
      /\ setup s' = setup s
      /\ Game.ship s' = Game.ship s
      /\ Game.bullets s' = Game.bullets s
      /\ Game.score s' = Game.score s
      /\ Game.respawn_timer s' = Game.respawn_timer s
      /\ Rng_ok g').
Proof.
  unfold Game.level_up. intros Hrun Hg Hwidth Hheight.
  destruct (existsb Asteroid.is_alive (Game.asteroids s)) eqn:Hany;
    cbn [negb] in Hrun.
  - assert (Hnot : ~ cleared s).
    { intros Hcleared. apply cleared_existsb in Hcleared. congruence. }
    injection Hrun as <- <-.
    split; [intros _; split; reflexivity |].
    split; intros Hcleared; contradiction.
  - apply cleared_existsb in Hany.
    split; [intros Hnot; contradiction |].
    destruct (Ship.is_alive (Game.ship s)) eqn:Halive; cbn [orb] in Hrun.
    + split; [intros _ Hdead; discriminate |].
      intros _ _.
      set (raised := Game.set_level (Game.level s + 1) s) in *.
      destruct (Game.spawn_asteroids surface_size fuel raised g)
        as [[field g1] | |] eqn:Hspawn; cbn [bind fst snd] in Hrun;
        try discriminate.
      injection Hrun as <- <-.
      unfold Game.spawn_asteroids in Hspawn.
      destruct (spawn_loop_spec surface_size fuel raised _ Hwidth Hheight
                  _ _ _ _ Hspawn Hg (Forall_nil _)) as [Hlen [Hall Hg1]].
      rewrite length_seq in Hlen. cbn [List.length Nat.add] in Hlen.
      split; [reflexivity |].
      split; [exact Hlen |].
      split; [exact Hall |].
      repeat (split; [reflexivity |]). exact Hg1.
    + destruct (Game.lives s >? 0)%Z eqn:Hlives.
      * apply Z.gtb_lt in Hlives.
        split; [intros _ _ Hnone; lia |].
        intros _ _.
        set (raised := Game.set_level (Game.level s + 1) s) in *.
        destruct (Game.spawn_asteroids surface_size fuel raised g)
          as [[field g1] | |] eqn:Hspawn; cbn [bind fst snd] in Hrun;
          try discriminate.
        injection Hrun as <- <-.
        unfold Game.spawn_asteroids in Hspawn.
        destruct (spawn_loop_spec surface_size fuel raised _ Hwidth Hheight
                    _ _ _ _ Hspawn Hg (Forall_nil _)) as [Hlen [Hall Hg1]].
        rewrite length_seq in Hlen. cbn [List.length Nat.add] in Hlen.
        split; [reflexivity |].
        split; [exact Hlen |].
        split; [exact Hall |].
        repeat (split; [reflexivity |]). exact Hg1.
      * injection Hrun as <- <-.
        split; [intros _ _ _; split; reflexivity |].
        intros _ [Hcontra | Hsome]; [discriminate |].
        assert ((Game.lives s >? 0)%Z = true) by (apply Z.gtb_lt; lia).
        congruence.
Qed.

Lemma level_up_cases_witness :
  exists s' g',
    Game.level_up unit_surface 1
      (session (ship_at (400, 300) false 0) 2 3 [rock 60 (100, 100) (0, 0) false]
               []) steady_rng
    = Returned (s', g')
    /\ Game.level s' = 2%Z
    /\ List.length (Game.asteroids s') = 3%nat.
Proof.
  pose (s := session (ship_at (400, 300) false 0) 2 3
                     [rock 60 (100, 100) (0, 0) false] []).
  destruct (level_up_ship_dead unit_surface 0 s steady_rng eq_refl)
    as [s' [g' Hrun]].
  exists s', g'. split; [exact Hrun |].
  destruct (level_up_cases unit_surface 1 s s' steady_rng g' Hrun)
    as [_ [_ Hnext]].
  - intros n. cbn. lra.
  - cbn. lia.
  - cbn. lia.
  - destruct Hnext as [Hlevel [Hlen _]].
    + constructor; [reflexivity | constructor].
    + right. cbn. lia.
    + split; [exact Hlevel | exact Hlen].
Defined.

(** ** The row of lives *)

Lemma blits_length (n : nat) (width x y : R) :
  List.length (HorizontalGlyphCounter.blits n width x y) = n.
Proof.
  revert x. induction n as [| n IH]; intros x; cbn; [reflexivity |].
  rewrite IH. reflexivity.
Qed.

Lemma blits_nth (n : nat) (width x y : R) (k : nat) (p : Vec2) :
  nth_error (HorizontalGlyphCounter.blits n width x y) k = Some p ->
  p = (x + INR k * width, y).
Proof.
  revert x k. induction n as [| n IH]; intros x k; cbn.
  - destruct k; discriminate.
  - destruct k as [| k].
    + intros [= <-]. cbn. f_equal. ring.
    + cbn [nth_error]. intros Hk. apply IH in Hk. subst p.
      rewrite S_INR. f_equal. ring.
Qed.

(** X21.  The row of lives.  [HorizontalGlyphCounter.draw] raises exactly
    on an anchor of fewer than two characters.  Otherwise it blits one
    glyph per count (none for a count of 0 or less), side by side from
    left to right at one height.  The row is placed by the anchor: its
    left edge at the location for [w], centred on it for [c], and its
    right edge at the location for any other second letter; its top at
    the location for [n], its middle for [c] and its bottom for any
    other first letter. *)
Theorem glyph_row (self : HorizontalGlyphCounter.t) :
  let width := IZR (fst (HorizontalGlyphCounter.image self)) in
  let height := IZR (snd (HorizontalGlyphCounter.image self)) in
  let place := HorizontalGlyphCounter.location self in
  let letter k := String.get k (HorizontalGlyphCounter.anchor self) in
  match HorizontalGlyphCounter.draw self with
  | Returned row =>
      (2 <= String.length (HorizontalGlyphCounter.anchor self))%nat
      /\ List.length row = Z.to_nat (HorizontalGlyphCounter.count self)
      /\ forall first, nth_error row 0 = Some first ->
           (forall k p, nth_error row k = Some p ->
              p = (row_left first + INR k * width, row_top first))
           /\ (letter 1%nat = Some "w"%char -> row_left first = fst place)
           /\ (letter 1%nat = Some "c"%char ->
               (row_left first + row_right self first) / 2 = fst place)
           /\ (letter 1%nat <> Some "w"%char ->
               letter 1%nat <> Some "c"%char ->
               row_right self first = fst place)
           /\ (letter 0%nat = Some "n"%char -> row_top first = snd place)
           /\ (letter 0%nat = Some "c"%char ->
               row_top first + height / 2 = snd place)
           /\ (letter 0%nat <> Some "n"%char ->
               letter 0%nat <> Some "c"%char ->
               row_top first + height = snd place)
  | Raised => (String.length (HorizontalGlyphCounter.anchor self) < 2)%nat
  | OutOfFuel => False
  end.
Proof.
  cbv zeta. unfold HorizontalGlyphCounter.draw, row_left, row_right, row_top.
  destruct self as [anchor [px py] count [width height]].
  cbn [HorizontalGlyphCounter.anchor HorizontalGlyphCounter.location
       HorizontalGlyphCounter.count HorizontalGlyphCounter.image fst snd].
  destruct anchor as [| vertical [| horizontal rest]];
    cbn [String.get String.length]; [lia | lia |].
  split; [lia |].
  split; [apply blits_length |].
  intros first Hfirst.
  pose proof (blits_nth _ _ _ _ _ _ Hfirst) as Hat.
  cbn in Hat. subst first. cbn [fst snd].
  rewrite mult_IZR.
  split.
  { intros k p Hk. apply blits_nth in Hk. subst p. f_equal; ring. }
  destruct (Ascii.eqb horizontal "w") eqn:Hw;
    [apply Ascii.eqb_eq in Hw | apply Ascii.eqb_neq in Hw];
    (destruct (Ascii.eqb horizontal "c") eqn:Hc;
     [apply Ascii.eqb_eq in Hc | apply Ascii.eqb_neq in Hc]);
    (destruct (Ascii.eqb vertical "n") eqn:Hn;
     [apply Ascii.eqb_eq in Hn | apply Ascii.eqb_neq in Hn]);
    (destruct (Ascii.eqb vertical "c") eqn:Hm;
     [apply Ascii.eqb_eq in Hm | apply Ascii.eqb_neq in Hm]);
    repeat match goal with
           | |- _ /\ _ => split
           end;
    intros; subst;
    try match goal with
        | H : Some _ = Some _ |- _ => injection H as H; subst
        end;
    try discriminate; try congruence; try (exfalso; congruence);
    try (rewrite Rplus_0_r); try field; try ring.
Qed.

(** ** A tick that does not return *)


Section Reach.

Context {A : Type} `{SpriteLaws A}.


End Reach.




